(** * Brand Check service: section extractor and hybrid search engine

    A shallow embedding of [utils/markdown.ts] (section extraction, table of
    contents, line lookup, escaping), [services/searchService.ts] (hybrid
    vector + keyword search), [routes/search.ts] (the search and suggestions
    handlers), and of what [services/documentService.ts],
    [routes/doc.ts] and [middleware/errorHandler.ts] compute.

    Conventions of the embedding:
    - a JavaScript string is a [string] of 8-bit characters; case mapping,
      whitespace and word characters are those of ASCII;
    - a JavaScript number that is a count, an index or a limit is a [nat] or
      a [Z]; a score is an exact rational [Q] (rounding of binary64 is not
      modelled), and [Math.sqrt] is a field of the host interface;
    - an exception is the [Throw] branch of [result]; an [await]ed call is
      the call itself, a rejected promise being an exception at the [await];
      a promise that is passed on without [await] is a value of its own
      ([PromiseOf]); [updateSections], which starts a rebuild and does not
      wait for it, returns the pending rebuild next to the service;
    - the clock ([Date.now], the [searchTime] field) and logging are left out. *)

From Stdlib Require Import Bool Arith ZArith QArith Qminmax List String Ascii.
From Stdlib Require Import DecimalString Lia Permutation Sorted.
From Stdlib Require DecimalNat DecimalFacts.
Import ListNotations.

Local Close Scope Q_scope.
Local Open Scope string_scope.
Local Open Scope list_scope.
Local Open Scope nat_scope.

(** ** Exceptions *)

(** The messages of the [ValidationError]s of the search route. *)
Inductive validation : Type :=
| QueryRequired
| QueryEmpty
| QueryTooLong
| LimitOutOfRange.

Inductive error : Type :=
| SyntaxError (pattern : string)
| DimensionError (msg : string)
| EmbeddingError (msg : string)
| TypeError (msg : string)
| ValidationError (reason : validation).

Inductive result (A : Type) : Type :=
| Ok (a : A)
| Throw (e : error).

Arguments Ok {A} a.
Arguments Throw {A} e.

Definition bind {A B : Type} (m : result A) (k : A -> result B) : result B :=
  match m with
  | Ok a => k a
  | Throw e => Throw e
  end.

Notation "x <- m ;; k" := (bind m (fun x => k))
  (at level 61, m at next level, right associativity).

(** [for (const x of l) { acc = body acc x }] where the body may throw. *)
Fixpoint for_each {A S : Type} (body : S -> A -> result S) (l : list A) (acc : S)
  : result S :=
  match l with
  | [] => Ok acc
  | x :: l' => acc' <- body acc x ;; for_each body l' acc'
  end.

(** [Promise.all (l.map f)] *)
Fixpoint map_all {A B : Type} (f : A -> result B) (l : list A) : result (list B) :=
  match l with
  | [] => Ok []
  | x :: l' => y <- f x ;; ys <- map_all f l' ;; Ok (y :: ys)
  end.

(** ** Host-language primitives *)

Module JS.

(** Characters matched by [\s] and removed by [trim]. *)
Definition isWhiteSpace (c : ascii) : bool :=
  match c with
  | "009"%char | "010"%char | "011"%char | "012"%char | "013"%char
  | " "%char => true
  | _ => false
  end.

(** Characters the regular-expression dot does not match. *)
Definition isLineTerminator (c : ascii) : bool :=
  match c with
  | "010"%char | "013"%char => true
  | _ => false
  end.

(** Characters matched by [\w]. *)
Definition isWordChar (c : ascii) : bool :=
  let n := nat_of_ascii c in
  ((48 <=? n) && (n <=? 57)) || ((65 <=? n) && (n <=? 90))
  || ((97 <=? n) && (n <=? 122)) || (n =? 95).

Definition isDigit (c : ascii) : bool :=
  let n := nat_of_ascii c in (48 <=? n) && (n <=? 57).

Definition lowerChar (c : ascii) : ascii :=
  let n := nat_of_ascii c in
  if (65 <=? n) && (n <=? 90) then ascii_of_nat (n + 32) else c.

Fixpoint toLowerCase (s : string) : string :=
  match s with
  | EmptyString => EmptyString
  | String c s' => String (lowerChar c) (toLowerCase s')
  end.

Fixpoint trimStart (s : string) : string :=
  match s with
  | EmptyString => EmptyString
  | String c s' => if isWhiteSpace c then trimStart s' else s
  end.

Fixpoint trimEnd (s : string) : string :=
  match s with
  | EmptyString => EmptyString
  | String c s' =>
      match trimEnd s' with
      | EmptyString => if isWhiteSpace c then EmptyString else String c EmptyString
      | t => String c t
      end
  end.

Definition trim (s : string) : string := trimEnd (trimStart s).

(** [s.split(sep)] for a one-character separator: never the empty list. *)
Fixpoint split (sep : ascii) (s : string) : list string :=
  match s with
  | EmptyString => [EmptyString]
  | String c s' =>
      if Ascii.eqb c sep then EmptyString :: split sep s'
      else match split sep s' with
           | [] => [String c EmptyString]
           | l :: ls => String c l :: ls
           end
  end.

(** [s.split(/\s+/)]: a maximal run of whitespace is one separator, so a
    leading or trailing run leaves an empty first or last piece.
    [inRun] tells that the previous character was whitespace. *)
Fixpoint splitWs (inRun : bool) (s : string) : list string :=
  match s with
  | EmptyString => [EmptyString]
  | String c s' =>
      if isWhiteSpace c then
        if inRun then splitWs true s' else EmptyString :: splitWs true s'
      else match splitWs false s' with
           | [] => [String c EmptyString]
           | l :: ls => String c l :: ls
           end
  end.

Definition splitWhitespace (s : string) : list string := splitWs false s.

(** [l.join(sep)] *)
Fixpoint join (sep : string) (l : list string) : string :=
  match l with
  | [] => EmptyString
  | [x] => x
  | x :: l' => (x ++ sep ++ join sep l')%string
  end.

(** [c.repeat(n)] *)
Fixpoint repeat (c : ascii) (n : nat) : string :=
  match n with
  | O => EmptyString
  | S n' => String c (repeat c n')
  end.

Fixpoint drop (n : nat) (s : string) : string :=
  match n, s with
  | S n', String _ s' => drop n' s'
  | _, _ => s
  end.

(** [l.slice(0, n)]: a negative [n] counts from the end of the array. *)
Definition slice0 {A : Type} (l : list A) (n : Z) : list A :=
  if (n <? 0)%Z then firstn (Nat.sub (List.length l) (Z.to_nat (- n))) l
  else firstn (Z.to_nat n) l.

(** [[...new Set(l)]]: the first occurrence of each string is kept. *)
Fixpoint dedupe (seen : list string) (l : list string) : list string :=
  match l with
  | [] => []
  | x :: l' =>
      if existsb (String.eqb x) seen then dedupe seen l'
      else x :: dedupe (x :: seen) l'
  end.

Definition unique (l : list string) : list string := dedupe [] l.

(** [parseInt(s, 10)]: leading whitespace and one sign are skipped, then the
    longest run of decimal digits is read; [None] stands for [NaN]. *)
Fixpoint digits (s : string) (acc : option Z) : option Z :=
  match s with
  | EmptyString => acc
  | String c s' =>
      if isDigit c then
        let d := Z.of_nat (nat_of_ascii c - 48) in
        digits s' (Some (match acc with Some a => 10 * a + d | None => d end)%Z)
      else acc
  end.

Definition parseInt (s : string) : option Z :=
  match trimStart s with
  | String "-"%char s' => option_map Z.opp (digits s' None)
  | String "+"%char s' => digits s' None
  | s' => digits s' None
  end.

Definition natToString (n : nat) : string :=
  NilZero.string_of_uint (Nat.to_uint n).

(** [s.startsWith(p)] *)
Definition startsWith (p s : string) : bool := String.prefix p s.

(** [s.includes(p)] *)
Fixpoint includes (p s : string) : bool :=
  String.prefix p s
  || match s with
     | EmptyString => false
     | String _ s' => includes p s'
     end.

End JS.

(** ** Regular expressions

    [new RegExp(pattern, flags)] either throws a [SyntaxError] or yields a
    regular expression; [text.match(re) || []] with the [g] flag lists the
    matched substrings from left to right.  Three classes of patterns are
    told apart:
    - a concatenation of ordinary characters and [\b] / [\B] assertions is
      compiled and matched here ([parseSimple], [matchAll]);
    - a pattern written with the syntax characters [( ) | ^ $ . * + ?]
      and [\b] only is checked against the pattern grammar ([scan]); an
      ill-formed one throws;
    - every other pattern is left to the host's engine. *)

Module Regex.

Inductive item : Type :=
| Chr (c : ascii)
| WordB
| NotWordB.

Definition isSyntaxChar (c : ascii) : bool :=
  match c with
  | "^"%char | "$"%char | "\"%char | "."%char | "*"%char | "+"%char
  | "?"%char | "("%char | ")"%char | "["%char | "]"%char | "{"%char
  | "}"%char | "|"%char => true
  | _ => false
  end.

Fixpoint parseSimple (p : string) : option (list item) :=
  match p with
  | EmptyString => Some []
  | String "\"%char (String "b"%char p') => option_map (cons WordB) (parseSimple p')
  | String "\"%char (String "B"%char p') => option_map (cons NotWordB) (parseSimple p')
  | String c p' =>
      if isSyntaxChar c then None else option_map (cons (Chr c)) (parseSimple p')
  end.

(** What precedes the current position of the pattern: nothing that a
    quantifier could apply to, an atom, a quantifier that may still take
    its lazy mark, or a complete quantifier. *)
Inductive prev : Type := AtStart | AfterAtom | AfterQuantifier | AfterLazy.

Inductive verdict : Type := WellFormed | IllFormed | NotChecked.

Fixpoint scan (p : string) (depth : nat) (before : prev) : verdict :=
  match p with
  | EmptyString => match depth with O => WellFormed | S _ => IllFormed end
  | String c p' =>
      match c with
      | "\"%char =>
          match p' with
          | EmptyString => IllFormed
          | String "b"%char p'' | String "B"%char p'' => scan p'' depth AtStart
          | _ => NotChecked
          end
      | "["%char | "]"%char | "{"%char | "}"%char => NotChecked
      | "("%char =>
          match p' with
          | String "?"%char _ => NotChecked
          | _ => scan p' (S depth) AtStart
          end
      | ")"%char =>
          match depth with
          | O => IllFormed
          | S d => scan p' d AfterAtom
          end
      | "|"%char | "^"%char | "$"%char => scan p' depth AtStart
      | "*"%char | "+"%char =>
          match before with
          | AfterAtom => scan p' depth AfterQuantifier
          | _ => IllFormed
          end
      | "?"%char =>
          match before with
          | AfterAtom => scan p' depth AfterQuantifier
          | AfterQuantifier => scan p' depth AfterLazy
          | _ => IllFormed
          end
      | _ => scan p' depth AfterAtom
      end
  end.

Definition ignoreCase (flags : string) : bool :=
  existsb (Ascii.eqb "i"%char) (list_ascii_of_string flags).

Definition charMatches (ic : bool) (c d : ascii) : bool :=
  if ic then Ascii.eqb (JS.lowerChar c) (JS.lowerChar d) else Ascii.eqb c d.

Definition isWord (c : option ascii) : bool :=
  match c with
  | Some c => JS.isWordChar c
  | None => false
  end.

Definition head (s : string) : option ascii :=
  match s with
  | EmptyString => None
  | String c _ => Some c
  end.

(** Match the items at the current position: [before] is the character
    left of it, [s] the rest of the subject.  Yields the matched text. *)
Fixpoint matchItems (ic : bool) (items : list item) (before : option ascii)
  (s : string) : option string :=
  match items with
  | [] => Some EmptyString
  | Chr c :: items' =>
      match s with
      | EmptyString => None
      | String d s' =>
          if charMatches ic c d
          then option_map (String d) (matchItems ic items' (Some d) s')
          else None
      end
  | WordB :: items' =>
      if xorb (isWord before) (isWord (head s))
      then matchItems ic items' before s else None
  | NotWordB :: items' =>
      if xorb (isWord before) (isWord (head s))
      then None else matchItems ic items' before s
  end.

(** All matches of a global regular expression: after a match the scan
    resumes at its end, one character further when it was empty.  [skip]
    counts the characters still covered by the previous match. *)
Fixpoint matchAll (ic : bool) (items : list item) (before : option ascii)
  (s : string) (skip : nat) : list string :=
  match s with
  | EmptyString =>
      match skip with
      | O => match matchItems ic items before EmptyString with
             | Some m => [m]
             | None => []
             end
      | S _ => []
      end
  | String d s' =>
      match skip with
      | S k => matchAll ic items (Some d) s' k
      | O =>
          match matchItems ic items before s with
          | Some m => m :: matchAll ic items (Some d) s' (pred (String.length m))
          | None => matchAll ic items (Some d) s' 0
          end
      end
  end.

(** A compiled global regular expression, as [String.prototype.match]
    uses it. *)
Definition matcher : Type := string -> list string.

Definition simpleMatcher (ic : bool) (items : list item) : matcher :=
  fun text => matchAll ic items None text 0.

End Regex.

(** ** Data model ([types/index.ts]) *)

Record DocumentSection : Type := mkSection {
  id : string;
  slug : string;
  title : string;
  content : string;
  level : nat;
  startLine : nat;
  endLine : nat;
  embedding : option (list Q)
}.

Record SearchResult : Type := mkResult {
  section : DocumentSection;
  score : Q;
  matches : list string
}.

(** What is passed at run time where the source declares [SearchResult[]]:
    an array, or a promise that has been resolved with an array. *)
Inductive Results : Type :=
| ArrayOf (l : list SearchResult)
| PromiseOf (l : list SearchResult).

Record SearchResponse : Type := mkResponse {
  query : string;
  results : list SearchResult;
  totalResults : nat
}.

Record SearchConfig : Type := mkConfig {
  maxResults : Z;
  minScore : Q;
  enableSemanticSearch : bool;
  enableKeywordSearch : bool
}.

(** [Partial<SearchConfig>]: [None] is an absent field. *)
Record PartialSearchConfig : Type := mkPartial {
  p_maxResults : option Z;
  p_minScore : option Q;
  p_enableSemanticSearch : option bool;
  p_enableKeywordSearch : option bool
}.

(** The [EmbeddingService] object, by what the search service observes of it. *)
Record EmbeddingService : Type := mkEmbedding {
  isReady : bool;
  generateEmbedding : string -> result (list Q)
}.

(** What the program takes from its environment: the numeric library, the
    regular-expression engine on the patterns not modelled in [Regex], and the
    two modules of the repository whose code is not part of this
    development ([services/embeddingService.ts], [utils/slugify.ts]). *)
Class Host : Type := {
  Math_sqrt : Q -> Q;
  host_RegExp : string -> string -> result Regex.matcher;
  embedding_initialize : EmbeddingService -> result EmbeddingService;
  slugify : string -> string
}.

(** ** Section extractor ([utils/markdown.ts]) *)

Module Markdown.

Definition LF : ascii := "010"%char.
Definition newline : string := String LF EmptyString.

Fixpoint countLeading (p : ascii -> bool) (s : string) : nat :=
  match s with
  | EmptyString => O
  | String c s' => if p c then S (countLeading p s') else O
  end.

Fixpoint lastChar (s : string) : option ascii :=
  match s with
  | EmptyString => None
  | String c EmptyString => Some c
  | String _ s' => lastChar s'
  end.

Fixpoint anyChar (p : ascii -> bool) (s : string) : bool :=
  match s with
  | EmptyString => false
  | String c s' => p c || anyChar p s'
  end.

(** [line.match(/^(#{1,6})\s+(.+)$/)]: the length of the first group and
    the second group.  After one to six marks the whitespace run is taken
    whole when text follows it; the text may hold no line terminator.  When
    nothing follows, the run gives back its last character to the second
    group. *)
Definition headingMatch (line : string) : option (nat * string) :=
  let k := countLeading (Ascii.eqb "#"%char) line in
  let afterMarks := JS.drop k line in
  let w := countLeading JS.isWhiteSpace afterMarks in
  let text := JS.drop w afterMarks in
  if (1 <=? k) && (k <=? 6) && (1 <=? w) then
    match text with
    | String _ _ =>
        if anyChar JS.isLineTerminator text then None else Some (k, text)
    | EmptyString =>
        match lastChar afterMarks with
        | Some c =>
            if (2 <=? w) && negb (JS.isLineTerminator c)
            then Some (k, String c EmptyString) else None
        | None => None
        end
    end
  else None.

(** The fields of [currentSection] set when a heading opens a section. *)
Record OpenSection : Type := mkOpen {
  o_id : string;
  o_slug : string;
  o_title : string;
  o_level : nat;
  o_startLine : nat
}.

Record LoopState : Type := mkLoop {
  sections : list DocumentSection;
  currentSection : option OpenSection;
  sectionContent : list string;
  sectionIndex : nat
}.

(** [{...currentSection, content: sectionContent.join('\n').trim(), endLine}] *)
Definition closeSection (o : OpenSection) (body : list string) (last : nat)
  : DocumentSection :=
  mkSection (o_id o) (o_slug o) (o_title o) (JS.trim (JS.join newline body))
            (o_level o) (o_startLine o) last None.

Definition pushCurrent (st : LoopState) (last : nat) : list DocumentSection :=
  match currentSection st with
  | Some o => sections st ++ [closeSection o (sectionContent st) last]
  | None => sections st
  end.

Section WithHost.
Context {host : Host}.

(** One iteration of the loop over the lines, at index [i]. *)
Definition step (st : LoopState) (i : nat) (line : string) : LoopState :=
  match headingMatch line with
  | Some (k, text) =>
      let t := JS.trim text in
      mkLoop (pushCurrent st (i - 1))
             (Some (mkOpen ("section-" ++ JS.natToString (sectionIndex st))
                           (slugify t) t k i))
             []
             (S (sectionIndex st))
  | None =>
      match currentSection st with
      | Some _ => mkLoop (sections st) (currentSection st)
                         (sectionContent st ++ [line]) (sectionIndex st)
      | None => st
      end
  end.

Fixpoint loop (lines : list string) (i : nat) (st : LoopState) : LoopState :=
  match lines with
  | [] => st
  | line :: rest => loop rest (S i) (step st i line)
  end.

Definition extractSections (text : string) : list DocumentSection :=
  let lines := JS.split LF text in
  pushCurrent (loop lines 0 (mkLoop [] None [] 0)) (List.length lines - 1).

End WithHost.

Definition headingLine (s : DocumentSection) : string :=
  (JS.repeat "#"%char (level s) ++ " " ++ title s)%string.

Definition generateMarkdownFromSections (l : list DocumentSection) : string :=
  JS.join (newline ++ newline)%string
    (map (fun s => (headingLine s ++ (newline ++ newline) ++ content s)%string) l).

(** [sections.find(section => lineNumber >= section.startLine
                              && lineNumber <= section.endLine) || null] *)
Definition findSectionByLineNumber (l : list DocumentSection) (lineNumber : Z)
  : option DocumentSection :=
  find (fun s => (Z.of_nat (startLine s) <=? lineNumber)%Z
                 && (lineNumber <=? Z.of_nat (endLine s))%Z) l.

(** The characters of the class [[\\`*_{}[\]()#+\-.!]] of [escapeMarkdown]. *)
Definition isSpecial (c : ascii) : bool :=
  match c with
  | "\"%char | "`"%char | "*"%char | "_"%char | "{"%char | "}"%char
  | "["%char | "]"%char | "("%char | ")"%char | "#"%char | "+"%char
  | "-"%char | "."%char | "!"%char => true
  | _ => false
  end.

(** [text.replace(/[...]/g, '\\$&')]: a backslash goes in front of each
    character of the class. *)
Fixpoint escapeMarkdown (text : string) : string :=
  match text with
  | EmptyString => EmptyString
  | String c rest =>
      if isSpecial c then String "\"%char (String c (escapeMarkdown rest))
      else String c (escapeMarkdown rest)
  end.

(** *** Front matter *)

Definition isQuote (c : ascii) : bool :=
  Ascii.eqb c "034"%char || Ascii.eqb c "039"%char.

(** [value.replace(/^["']|["']$/g, '')]: a quote at the start is removed,
    and a quote at the end of what is left. *)
Definition dropFirstQuote (s : string) : string :=
  match s with
  | EmptyString => EmptyString
  | String c s' => if isQuote c then s' else s
  end.

Fixpoint dropLastQuote (s : string) : string :=
  match s with
  | EmptyString => EmptyString
  | String c EmptyString => if isQuote c then EmptyString else s
  | String c s' => String c (dropLastQuote s')
  end.

Definition stripQuotes (s : string) : string := dropLastQuote (dropFirstQuote s).

(** The object [meta], by its own properties: the keys with their values. *)
Definition Meta : Type := list (string * string).

Fixpoint metaGet (k : string) (m : Meta) : option string :=
  match m with
  | [] => None
  | (k', v) :: m' => if String.eqb k k' then Some v else metaGet k m'
  end.

Fixpoint metaSet (k v : string) (m : Meta) : Meta :=
  match m with
  | [] => [(k, v)]
  | (k', v') :: m' =>
      if String.eqb k k' then (k', v) :: m' else (k', v') :: metaSet k v m'
  end.

(** The body of the loop of [extractMetaTags] for one line.  The assignment
    [meta[key] = value] of a string to the key [__proto__] of an object
    literal is without effect. *)
Definition metaLine (meta : Meta) (raw : string) : Meta :=
  let line := JS.trim raw in
  if negb (String.eqb line EmptyString) && JS.includes ":" line then
    match JS.split ":" line with
    | key :: valueParts =>
        let value := stripQuotes (JS.trim (JS.join ":" valueParts)) in
        if String.eqb (JS.trim key) "__proto__" then meta
        else metaSet (JS.trim key) value meta
    | [] => meta
    end
  else meta.

(** [while (i < lines.length && lines[i] !== '---')] *)
Fixpoint metaLoop (lines : list string) (meta : Meta) : Meta :=
  match lines with
  | [] => meta
  | line :: rest =>
      if String.eqb line "---" then meta else metaLoop rest (metaLine meta line)
  end.

Definition extractMetaTags (text : string) : Meta :=
  match JS.split LF text with
  | first :: rest => if String.eqb first "---" then metaLoop rest [] else []
  | [] => []
  end.

(** *** Table of contents

    [extractTableOfContents] builds its tree by mutation: a new item is
    pushed onto the [children] array of the item on top of the stack and
    then onto the stack itself, so that what is pushed onto its own
    [children] later is seen through its parent.  The items therefore live
    in an object store; [children], [toc] and [stack] hold references, a
    reference being the rank of the item in the order of allocation. *)

Record TocItem : Type := mkItem {
  item_id : string;
  item_slug : string;
  item_title : string;
  item_level : nat;
  item_children : list nat
}.

Definition ItemStore : Type := list TocItem.

(** [parent.children.push(item)]; [children] is an array from the creation
    of the item on, so that [if (!parent.children)] never holds. *)
Fixpoint pushChild (h : ItemStore) (parent child : nat) : ItemStore :=
  match h, parent with
  | [], _ => []
  | p :: h', O =>
      mkItem (item_id p) (item_slug p) (item_title p) (item_level p)
             (item_children p ++ [child]) :: h'
  | x :: h', S parent' => x :: pushChild h' parent' child
  end.

(** [while (stack.length > 0 && stack[stack.length - 1].level >= level)
    stack.pop()]; the stack is kept with its top first, and holds
    references of allocated items only. *)
Fixpoint popDeeper (h : ItemStore) (lv : nat) (stack : list nat) : list nat :=
  match stack with
  | [] => []
  | top :: below =>
      match nth_error h top with
      | Some it => if lv <=? item_level it then popDeeper h lv below else stack
      | None => stack
      end
  end.

Record TocState : Type := mkToc {
  items : ItemStore;
  toc : list nat;
  stack : list nat
}.

(** One iteration of the loop over the sections. *)
Definition tocStep (st : TocState) (s : DocumentSection) : TocState :=
  let item := List.length (items st) in
  let h := items st ++ [mkItem (id s) (slug s) (title s) (level s) []] in
  match popDeeper h (level s) (stack st) with
  | [] => mkToc h (toc st ++ [item]) [item]
  | parent :: below =>
      mkToc (pushChild h parent item) (toc st) (item :: parent :: below)
  end.

Definition tocLoop (l : list DocumentSection) : TocState :=
  fold_left tocStep l (mkToc [] [] []).

(** The value that is returned: the items of [toc], each with the items
    that its [children] refer to. *)
#[warnings="-register-all"]
Inductive TocTree : Type :=
| TocNode (id slug title : string) (level : nat) (children : list TocTree).

Fixpoint allSome {A : Type} (l : list (option A)) : option (list A) :=
  match l with
  | [] => Some []
  | Some x :: l' => option_map (cons x) (allSome l')
  | None :: _ => None
  end.

(** The tree under a reference; [fuel] bounds the depth. *)
Fixpoint readItem (fuel : nat) (h : ItemStore) (r : nat) : option TocTree :=
  match fuel with
  | O => None
  | S fuel' =>
      match nth_error h r with
      | Some it =>
          option_map (TocNode (item_id it) (item_slug it) (item_title it)
                              (item_level it))
                     (allSome (map (readItem fuel' h) (item_children it)))
      | None => None
      end
  end.

Definition extractTableOfContents (l : list DocumentSection)
  : option (list TocTree) :=
  let st := tocLoop l in
  allSome (map (readItem (List.length (items st)) (items st)) (toc st)).

End Markdown.

(** ** Hybrid search engine ([services/searchService.ts]) *)

Module Search.

Record SearchService : Type := mkService {
  embeddingService : EmbeddingService;
  sections : list DocumentSection;
  config : SearchConfig
}.

Definition defaultConfig : SearchConfig :=
  mkConfig 10 (1 # 10) true true.

(** The service as its constructor leaves it, around a given embedding
    service object. *)
Definition create (es : EmbeddingService) : SearchService :=
  mkService es [] defaultConfig.

(** *** Arrays of results *)

(** [l.sort((a, b) => b.score - a.score)]: the sort is stable, so a result
    goes in front of the first one whose score is not greater than its
    own. *)
Fixpoint insertByScore (x : SearchResult) (l : list SearchResult)
  : list SearchResult :=
  match l with
  | [] => [x]
  | y :: l' =>
      if Qle_bool (score y) (score x) then x :: l
      else y :: insertByScore x l'
  end.

Definition sortByScore (l : list SearchResult) : list SearchResult :=
  fold_right insertByScore [] l.

Definition Math_min (a b : Q) : Q := if Qle_bool a b then a else b.

(** *** The [Map] of [mergeResults]: keys in insertion order *)

Definition ResultMap : Type := list (string * SearchResult).

Fixpoint mapGet (k : string) (m : ResultMap) : option SearchResult :=
  match m with
  | [] => None
  | (k', v) :: m' => if String.eqb k k' then Some v else mapGet k m'
  end.

Fixpoint mapSet (k : string) (v : SearchResult) (m : ResultMap) : ResultMap :=
  match m with
  | [] => [(k, v)]
  | (k', v') :: m' =>
      if String.eqb k k' then (k', v) :: m' else (k', v') :: mapSet k v m'
  end.

Definition mapValues (m : ResultMap) : list SearchResult := map snd m.

Definition addSemantic (m : ResultMap) (r : SearchResult) : ResultMap :=
  mapSet (id (section r)) r m.

Definition addKeyword (m : ResultMap) (r : SearchResult) : ResultMap :=
  match mapGet (id (section r)) m with
  | Some existing =>
      mapSet (id (section r))
        (mkResult (section existing)
                  (score existing * (6 # 10) + score r * (4 # 10))%Q
                  (JS.unique (matches existing ++ matches r)))
        m
  | None => mapSet (id (section r)) r m
  end.

Definition merged (semanticResults keywordResults : list SearchResult)
  : ResultMap :=
  fold_left addKeyword keywordResults (fold_left addSemantic semanticResults []).

(** [mergeResults]: the first loop fills the map from [semanticResults]; the
    second, [for (const result of keywordResults)], needs an iterable and
    throws a [TypeError] on a promise. *)
Definition mergeResults (semanticResults : list SearchResult)
  (keywordResults : Results) (maxResults : Z) : result (list SearchResult) :=
  match keywordResults with
  | ArrayOf keywordArray =>
      Ok (JS.slice0 (sortByScore (mapValues (merged semanticResults keywordArray)))
                    maxResults)
  | PromiseOf _ => Throw (TypeError "keywordResults is not iterable")
  end.

Definition queryTerms (q : string) : list string :=
  filter (fun term => 2 <? String.length term)
         (JS.splitWhitespace (JS.toLowerCase q)).

Section WithHost.
Context {host : Host}.

(** [new RegExp(pattern, flags)] *)
Definition RegExp (pattern flags : string) : result Regex.matcher :=
  match Regex.parseSimple pattern with
  | Some items => Ok (Regex.simpleMatcher (Regex.ignoreCase flags) items)
  | None =>
      match Regex.scan pattern 0 Regex.AtStart with
      | Regex.IllFormed => Throw (SyntaxError pattern)
      | _ => host_RegExp pattern flags
      end
  end.

Definition cosineSimilarity (a b : list Q) : result Q :=
  if negb (List.length a =? List.length b)
  then Throw (DimensionError "Vector dimensions must match")
  else
    let '(dotProduct, normA, normB) :=
      fold_left (fun '(d, na, nb) '(x, y) =>
                   (d + x * y, na + x * x, nb + y * y)%Q)
                (combine a b) (0%Q, 0%Q, 0%Q) in
    let magnitude := (Math_sqrt normA * Math_sqrt normB)%Q in
    Ok (if Qeq_bool magnitude 0 then 0%Q else (dotProduct / magnitude)%Q).

Definition findMatches (q text : string) : result (list string) :=
  found <- for_each
             (fun found term =>
                regex <- RegExp ("\b" ++ term ++ "\b")%string "gi" ;;
                Ok (found ++ regex text))
             (queryTerms q) [] ;;
  Ok (JS.unique found).

(** The body of the loop of [semanticSearch] over the sections. *)
Definition semanticStep (st : SearchService) (q : string) (queryEmbedding : list Q)
  (found : list SearchResult) (s : DocumentSection) : result (list SearchResult) :=
  match embedding s with
  | None => Ok found
  | Some e =>
      similarity <- cosineSimilarity queryEmbedding e ;;
      if Qle_bool (minScore (config st)) similarity then
        m <- findMatches q (content s) ;;
        Ok (found ++ [mkResult s similarity m])
      else Ok found
  end.

(** The [try] block of [semanticSearch]. *)
Definition semanticTry (st : SearchService) (q : string) (maxResults : Z)
  : result (list SearchResult) :=
  queryEmbedding <- generateEmbedding (embeddingService st) q ;;
  found <- for_each (semanticStep st q queryEmbedding) (sections st) [] ;;
  Ok (JS.slice0 (sortByScore found) maxResults).

Definition semanticSearch (st : SearchService) (q : string) (maxResults : Z)
  : list SearchResult :=
  if negb (isReady (embeddingService st)) then []
  else match semanticTry st q maxResults with
       | Ok found => found
       | Throw _ => []
       end.

(** The loop over the query terms, for one section: the raw score and the
    terms that matched. *)
Definition termStep (titleText contentText : string) (acc : nat * list string)
  (term : string) : result (nat * list string) :=
  let '(total, matched) := acc in
  titleRegex <- RegExp term "g" ;;
  let titleMatches := List.length (titleRegex titleText) in
  contentRegex <- RegExp term "g" ;;
  let contentMatches := List.length (contentRegex contentText) in
  Ok (total + (titleMatches * 3 + contentMatches),
      if (0 <? titleMatches) || (0 <? contentMatches)
      then matched ++ [term] else matched).

Definition normalizedScore (total terms : nat) : Q :=
  Math_min (inject_Z (Z.of_nat total) / inject_Z (Z.of_nat (terms * 5)))%Q 1%Q.

Definition keywordStep (q : string) (terms : list string)
  (found : list SearchResult) (s : DocumentSection) : result (list SearchResult) :=
  let contentText := JS.toLowerCase (content s) in
  let titleText := JS.toLowerCase (title s) in
  acc <- for_each (termStep titleText contentText) terms (0, []) ;;
  let '(total, _) := acc in
  if 0 <? total then
    m <- findMatches q (content s) ;;
    Ok (found ++ [mkResult s (normalizedScore total (List.length terms)) m])
  else Ok found.

(** [keywordSearch] is not an [async] function: its body runs, and may throw,
    when it is called; what it returns is
    [Promise.resolve(results.sort(...).slice(0, maxResults))], a promise
    (line 149 of the source). *)
Definition keywordSearch (st : SearchService) (q : string) (maxResults : Z)
  : result Results :=
  let terms := queryTerms q in
  found <- for_each (keywordStep q terms) (sections st) [] ;;
  Ok (PromiseOf (JS.slice0 (sortByScore found) maxResults)).

(** [maxResults || this.config.maxResults] *)
Definition effectiveLimit (st : SearchService) (requested : option Z) : Z :=
  match requested with
  | Some n => if (n =? 0)%Z then maxResults (config st) else n
  | None => maxResults (config st)
  end.

(** [search] awaits [semanticSearch] (line 54 of the source), but takes
    [const keywordResults = this.keywordSearch(query, limit)] without [await]
    (line 59) and hands that value, a promise, to [mergeResults] (line 60). *)
Definition search (st : SearchService) (q : string) (requested : option Z)
  : result SearchResponse :=
  let limit := effectiveLimit st requested in
  let found : list SearchResult := [] in
  let found :=
    if enableSemanticSearch (config st) then semanticSearch st q limit
    else found in
  found <- (if enableKeywordSearch (config st) then
              keywordResults <- keywordSearch st q limit ;;
              mergeResults found keywordResults limit
            else Ok found) ;;
  let found := sortByScore found in
  let found := JS.slice0 found limit in
  Ok (mkResponse q found (List.length found)).

(** [{ ...section, embedding }] for the text [title + ' ' + content]. *)
Definition embedSection (es : EmbeddingService) (s : DocumentSection)
  : result DocumentSection :=
  e <- generateEmbedding es (title s ++ " " ++ content s)%string ;;
  Ok (mkSection (id s) (slug s) (title s) (content s) (level s)
                (startLine s) (endLine s) (Some e)).

(** [initialize]: the service afterwards, and whether the promise is
    fulfilled or rejected.  [this.sections] is assigned only when every
    embedding has been produced. *)
Definition initialize (st : SearchService) (newSections : list DocumentSection)
  : SearchService * result unit :=
  match embedding_initialize (embeddingService st) with
  | Throw e => (st, Throw e)
  | Ok es =>
      match map_all (embedSection es) newSections with
      | Throw e => (mkService es (sections st) (config st), Throw e)
      | Ok indexed => (mkService es indexed (config st), Ok tt)
      end
  end.

(** The rebuild that [updateSections] has started and not awaited. *)
Record Pending : Type := mkPending { rebuild : list DocumentSection }.

(** [updateSections] calls [initialize], which stops at its first [await],
    attaches a handler that logs a rejection, and returns: the index is
    as before and the rebuild is pending. *)
Definition updateSections (st : SearchService) (newSections : list DocumentSection)
  : SearchService * Pending :=
  (st, mkPending newSections).

(** The service once the pending rebuild has run to its end; a rejection
    is logged and otherwise dropped. *)
Definition settle (st : SearchService) (p : Pending) : SearchService :=
  fst (initialize st (rebuild p)).

(** [{ ...this.config }] *)
Definition getConfig (st : SearchService) : SearchConfig :=
  mkConfig (maxResults (config st)) (minScore (config st))
           (enableSemanticSearch (config st)) (enableKeywordSearch (config st)).

Definition pick {A : Type} (current : A) (given : option A) : A :=
  match given with
  | Some v => v
  | None => current
  end.

(** [this.config = { ...this.config, ...config }] *)
Definition updateConfig (st : SearchService) (partial : PartialSearchConfig)
  : SearchService :=
  mkService (embeddingService st) (sections st)
    (mkConfig (pick (maxResults (config st)) (p_maxResults partial))
              (pick (minScore (config st)) (p_minScore partial))
              (pick (enableSemanticSearch (config st)) (p_enableSemanticSearch partial))
              (pick (enableKeywordSearch (config st)) (p_enableKeywordSearch partial))).

End WithHost.

End Search.

(** ** The search route ([routes/search.ts], [GET /api/search]) *)

Module Routes.

(** A value of [req.query]: absent, a string, or an array or object, of which
    the conversion to a string is kept. *)
Inductive QueryValue : Type :=
| Absent
| Text (s : string)
| Other (asString : string).

(** [limit ? parseInt(limit as string, 10) : undefined]; the inner [None] is
    [NaN]. *)
Definition parseLimit (limit : QueryValue) : option (option Z) :=
  match limit with
  | Absent => None
  | Text EmptyString => None
  | Text s => Some (JS.parseInt s)
  | Other s => Some (JS.parseInt s)
  end.

Section WithHost.
Context {host : Host}.

Definition searchHandler (st : Search.SearchService) (q limit : QueryValue)
  : result SearchResponse :=
  match q with
  | Text (String _ _ as text) =>
      if String.length (JS.trim text) =? 0 then Throw (ValidationError QueryEmpty)
      else if 500 <? String.length text then Throw (ValidationError QueryTooLong)
      else
        match parseLimit limit with
        | None => Search.search st (JS.trim text) None
        | Some None => Throw (ValidationError LimitOutOfRange)
        | Some (Some n) =>
            if (n <? 1)%Z || (100 <? n)%Z
            then Throw (ValidationError LimitOutOfRange)
            else Search.search st (JS.trim text) (Some n)
        end
  | _ => Throw (ValidationError QueryRequired)
  end.

End WithHost.

End Routes.

(** ** The document service ([services/documentService.ts])

    The service reads the Markdown file and keeps the parsed document; what
    is embedded is what it computes from the content of the file.  The
    rendering to HTML ([marked]) and the file system are left out: the
    content, the modification time and the size of the file are given. *)

Module Documents.

Record DocumentMetadata : Type := mkMetadata {
  meta_title : string;
  lastModified : Z;
  size : nat;
  wordCount : nat;
  sectionCount : nat
}.

Record ParsedDocument : Type := mkDocument {
  metadata : DocumentMetadata;
  doc_sections : list DocumentSection;
  rawContent : string
}.

(** [if (line.startsWith('# ')) return line.slice(2).trim()] *)
Definition titleOfLine (line : string) : option string :=
  if JS.startsWith "# " line then Some (JS.trim (JS.drop 2 line)) else None.

Fixpoint firstTitle (lines : list string) : option string :=
  match lines with
  | [] => None
  | line :: rest =>
      match titleOfLine line with
      | Some t => Some t
      | None => firstTitle rest
      end
  end.

(** [extractTitle]; [baseName] is [path.basename(this.filePath, '.md')]. *)
Definition extractTitle (baseName text : string) : string :=
  match firstTitle (JS.split Markdown.LF text) with
  | Some t => t
  | None => baseName
  end.

(** [content.split(/\s+/).filter(word => word.length > 0).length] *)
Definition countWords (text : string) : nat :=
  List.length (filter (fun word => 0 <? String.length word)
                      (JS.splitWhitespace text)).

Section WithHost.
Context {host : Host}.

(** The document that [loadDocument] stores, from what it has read. *)
Definition parse (baseName : string) (mtime : Z) (bytes : nat) (text : string)
  : ParsedDocument :=
  let sections := Markdown.extractSections text in
  mkDocument (mkMetadata (extractTitle baseName text) mtime bytes
                         (countWords text) (List.length sections))
             sections text.

End WithHost.

(** [this.document?.sections || []] *)
Definition getSections (document : option ParsedDocument) : list DocumentSection :=
  match document with
  | Some d => doc_sections d
  | None => []
  end.

(** [this.getSections().find(section => section.slug === slug) || null] *)
Definition getSection (document : option ParsedDocument) (wanted : string)
  : option DocumentSection :=
  find (fun s => String.eqb (slug s) wanted) (getSections document).

End Documents.

(** ** The document routes ([routes/doc.ts], [GET /api/doc/sections]) *)

Module DocRoutes.

Record TocEntry : Type := mkEntry {
  entry_id : string;
  entry_slug : string;
  entry_title : string;
  entry_level : nat;
  entry_wordCount : nat
}.

(** [wordCount: section.content.split(/\s+/).length] *)
Definition entryOf (s : DocumentSection) : TocEntry :=
  mkEntry (id s) (slug s) (title s) (level s)
          (List.length (JS.splitWhitespace (content s))).

(** The answer: [sections] and [totalSections]. *)
Definition sectionsHandler (document : option Documents.ParsedDocument)
  : list TocEntry * nat :=
  let sections := Documents.getSections document in
  (map entryOf sections, List.length sections).

End DocRoutes.

(** ** The error handler ([middleware/errorHandler.ts]) *)

Module ErrorHandler.

(** An error object as the handler reads it; [statusCode] and [status] may
    be absent. *)
Record Thrown : Type := mkThrown {
  statusCode : option Z;
  status : option Z;
  message : string
}.

(** [ApiError], without its [timestamp]. *)
Record ApiError : Type := mkApiError {
  api_error : string;
  api_message : string;
  api_statusCode : Z
}.

Definition getErrorName (code : Z) : string :=
  match code with
  | 400%Z => "Bad Request"
  | 401%Z => "Unauthorized"
  | 403%Z => "Forbidden"
  | 404%Z => "Not Found"
  | 409%Z => "Conflict"
  | 422%Z => "Unprocessable Entity"
  | 429%Z => "Too Many Requests"
  | 500%Z => "Internal Server Error"
  | 502%Z => "Bad Gateway"
  | 503%Z => "Service Unavailable"
  | _ => "Error"
  end.

(** [a || b] on a status code: an absent one and 0 give [b]. *)
Definition orElse (a : option Z) (b : Z) : Z :=
  match a with
  | Some v => if (v =? 0)%Z then b else v
  | None => b
  end.

(** [errorHandler]; [production] is [process.env.NODE_ENV === 'production']. *)
Definition errorHandler (production : bool) (e : Thrown) : ApiError :=
  let code := orElse (statusCode e) (orElse (status e) 500%Z) in
  let shown := if (code =? 500)%Z then "Internal server error" else message e in
  let shown :=
    if production && (code =? 500)%Z then "Something went wrong" else shown in
  mkApiError (getErrorName code) shown code.

(** The classes of errors: [new HttpError(statusCode, message)] and its
    subclasses. *)
Definition HttpError (code : Z) (text : string) : Thrown :=
  mkThrown (Some code) None text.

Definition ValidationError (text : string) : Thrown := HttpError 422%Z text.

Definition NotFoundError (text : option string) : Thrown :=
  HttpError 404%Z (match text with Some t => t | None => "Resource not found" end).

Definition UnauthorizedError (text : option string) : Thrown :=
  HttpError 401%Z (match text with Some t => t | None => "Unauthorized" end).

End ErrorHandler.

(** ** Search suggestions ([routes/search.ts], [POST /api/search/suggestions]) *)

Module Suggestions.

Definition isLowerLetter (c : ascii) : bool :=
  let n := nat_of_ascii c in (97 <=? n) && (n <=? 122).

(** The maximal runs of word characters of a text, an empty run where two
    other characters meet. *)
Fixpoint wordRuns (s : string) : list string :=
  match s with
  | EmptyString => [EmptyString]
  | String c s' =>
      if JS.isWordChar c then
        match wordRuns s' with
        | [] => [String c EmptyString]
        | run :: runs => String c run :: runs
        end
      else EmptyString :: wordRuns s'
  end.

(** [text.match(/\b[a-z]{3,}\b/g) || []]: a match starts where a run of word
    characters starts, takes lower-case letters and must end where the run
    ends, so that the matches are the runs of three and more characters
    that hold lower-case letters only. *)
Definition lowerWords (text : string) : list string :=
  filter (fun run => (3 <=? String.length run)
                     && forallb isLowerLetter (list_ascii_of_string run))
         (wordRuns text).

Definition stopWords : list string :=
  ["the"; "be"; "to"; "of"; "and"; "a"; "in"; "that"; "have";
   "i"; "it"; "for"; "not"; "on"; "with"; "he"; "as"; "you";
   "do"; "at"; "this"; "but"; "his"; "by"; "from"; "they";
   "we"; "say"; "her"; "she"; "or"; "an"; "will"; "my";
   "one"; "all"; "would"; "there"; "their"; "what"; "so";
   "up"; "out"; "if"; "about"; "who"; "get"; "which"; "go"; "me";
   "can"; "could"; "should"; "would"; "may"; "might"; "must";
   "shall"; "will"; "does"; "did"; "has"; "had"; "was"; "were"].

Definition isStopWord (word : string) : bool :=
  existsb (String.eqb word) stopWords.

(** [array.sort()]: ascending in the order of the character codes. *)
Fixpoint insertSorted (x : string) (l : list string) : list string :=
  match l with
  | [] => [x]
  | y :: l' => if String.leb x y then x :: l else y :: insertSorted x l'
  end.

Definition sortStrings (l : list string) : list string :=
  fold_right insertSorted [] l.

(** The words one section adds to the set. *)
Definition keywordsOf (s : DocumentSection) : list string :=
  filter (fun word => negb (isStopWord word))
         (lowerWords (JS.toLowerCase (title s ++ " " ++ content s))).

Definition extractKeywords (sections : list DocumentSection) : list string :=
  sortStrings (JS.unique (flat_map keywordsOf sections)).

Record Suggestion : Type := mkSuggestion {
  text : string;
  suggested_slug : option string;
  kind : string
}.

Inductive Answer : Type :=
| Rejected (reason : string)
| Suggested (query : string) (suggestions : list Suggestion).

Definition lastWord (words : list string) : string := last words EmptyString.

Definition sectionSuggestions (sections : list DocumentSection) (q : string)
  (limit : Z) : list Suggestion :=
  map (fun s => mkSuggestion (title s) (Some (slug s)) "section")
      (JS.slice0
         (filter (fun s => JS.includes (JS.toLowerCase q) (JS.toLowerCase (title s))
                           || JS.includes (JS.toLowerCase q)
                                          (JS.toLowerCase (content s)))
                 sections)
         limit).

Definition keywordSuggestions (sections : list DocumentSection) (q : string)
  : list Suggestion :=
  let words := JS.splitWhitespace (JS.toLowerCase q) in
  if 2 <=? String.length (lastWord words) then
    map (fun keyword =>
           mkSuggestion (JS.join " " (JS.slice0 words (-1) ++ [keyword]))
                        None "keyword")
        (JS.slice0
           (filter (fun keyword =>
                      JS.startsWith (lastWord words) (JS.toLowerCase keyword))
                   (extractKeywords sections))
           3)
  else [].

(** The handler; [query] is [req.body.query], and [limit] is
    [req.body.limit] when it is a number, [None] when it is absent. *)
Definition suggestionsHandler (sections : list DocumentSection)
  (query : Routes.QueryValue) (limit : option Z) : Answer :=
  let limit := match limit with Some n => n | None => 5%Z end in
  match query with
  | Routes.Text (String _ _ as q) =>
      Suggested q
        (JS.slice0 (sectionSuggestions sections q limit
                    ++ keywordSuggestions sections q)
                   limit)
  | _ => Rejected "Query is required"
  end.

End Suggestions.

(** ** Configuration objects in the object store

    [getConfig] and [updateConfig] build new objects; whether a caller who
    writes to the object it was given can reach the object of the service is a
    matter of references, which this module makes explicit. *)

Module ConfigStore.

Definition ref : Type := nat.

(** The store: the object of reference [r] is the [r]-th one allocated. *)
Definition Store : Type := list SearchConfig.

Definition read (h : Store) (r : ref) : option SearchConfig := nth_error h r.

Definition alloc (h : Store) (c : SearchConfig) : Store * ref :=
  (h ++ [c], List.length h).

Fixpoint write (h : Store) (r : ref) (c : SearchConfig) : Store :=
  match h, r with
  | [], _ => []
  | _ :: h', O => c :: h'
  | c' :: h', S r' => c' :: write h' r' c
  end.

(** An assignment [object.field = value] made by a caller. *)
Inductive Assignment : Type :=
| SetMaxResults (v : Z)
| SetMinScore (v : Q)
| SetEnableSemanticSearch (v : bool)
| SetEnableKeywordSearch (v : bool).

Definition assignField (c : SearchConfig) (a : Assignment) : SearchConfig :=
  match a with
  | SetMaxResults v =>
      mkConfig v (minScore c) (enableSemanticSearch c) (enableKeywordSearch c)
  | SetMinScore v =>
      mkConfig (maxResults c) v (enableSemanticSearch c) (enableKeywordSearch c)
  | SetEnableSemanticSearch v =>
      mkConfig (maxResults c) (minScore c) v (enableKeywordSearch c)
  | SetEnableKeywordSearch v =>
      mkConfig (maxResults c) (minScore c) (enableSemanticSearch c) v
  end.

Definition assign (h : Store) (r : ref) (a : Assignment) : Store :=
  match read h r with
  | Some c => write h r (assignField c a)
  | None => h
  end.

(** The [config] field of the service object. *)
Record Service : Type := mkService { configRef : ref }.

(** [return { ...this.config }]: a new object. *)
Definition getConfig (h : Store) (svc : Service) : Store * option ref :=
  match read h (configRef svc) with
  | Some c =>
      let '(h', r) := alloc h (mkConfig (maxResults c) (minScore c)
                                        (enableSemanticSearch c)
                                        (enableKeywordSearch c)) in
      (h', Some r)
  | None => (h, None)
  end.

(** [this.config = { ...this.config, ...config }]: a new object, to which the
    field is pointed. *)
Definition updateConfig (h : Store) (svc : Service) (partial : PartialSearchConfig)
  : Store * Service :=
  match read h (configRef svc) with
  | Some c =>
      let '(h', r) :=
        alloc h (mkConfig (Search.pick (maxResults c) (p_maxResults partial))
                          (Search.pick (minScore c) (p_minScore partial))
                          (Search.pick (enableSemanticSearch c)
                                       (p_enableSemanticSearch partial))
                          (Search.pick (enableKeywordSearch c)
                                       (p_enableKeywordSearch partial))) in
      (h', mkService r)
  | None => (h, svc)
  end.

End ConfigStore.

(** ** A small host and a small document, for concrete runs *)

Module Examples.

(** Exact on the squares of rationals in lowest terms. *)
Definition exactSqrt (q : Q) : Q := (Z.sqrt (Qnum q) # Pos.sqrt (Qden q))%Q.

Definition countWords (p : nat -> bool) (text : string) : Q :=
  inject_Z (Z.of_nat (List.length
    (filter (fun w => (0 <? String.length w) && p (String.length w))
            (JS.splitWhitespace (JS.toLowerCase text))))).

(** A hashing vectorizer with two buckets: a word is counted in the first
    when its length is even and in the second when it is odd. *)
Definition parityEmbedding (text : string) : result (list Q) :=
  Ok [countWords Nat.even text; countWords Nat.odd text].

Definition parityService : EmbeddingService := mkEmbedding true parityEmbedding.

(** An embedding service that rejects a text of more than 16 characters. *)
Definition shortTextService : EmbeddingService :=
  mkEmbedding true
    (fun text => if 16 <? String.length text
                 then Throw (EmbeddingError "text too long")
                 else parityEmbedding text).

Definition demoHost : Host :=
  {| Math_sqrt := exactSqrt;
     host_RegExp := fun pattern _ => Throw (SyntaxError pattern);
     embedding_initialize := fun es => Ok (mkEmbedding true (generateEmbedding es));
     slugify := JS.toLowerCase |}.

Definition brands : DocumentSection :=
  mkSection "section-0" "brands" "Brands" "brands brands" 1 0 1 None.

Definition fonts : DocumentSection :=
  mkSection "section-1" "fonts" "Fonts" "" 1 2 2 None.

Definition logos : DocumentSection :=
  mkSection "section-2" "logos" "Logos" "Logo guidelines for the ui and c++ code" 1 3 4 None.

(** The result of the vector strategy for [fonts], indexed, and a query of
    one word of odd length. *)
Definition fontsResult : SearchResult :=
  mkResult (mkSection "section-1" "fonts" "Fonts" "" 1 2 2 (Some [0%Q; 1%Q]))
           1%Q [].

(** The service after [initialize [brands; fonts]]. *)
Definition indexed : Search.SearchService :=
  fst (Search.initialize (host := demoHost) (Search.create parityService)
         [brands; fonts]).

(** The service after [initialize [brands; fonts; logos]]. *)
Definition indexedLogos : Search.SearchService :=
  fst (Search.initialize (host := demoHost) (Search.create parityService)
         [brands; fonts; logos]).

Definition onlyKeyword : PartialSearchConfig :=
  mkPartial None None (Some false) None.

Definition onlyVector : PartialSearchConfig :=
  mkPartial None None None (Some false).

Definition onlyVectorNoThreshold : PartialSearchConfig :=
  mkPartial None (Some 0%Q) None (Some false).

Definition noStrategy : PartialSearchConfig :=
  mkPartial None None (Some false) (Some false).

(** [indexed] with no strategy at all. *)
Definition indexedNoStrategy : Search.SearchService :=
  Search.updateConfig indexed noStrategy.

(** A service around [shortTextService], with [fonts] indexed. *)
Definition shortTextIndexed : Search.SearchService :=
  fst (Search.initialize (host := demoHost) (Search.create shortTextService) [fonts]).

(** The sections of the repository's test of the search service
    ([searchService.test.ts]), the service that its [beforeEach] builds, and
    the sections that its test of [updateSections] passes. *)
Definition testIntroduction : DocumentSection :=
  mkSection "section-1" "introduction" "Introduction"
    "This is an introduction to the brand guidelines document. It covers basic concepts."
    1 1 5 None.

Definition testBrandColors : DocumentSection :=
  mkSection "section-2" "brand-colors" "Brand Colors"
    "Our brand uses specific colors including blue #3b82f6 and red #ef4444 for consistency."
    2 6 10 None.

Definition testTypography : DocumentSection :=
  mkSection "section-3" "typography" "Typography"
    "We use modern fonts like Inter and Roboto for all brand communications and marketing."
    2 11 15 None.

Definition testLogos : DocumentSection :=
  mkSection "section-4" "logos" "Logos"
    "Logo guidelines and usage examples for consistent branding."
    2 16 20 None.

Definition testSections : list DocumentSection :=
  [testIntroduction; testBrandColors; testTypography].

Definition tested : Search.SearchService :=
  fst (Search.initialize (host := demoHost) (Search.create parityService)
         testSections).

Definition testNewSections : list DocumentSection := testSections ++ [testLogos].




(** Three sections of which the second and the third are equally close to
    the query "brands" and the first is less close. *)
Definition colors : DocumentSection :=
  mkSection "section-0" "colors" "Colors" "red blue navy green white black"
            1 0 1 None.

Definition brandNames : DocumentSection :=
  mkSection "section-1" "brands" "Brands" "brands brands" 1 2 3 None.

Definition labels : DocumentSection :=
  mkSection "section-2" "labels" "Labels" "" 1 4 4 None.

(** The service after [initialize [colors; brandNames; labels]], with the
    vector strategy alone. *)
Definition palette : Search.SearchService :=
  Search.updateConfig
    (fst (Search.initialize (host := demoHost) (Search.create parityService)
            [colors; brandNames; labels]))
    (mkPartial None None None (Some false)).

(** A section indexed with a vector of three coordinates, under a service
    whose vectors have two. *)
Definition mismatched : Search.SearchService :=
  Search.mkService parityService
    [mkSection "section-0" "brands" "Brands" "brands brands" 1 0 1
               (Some [1%Q; 0%Q; 0%Q])]
    Search.defaultConfig.

(** [mismatched] with the vector strategy alone. *)
Definition mismatchedOnlyVector : Search.SearchService :=
  Search.updateConfig mismatched onlyVector.

(** [indexed] with the vector strategy alone. *)
Definition indexedOnlyVector : Search.SearchService :=
  Search.updateConfig indexed onlyVector.

Definition line (a b : string) : string := (a ++ Markdown.newline ++ b)%string.

(** A document of four lines with two headings, and its two sections. *)
Definition twoSections : string :=
  line "intro" (line "# A" (line "body" "## B")).

Definition sectionA : DocumentSection :=
  mkSection "section-0" "a" "A" "body" 1 1 2 None.

Definition sectionB : DocumentSection :=
  mkSection "section-1" "b" "B" "" 2 3 3 None.

(** A document with the line ends of DOS: a carriage return before each
    line feed. *)
Definition CR : string := String "013"%char EmptyString.

Definition dosDocument : string :=
  line ("# A" ++ CR) (line ("body" ++ CR) "").

(** A document in which two headings have one title. *)
Definition twoIntroductions : string :=
  line "# Intro" (line "first" (line "# Intro" "second")).

Definition firstIntroduction : DocumentSection :=
  mkSection "section-0" "intro" "Intro" "first" 1 0 1 None.

Definition secondIntroduction : DocumentSection :=
  mkSection "section-1" "intro" "Intro" "second" 1 2 3 None.

(** A document with front matter: the title holds a colon and is quoted,
    and the body has a line of the form of a tag. *)
Definition quote : string := String "034"%char EmptyString.

Definition withFrontMatter : string :=
  line "---" (line ("title: " ++ quote ++ "Brand: Check" ++ quote)
    (line "---" (line "# A" "note: kept out"))).

(** The table of contents of [sectionA; sectionB]. *)
Definition outlineAB : list Markdown.TocTree :=
  [Markdown.TocNode "section-0" "a" "A" 1
     [Markdown.TocNode "section-1" "b" "B" 2 []]].

(** What the suggestions route answers for "fo" over [brands; fonts]. *)
Definition suggestionsForFo : list Suggestions.Suggestion :=
  [Suggestions.mkSuggestion "Fonts" (Some "fonts") "section";
   Suggestions.mkSuggestion "fonts" None "keyword"].

(** [twoIntroductions] as the document service holds it once loaded. *)
Definition loadedIntroductions : option Documents.ParsedDocument :=
  Some (Documents.parse (host := demoHost) "overview" 0 34 twoIntroductions).

(** A document with a line before its first heading, and one that starts
    with its heading. *)
Definition withPreamble : string := line "intro" "# A".

Definition headingFirst : string := line "# A" "body".

Definition rebuild (text : string) : string :=
  Markdown.generateMarkdownFromSections
    (Markdown.extractSections (host := demoHost) text).

Definition ids_of (resp : SearchResponse) : list string :=
  map (fun r => id (section r)) (results resp).

End Examples.

(** ** Vocabulary of the statements *)

Definition prefix {A : Type} (p l : list A) : Prop := exists t, l = p ++ t.

Inductive subseq {A : Type} : list A -> list A -> Prop :=
| subseq_nil : subseq [] []
| subseq_skip : forall x s l, subseq s l -> subseq s (x :: l)
| subseq_take : forall x s l, subseq s l -> subseq (x :: s) (x :: l).

(** Descending order of the scores. *)
Definition descending (a b : SearchResult) : Prop := (score b <= score a)%Q.






(** An empty or whitespace-only string. *)
Definition blank (q : string) : Prop := JS.trim q = EmptyString.

Fixpoint allChars (p : ascii -> bool) (s : string) : bool :=
  match s with
  | EmptyString => true
  | String c s' => p c && allChars p s'
  end.

(** The words of a text: its maximal runs of characters other than
    whitespace, in their order.  Two texts with the same words differ in
    their whitespace only, and only in how long a run of it is between two
    words and at the two ends: they are the same text once every run of
    whitespace is made one space and the ends are trimmed.  [scanWords]
    yields the word that starts the text (the empty string when the text
    starts with whitespace) and the words after it. *)
Definition consWord (w : string) (ws : list string) : list string :=
  match w with
  | EmptyString => ws
  | _ => w :: ws
  end.

Fixpoint scanWords (s : string) : string * list string :=
  match s with
  | EmptyString => (EmptyString, [])
  | String c s' =>
      let '(w, ws) := scanWords s' in
      if JS.isWhiteSpace c then (EmptyString, consWord w ws) else (String c w, ws)
  end.

Definition words (s : string) : list string :=
  let '(w, ws) := scanWords s in consWord w ws.

(** The lines of a document from its first heading line on. *)
Fixpoint fromFirstHeading (lines : list string) : list string :=
  match lines with
  | [] => []
  | line :: rest =>
      match Markdown.headingMatch line with
      | Some _ => lines
      | None => fromFirstHeading rest
      end
  end.

(** The lines before the next heading line. *)
Fixpoint bodyLines (lines : list string) : list string :=
  match lines with
  | [] => []
  | line :: rest =>
      match Markdown.headingMatch line with
      | Some _ => []
      | None => line :: bodyLines rest
      end
  end.

(** A heading line of a document, with the number of its marks, its text,
    and the lines that follow it up to the next heading line. *)
Record Chunk : Type := mkChunk {
  chunkLine : string;
  chunkMarks : nat;
  chunkText : string;
  chunkBody : list string
}.

Fixpoint chunks (lines : list string) : list Chunk :=
  match lines with
  | [] => []
  | line :: rest =>
      match Markdown.headingMatch line with
      | Some (k, text) => mkChunk line k text (bodyLines rest) :: chunks rest
      | None => chunks rest
      end
  end.

(** The keyword score in the words of the scoring rule.  The occurrences of
    a term in a text are counted from the left: where the term stands it is
    counted once, and the count goes on behind it ([skip] is the number of
    characters of the text that the occurrence just counted still covers).
    The raw score of a section is the sum over the terms of three times the
    occurrences in the title plus the occurrences in the body, both in lower
    case. *)
Fixpoint occurrencesFrom (term text : string) (skip : nat) : nat :=
  match text with
  | EmptyString => 0
  | String _ rest =>
      match skip with
      | S k => occurrencesFrom term rest k
      | O =>
          if String.prefix term text
          then S (occurrencesFrom term rest (pred (String.length term)))
          else occurrencesFrom term rest 0
      end
  end.

Definition occurrences (term text : string) : nat := occurrencesFrom term text 0.

Definition termScore (s : DocumentSection) (term : string) : nat :=
  3 * occurrences term (JS.toLowerCase (title s))
  + 1 * occurrences term (JS.toLowerCase (content s)).

Definition rawScore (terms : list string) (s : DocumentSection) : nat :=
  list_sum (map (termScore s) terms).

(** Division by (termCount x 5), then the clamp to at most 1. *)
Definition reportedScore (raw termCount : nat) : Q :=
  Qmin (inject_Z (Z.of_nat raw) / (inject_Z (Z.of_nat termCount) * 5))%Q 1%Q.

(** A term without a character of the syntax of regular expressions. *)
Definition literalTerm (term : string) : Prop :=
  allChars (fun c => negb (Regex.isSyntaxChar c)) term = true.

(** A query term the keyword strategy takes as it is: longer than two
    characters, without whitespace and without a character of the syntax of
    regular expressions. *)
Definition plainChar (c : ascii) : bool :=
  negb (JS.isWhiteSpace c) && negb (Regex.isSyntaxChar c).

Definition plainTerm (term : string) : Prop :=
  2 < String.length term /\ allChars plainChar term = true.

(** [p] is a substring of [s]. *)
Definition occursIn (p s : string) : Prop :=
  exists a b, s = (a ++ p ++ b)%string.



(** The decimal numeral of an integer, as a caller writes a limit. *)
Definition numeral (n : Z) : string :=
  if (n <? 0)%Z then String "-"%char (JS.natToString (Z.to_nat (- n)))
  else JS.natToString (Z.to_nat n).

(** A query the search route lets through: not blank, and of at most 500
    characters. *)
Definition validQuery (text : string) : Prop :=
  JS.trim text <> EmptyString /\ String.length text <= 500.


(** [{ ...first, ...second }] on partial configurations: a field of
    [second] wins over the same field of [first]. *)
Definition later {A : Type} (first second : option A) : option A :=
  match second with
  | Some v => Some v
  | None => first
  end.

Definition overlay (first second : PartialSearchConfig) : PartialSearchConfig :=
  mkPartial (later (p_maxResults first) (p_maxResults second))
            (later (p_minScore first) (p_minScore second))
            (later (p_enableSemanticSearch first) (p_enableSemanticSearch second))
            (later (p_enableKeywordSearch first) (p_enableKeywordSearch second)).

(** The identifier of the [k]-th section of a document, counted from 0. *)
Definition sectionName (k : nat) : string := "section-" ++ JS.natToString k.

(** The heading lines among [lines], the first of which is line [i] of the
    document: the number of the line, the level of the heading and its
    title. *)
Fixpoint headings (lines : list string) (i : nat) : list (nat * nat * string) :=
  match lines with
  | [] => []
  | line :: rest =>
      match Markdown.headingMatch line with
      | Some (k, text) => (i, k, JS.trim text) :: headings rest (S i)
      | None => headings rest (S i)
      end
  end.

(** The sections of [l] follow each other without a gap, from line [first]
    to the line before [next]. *)
Fixpoint tiles (l : list DocumentSection) (first next : nat) : Prop :=
  match l with
  | [] => first = next
  | s :: l' =>
      startLine s = first /\ startLine s <= endLine s
      /\ tiles l' (S (endLine s)) next
  end.

(** The greatest index, counted from [i], of a level smaller than [lv]. *)
Fixpoint lastBelow (levels : list nat) (i : nat) (lv : nat) : option nat :=
  match levels with
  | [] => None
  | x :: rest =>
      match lastBelow rest (S i) lv with
      | Some j => Some j
      | None => if x <? lv then Some i else None
      end
  end.

(** The parent of the [c]-th section in the outline of a document: the
    nearest section before it whose level is smaller; [None] when there is
    none. *)
Definition parentOf (levels : list nat) (c : nat) : option nat :=
  lastBelow (firstn c levels) 0 (nth c levels 0).

Definition sameParent (a b : option nat) : bool :=
  match a, b with
  | Some x, Some y => x =? y
  | None, None => true
  | _, _ => false
  end.

(** The sections whose parent is [p], in the order of the document. *)
Definition childrenOf (levels : list nat) (p : option nat) : list nat :=
  filter (fun c => sameParent (parentOf levels c) p) (seq 0 (List.length levels)).

Definition treeLevel (t : Markdown.TocTree) : nat :=
  match t with
  | Markdown.TocNode _ _ _ lv _ => lv
  end.

(** Every item of the tree lies deeper than the item it hangs from. *)
Fixpoint nested (t : Markdown.TocTree) : Prop :=
  match t with
  | Markdown.TocNode _ _ _ lv children =>
      (fix each (l : list Markdown.TocTree) : Prop :=
         match l with
         | [] => True
         | child :: l' => lv < treeLevel child /\ nested child /\ each l'
         end) children
  end.

(** No character of the line is a line feed. *)
Definition oneLine (s : string) : Prop :=
  allChars (fun c => negb (Ascii.eqb c Markdown.LF)) s = true.

(** The document made of the lines [lines]. *)
Definition document (lines : list string) : string :=
  JS.join Markdown.newline lines.

(** The items of a tree, each before its children. *)
Fixpoint treeItems (t : Markdown.TocTree) : list (string * string * string * nat) :=
  match t with
  | Markdown.TocNode a b c lv children => (a, b, c, lv) :: flat_map treeItems children
  end.

(** What an item of the table of contents shows of a section. *)
Definition itemOf (s : DocumentSection) : string * string * string * nat :=
  (id s, slug s, title s, level s).

(** The outline of a document under its [i]-th section: the item of the
    section, with the outlines under the sections that have it as parent. *)
#[warnings="-register-all"]
Inductive outlineOf (l : list DocumentSection) : nat -> Markdown.TocTree -> Prop :=
| outline_node (i : nat) (s : DocumentSection) (under : list Markdown.TocTree) :
    nth_error l i = Some s ->
    Forall2 (outlineOf l) (childrenOf (map level l) (Some i)) under ->
    outlineOf l i (Markdown.TocNode (id s) (slug s) (title s) (level s) under).

(** *** Auxiliary notions of the proofs *)

(** The stack of [extractTableOfContents], its top first: each item lies
    under the next one. *)
Fixpoint chain (levels : list nat) (stack : list nat) : Prop :=
  match stack with
  | [] => True
  | top :: below => parentOf levels top = hd_error below /\ chain levels below
  end.

(** The state of the loop of [extractTableOfContents] after the sections
    [l]. *)
Record TocInv (l : list DocumentSection) (st : Markdown.TocState) : Prop := mkTocInv {
  toc_length : List.length (Markdown.items st) = List.length l;
  toc_items :
    forall i s, nth_error l i = Some s ->
      nth_error (Markdown.items st) i
      = Some (Markdown.mkItem (id s) (slug s) (title s) (level s)
                (childrenOf (map level l) (Some i)));
  toc_top : Markdown.toc st = childrenOf (map level l) None;
  toc_chain : chain (map level l) (Markdown.stack st);
  toc_last :
    match Markdown.stack st with
    | [] => l = []
    | top :: _ => S top = List.length l
    end
}.





(** The results pushed for a list of sections, in the order of the sections. *)
Definition ofSections (found : list SearchResult) (l : list DocumentSection) : Prop :=
  subseq (map section found) l.

(** The words of a section as [generateMarkdownFromSections] writes it. *)
Definition sectionWords (s : DocumentSection) : list string :=
  words (JS.repeat "#" (level s)) ++ words (title s) ++ words (content s).

(** The words of the open section and of the lines gathered for it. *)
Definition pendingWords (st : Markdown.LoopState) : list string :=
  match Markdown.currentSection st with
  | Some o => words (JS.repeat "#" (Markdown.o_level o))
              ++ words (Markdown.o_title o)
              ++ flat_map words (Markdown.sectionContent st)
  | None => []
  end.

(** Level, title and body of a section. *)
Definition coreOf (s : DocumentSection) : nat * string * string :=
  (level s, title s, content s).

(** Level, title and body of the section a chunk becomes. *)
Definition coreOfChunk (c : Chunk) : nat * string * string :=
  (chunkMarks c, JS.trim (chunkText c),
   JS.trim (JS.join Markdown.newline (chunkBody c))).

(** The open section, closed after the lines [rest]. *)
Definition pendingCore (st : Markdown.LoopState) (rest : list string)
  : list (nat * string * string) :=
  match Markdown.currentSection st with
  | Some o => [(Markdown.o_level o, Markdown.o_title o,
                JS.trim (JS.join Markdown.newline (Markdown.sectionContent st ++ rest)))]
  | None => []
  end.

(** The items of a pattern without syntax characters. *)
Definition literal (p : string) : list Regex.item :=
  map Regex.Chr (list_ascii_of_string p).

(** The characters a pattern of [Regex.item]s consumes. *)
Fixpoint textOf (items : list Regex.item) : string :=
  match items with
  | [] => EmptyString
  | Regex.Chr c :: items' => String c (textOf items')
  | _ :: items' => textOf items'
  end.

(** The three sums of [cosineSimilarity], from given starting values. *)
Definition sums (a b : list Q) (start : Q * Q * Q) : Q * Q * Q :=
  fold_left (fun '(d, na, nb) '(x, y) => (d + x * y, na + x * x, nb + y * y)%Q)
            (combine a b) start.

(** The sections tile the lines up to [next], wherever they start. *)
Definition tilesTo (l : list DocumentSection) (next : nat) : Prop :=
  match l with
  | [] => True
  | s :: _ => tiles l (startLine s) next
  end.

(** What a section shows of the heading that opened it. *)
Definition headOf (s : DocumentSection) : nat * nat * string :=
  (startLine s, level s, title s).

Definition heads (st : Markdown.LoopState) : list (nat * nat * string) :=
  map headOf (Markdown.sections st)
  ++ match Markdown.currentSection st with
     | Some o => [(Markdown.o_startLine o, Markdown.o_level o, Markdown.o_title o)]
     | None => []
     end.

(** The fields of a section that the loop of [extractSections] sets once
    and for all. *)
Definition shaped {host : Host} (s : DocumentSection) : Prop :=
  1 <= level s <= 6
  /\ JS.trim (title s) = title s
  /\ JS.trim (content s) = content s
  /\ slug s = slugify (title s)
  /\ embedding s = None.

(** The state of the loop of [extractSections] before line [i]. *)
Record LoopInv {host : Host} (i : nat) (st : Markdown.LoopState) : Prop := mkLoopInv {
  inv_names :
    map id (Markdown.sections st)
    = map sectionName (seq 0 (List.length (Markdown.sections st)));
  inv_shaped : Forall shaped (Markdown.sections st);
  inv_current :
    match Markdown.currentSection st with
    | Some o =>
        Markdown.o_id o = sectionName (List.length (Markdown.sections st))
        /\ Markdown.sectionIndex st = S (List.length (Markdown.sections st))
        /\ Markdown.o_startLine o < i
        /\ tilesTo (Markdown.sections st) (Markdown.o_startLine o)
        /\ 1 <= Markdown.o_level o <= 6
        /\ JS.trim (Markdown.o_title o) = Markdown.o_title o
        /\ Markdown.o_slug o = slugify (Markdown.o_title o)
    | None => Markdown.sections st = [] /\ Markdown.sectionIndex st = 0
    end
}.

(** [parent.children.push(child)] on the item itself. *)
Definition addChild (child : nat) (p : Markdown.TocItem) : Markdown.TocItem :=
  Markdown.mkItem (Markdown.item_id p) (Markdown.item_slug p) (Markdown.item_title p)
                  (Markdown.item_level p) (Markdown.item_children p ++ [child]).

(** The first reference that is greater than all those of the stack. *)
Definition boundOf (stack : list nat) : nat :=
  match stack with
  | [] => 0
  | top :: _ => S top
  end.

(** The order of [array.sort()] on strings. *)
Definition ascending (a b : string) : Prop := String.leb a b = true.

(** The number of levels at the head of [rest] that are greater than [b]. *)
Fixpoint deeperRun (b : nat) (rest : list nat) : nat :=
  match rest with
  | [] => 0
  | x :: rest' => if b <? x then S (deeperRun b rest') else 0
  end.

(** The sections under the parent [q] are those from [startOf q] to the one
    before [endOf levels q]. *)
Definition startOf (q : option nat) : nat :=
  match q with
  | Some i => S i
  | None => 0
  end.

Definition endOf (levels : list nat) (q : option nat) : nat :=
  match q with
  | Some i => S i + deeperRun (nth i levels 0) (skipn (S i) levels)
  | None => List.length levels
  end.

(** The elements of a list from index [a] to the one before [b]. *)
Definition sub {A : Type} (l : list A) (a b : nat) : list A :=
  firstn (b - a) (skipn a l).

(** The sections [cs] and what lies under them cover [a .. b - 1], one
    after the other. *)
Fixpoint tilesFrom (levels : list nat) (a : nat) (cs : list nat) (b : nat) : Prop :=
  match cs with
  | [] => a = b
  | c :: cs' =>
      c = a /\ a < endOf levels (Some c) <= b
      /\ tilesFrom levels (endOf levels (Some c)) cs' b
  end.

(** The parent [q] is a section, or stands for the top of the outline. *)
Definition known (levels : list nat) (q : option nat) : Prop :=
  match q with
  | Some i => i < List.length levels
  | None => True
  end.

(** The sections from [a] to the one before [b] that have the parent [q]. *)
Definition under (levels : list nat) (q : option nat) (a b : nat) : list nat :=
  filter (fun c => sameParent (parentOf levels c) q) (seq a (b - a)).

(** Case analysis on the eight bits of a character. *)
Ltac each_char c :=
  destruct c as [[] [] [] [] [] [] [] []]; try discriminate; try reflexivity.


(** No character of the string is the separator. *)
Definition without (sep : ascii) (s : string) : Prop :=
  allChars (fun c => negb (Ascii.eqb c sep)) s = true.

(** * Properties *)

(** ** The primitives on concrete values *)

Example splitWhitespace_edges :
  JS.splitWhitespace " a  b " = [""; "a"; "b"; ""]
  /\ JS.splitWhitespace "" = [""]
  /\ JS.split "," "a,b," = ["a"; "b"; ""].
Proof. repeat split. Qed.

Example trim_both_ends : JS.trim "  a b  " = "a b".
Proof. reflexivity. Qed.

Example parseInt_reads_a_prefix :
  JS.parseInt " -12abc" = Some (-12)%Z
  /\ JS.parseInt "100.9" = Some 100%Z
  /\ JS.parseInt "abc" = None
  /\ JS.parseInt "" = None.
Proof. repeat split. Qed.

Example headingMatch_cases :
  Markdown.headingMatch "##  Title here " = Some (2, "Title here ")
  /\ Markdown.headingMatch "#  " = Some (1, " ")
  /\ Markdown.headingMatch "# " = None
  /\ Markdown.headingMatch "####### x" = None
  /\ Markdown.headingMatch "#x" = None.
Proof. repeat split. Qed.

Example queryTerms_short_terms_dropped :
  Search.queryTerms "Brand  colors of x" = ["brand"; "colors"].
Proof. reflexivity. Qed.

Example scan_cases :
  Regex.scan "c++" 0 Regex.AtStart = Regex.IllFormed
  /\ Regex.scan "(((" 0 Regex.AtStart = Regex.IllFormed
  /\ Regex.scan "\bc+?\b" 0 Regex.AtStart = Regex.WellFormed
  /\ Regex.scan "a{2}" 0 Regex.AtStart = Regex.NotChecked.
Proof. repeat split. Qed.

Example matchAll_cases :
  Regex.simpleMatcher true [Regex.WordB; Regex.Chr "a"; Regex.Chr "b"; Regex.WordB]
                      "ab AB, xab ab" = ["ab"; "AB"; "ab"]
  /\ Regex.simpleMatcher false [Regex.Chr "a"; Regex.Chr "a"] "aaaaa" = ["aa"; "aa"].
Proof. repeat split. Qed.

(** ** Lists: prefixes and subsequences *)

#[local] Hint Constructors subseq : core.


Lemma prefix_firstn {A : Type} (n : nat) (l : list A) : prefix (firstn n l) l.
Proof. exists (skipn n l). symmetry. apply firstn_skipn. Qed.


Lemma prefix_In {A : Type} (p l : list A) (x : A) : prefix p l -> In x p -> In x l.
Proof. intros [t ->] H. apply in_or_app. now left. Qed.




Lemma subseq_app {A : Type} (s1 l1 s2 l2 : list A) :
  subseq s1 l1 -> subseq s2 l2 -> subseq (s1 ++ s2) (l1 ++ l2).
Proof. induction 1; simpl; auto. Qed.





(** ** The error monad and its loops *)

Lemma bind_Ok {A B : Type} (m : result A) (k : A -> result B) (b : B) :
  bind m k = Ok b -> exists a, m = Ok a /\ k a = Ok b.
Proof. destruct m as [a|e]; simpl; intros H; [eauto | discriminate]. Qed.

(** A loop whose body only ever pushes onto its array. *)
Lemma for_each_pushes {A B : Type} (body : list B -> A -> result (list B))
  (R : list B -> list A -> Prop) :
  R [] [] ->
  (forall e1 l1 e2 l2, R e1 l1 -> R e2 l2 -> R (e1 ++ e2) (l1 ++ l2)) ->
  (forall acc x acc', body acc x = Ok acc' -> exists e, acc' = acc ++ e /\ R e [x]) ->
  forall l acc res, for_each body l acc = Ok res -> exists e, res = acc ++ e /\ R e l.
Proof.
  intros Hnil Happ Hbody l. induction l as [|x l IH]; simpl; intros acc res H.
  - inversion H; subst. exists []. now rewrite app_nil_r.
  - apply bind_Ok in H as (acc' & Hx & Hrest).
    apply Hbody in Hx as (e1 & -> & He1).
    apply IH in Hrest as (e2 & -> & He2).
    exists (e1 ++ e2). split; [now rewrite app_assoc|].
    change (x :: l) with ([x] ++ l). now apply Happ.
Qed.

(** ** Sorting by score and slicing *)

Module SortFacts.
Import Search.

Lemma insertByScore_perm x l : Permutation (x :: l) (insertByScore x l).
Proof.
  induction l as [|y l IH]; simpl; auto.
  destruct (Qle_bool (score y) (score x)); auto.
  rewrite perm_swap. now constructor.
Qed.

Lemma sortByScore_perm l : Permutation l (sortByScore l).
Proof.
  induction l as [|x l IH]; simpl; auto.
  rewrite <- insertByScore_perm. now constructor.
Qed.

Lemma sortByScore_length l : List.length (sortByScore l) = List.length l.
Proof. symmetry. apply Permutation_length, sortByScore_perm. Qed.

Lemma sortByScore_In l r : In r (sortByScore l) <-> In r l.
Proof.
  split; apply Permutation_in; [symmetry|]; apply sortByScore_perm.
Qed.

Lemma insertByScore_sorted x l :
  StronglySorted descending l -> StronglySorted descending (insertByScore x l).
Proof.
  induction 1 as [|y l Hl IH Hy]; simpl.
  - repeat constructor.
  - destruct (Qle_bool (score y) (score x)) eqn:E.
    + apply Qle_bool_iff in E. constructor; [now constructor|].
      constructor; [exact E|].
      rewrite Forall_forall in *. intros z Hz. unfold descending in *.
      eapply Qle_trans; [apply Hy, Hz | exact E].
    + constructor; auto.
      rewrite Forall_forall in *. intros z Hz.
      apply (Permutation_in _ (Permutation_sym (insertByScore_perm x l))) in Hz.
      destruct Hz as [<-|Hz]; auto.
      unfold descending. apply Qlt_le_weak, Qnot_le_lt.
      intros Hle. apply Qle_bool_iff in Hle. congruence.
Qed.

Lemma sortByScore_sorted l : StronglySorted descending (sortByScore l).
Proof.
  induction l as [|x l IH]; simpl; [constructor | now apply insertByScore_sorted].
Qed.

Lemma sortByScore_sorted_id l : StronglySorted descending l -> sortByScore l = l.
Proof.
  induction 1 as [|x l Hl IH Hx]; simpl; auto.
  rewrite IH. destruct l as [|y l]; simpl; auto.
  inversion Hx as [|? ? Hy _]; subst. unfold descending in Hy.
  apply Qle_bool_iff in Hy. now rewrite Hy.
Qed.



Lemma slice0_prefix {A : Type} (l : list A) (n : Z) : prefix (JS.slice0 l n) l.
Proof. unfold JS.slice0. destruct (n <? 0)%Z; apply prefix_firstn. Qed.

Lemma slice0_length {A : Type} (l : list A) (n : Z) :
  (0 <= n)%Z -> List.length (JS.slice0 l n) <= Z.to_nat n.
Proof.
  intros Hn. unfold JS.slice0. destruct (Z.ltb_spec n 0); [lia|].
  apply firstn_le_length.
Qed.

Lemma slice0_nonempty {A : Type} (l : list A) (n : Z) :
  (1 <= n)%Z -> l <> [] -> 1 <= List.length (JS.slice0 l n).
Proof.
  intros Hn Hl. unfold JS.slice0. destruct (Z.ltb_spec n 0); [lia|].
  destruct l as [|x l]; [congruence|].
  destruct (Z.to_nat n) eqn:E; [lia|]. simpl. lia.
Qed.

Lemma prefix_sorted (p l : list SearchResult) :
  prefix p l -> StronglySorted descending l -> StronglySorted descending p.
Proof.
  intros [t ->]. revert t. induction p as [|x p IH]; intros t H; [constructor|].
  simpl in H. inversion H as [|? ? Hs Hx]; subst. constructor; eauto.
  rewrite Forall_app in Hx. tauto.
Qed.

End SortFacts.

(** ** The insertion-ordered map of [mergeResults] *)

Module MergeFacts.
Import Search.

Lemma existsb_eqb_In k l : existsb (String.eqb k) l = true <-> In k l.
Proof.
  rewrite existsb_exists. split.
  - intros (x & Hx & E). apply String.eqb_eq in E. now subst.
  - intros H. exists k. split; auto. apply String.eqb_refl.
Qed.


















End MergeFacts.

(** ** The candidate lists of the two strategies *)

Module CandidateFacts.
Import Search SortFacts.

Section WithHost.
Context {host : Host}.

Lemma ofSections_app e1 l1 e2 l2 :
  ofSections e1 l1 -> ofSections e2 l2 -> ofSections (e1 ++ e2) (l1 ++ l2).
Proof. unfold ofSections. rewrite map_app. apply subseq_app. Qed.

Lemma semanticStep_pushes st q qe acc s acc' :
  semanticStep st q qe acc s = Ok acc' ->
  exists e, acc' = acc ++ e /\ ofSections e [s].
Proof.
  unfold semanticStep, ofSections. intros H.
  assert (Same : exists e, acc = acc ++ e /\ subseq (map section e) [s]).
  { exists []. rewrite app_nil_r. simpl. auto. }
  destruct (embedding s) as [e|]; [|inversion H; subst; exact Same].
  apply bind_Ok in H as (sim & _ & H).
  destruct (Qle_bool _ sim); [|inversion H; subst; exact Same].
  apply bind_Ok in H as (m & _ & H). inversion H; subst.
  eexists. split; [reflexivity|]. simpl. auto.
Qed.

Lemma keywordStep_pushes q terms acc s acc' :
  keywordStep q terms acc s = Ok acc' ->
  exists e, acc' = acc ++ e /\ ofSections e [s].
Proof.
  unfold keywordStep, ofSections. intros H.
  apply bind_Ok in H as ([total matched] & _ & H).
  destruct (0 <? total).
  - apply bind_Ok in H as (m & _ & H). inversion H; subst.
    eexists. split; [reflexivity|]. simpl. auto.
  - inversion H; subst. exists []. rewrite app_nil_r. simpl. auto.
Qed.



Lemma keywordSearch_candidates st q n kw :
  keywordSearch st q n = Ok kw ->
  exists found,
    for_each (keywordStep q (queryTerms q)) (sections st) [] = Ok found
    /\ ofSections found (sections st)
    /\ kw = PromiseOf (JS.slice0 (sortByScore found) n).
Proof.
  unfold keywordSearch. intros H. apply bind_Ok in H as (found & Hf & H).
  inversion H; subst. exists found. split; [exact Hf|]. split; [|reflexivity].
  apply (for_each_pushes _ ofSections) in Hf as (e & -> & He); auto.
  - unfold ofSections. simpl. constructor.
  - apply ofSections_app.
  - apply keywordStep_pushes.
Qed.

Lemma semanticTry_candidates st q n sem :
  semanticTry st q n = Ok sem ->
  exists found, ofSections found (sections st)
                /\ sem = JS.slice0 (sortByScore found) n.
Proof.
  unfold semanticTry. intros H. apply bind_Ok in H as (qe & _ & H).
  apply bind_Ok in H as (found & Hf & H). inversion H; subst.
  exists found. split; [|reflexivity].
  apply (for_each_pushes _ ofSections) in Hf as (e & -> & He); auto.
  - unfold ofSections. simpl. constructor.
  - apply ofSections_app.
  - apply semanticStep_pushes.
Qed.



End WithHost.

End CandidateFacts.

(** ** Merge of the two strategies *)

Section Merge.
Import Search SortFacts MergeFacts CandidateFacts.
Context {host : Host}.


End Merge.


(** ** Strings *)

Module StringFacts.

Lemma lowerChar_whitespace c : JS.isWhiteSpace c = true -> JS.lowerChar c = c.
Proof. each_char c. Qed.

Lemma lowerChar_not_whitespace c :
  JS.isWhiteSpace c = false -> JS.isWhiteSpace (JS.lowerChar c) = false.
Proof. each_char c. Qed.

Lemma lowerChar_not_syntax c :
  Regex.isSyntaxChar c = false -> Regex.isSyntaxChar (JS.lowerChar c) = false.
Proof. each_char c. Qed.

Lemma toLowerCase_length s : String.length (JS.toLowerCase s) = String.length s.
Proof. induction s; simpl; auto. Qed.

Lemma trimEnd_head c s : JS.isWhiteSpace c = false -> JS.trimEnd (String c s) <> EmptyString.
Proof.
  intros H. simpl. destruct (JS.trimEnd s); [rewrite H|]; discriminate.
Qed.

Lemma trimStart_whitespace s :
  JS.trimStart s = EmptyString <-> allChars JS.isWhiteSpace s = true.
Proof.
  induction s as [|c s IH]; simpl; [tauto|].
  destruct (JS.isWhiteSpace c); simpl; [exact IH|].
  split; discriminate.
Qed.

Lemma trimStart_shape s :
  JS.trimStart s = EmptyString
  \/ exists c t, JS.trimStart s = String c t /\ JS.isWhiteSpace c = false.
Proof.
  induction s as [|c s IH]; simpl; auto.
  destruct (JS.isWhiteSpace c) eqn:E; auto. right. eauto.
Qed.

Lemma blank_whitespace q : blank q <-> allChars JS.isWhiteSpace q = true.
Proof.
  unfold blank, JS.trim. rewrite <- trimStart_whitespace. split.
  - intros H. destruct (trimStart_shape q) as [E|(c & t & E & Hc)]; auto.
    rewrite E in H. now apply trimEnd_head in H.
  - intros ->. reflexivity.
Qed.

Lemma splitWs_whitespace s b :
  allChars JS.isWhiteSpace s = true ->
  Forall (fun piece => piece = EmptyString) (JS.splitWs b (JS.toLowerCase s)).
Proof.
  revert b. induction s as [|c s IH]; simpl; intros b H.
  - repeat constructor.
  - apply andb_true_iff in H as [Hc Hs].
    rewrite (lowerChar_whitespace _ Hc), Hc.
    destruct b; [|constructor]; auto.
Qed.

Lemma queryTerms_blank q : blank q -> Search.queryTerms q = [].
Proof.
  intros H. apply blank_whitespace in H. unfold Search.queryTerms, JS.splitWhitespace.
  pose proof (splitWs_whitespace q false H) as F.
  induction F as [|x l -> _ IH]; simpl; auto.
Qed.

End StringFacts.

(** ** Empty and whitespace-only queries *)

Section BlankQuery.
Import Search SortFacts MergeFacts.
Context {host : Host}.

Lemma keywordSearch_no_terms st q n :
  queryTerms q = [] -> keywordSearch st q n = Ok (PromiseOf []).
Proof.
  intros E. unfold keywordSearch. rewrite E.
  assert (L : forall l acc, for_each (keywordStep q []) l acc = Ok acc).
  { induction l as [|s l IH]; intros acc; simpl; auto. }
  rewrite L. simpl. unfold JS.slice0.
  destruct (n <? 0)%Z; now rewrite firstn_nil.
Qed.

(** C2, as the code has it. For every empty or whitespace-only query the
    keyword strategy raises no error and has no candidate.  With the keyword
    strategy disabled [search] raises no error and every result comes from
    the vector strategy, so the answer is [{results: [], totalResults: 0}]
    whenever the vector strategy is disabled, the embedding service is not
    ready, or no section reaches [minScore] against the vector of the
    query.  The search route does not pass such a query on: it throws a
    [ValidationError]. *)
Theorem C2_blank_query_keyword_free
  (st : SearchService) (q : string) (requested : option Z) :
  blank q ->
  keywordSearch st q (effectiveLimit st requested) = Ok (PromiseOf [])
  /\ (forall limit, exists reason,
        Routes.searchHandler st (Routes.Text q) limit
        = Throw (ValidationError reason))
  /\ (enableKeywordSearch (config st) = false ->
      exists resp,
        search st q requested = Ok resp
        /\ query resp = q
        /\ totalResults resp = List.length (results resp)
        /\ (forall r, In r (results resp) ->
              enableSemanticSearch (config st) = true
              /\ In r (semanticSearch st q (effectiveLimit st requested)))
        /\ (enableSemanticSearch (config st) = false
            \/ isReady (embeddingService st) = false
            \/ semanticSearch st q (effectiveLimit st requested) = [] ->
            results resp = [] /\ totalResults resp = 0)).
Proof.
  intros Hq. pose proof Hq as Hblank. apply StringFacts.queryTerms_blank in Hq.
  split; [now apply keywordSearch_no_terms|]. split.
  { intros limit. unfold Routes.searchHandler. destruct q as [|c q]; eauto.
    unfold blank in Hblank. rewrite Hblank. simpl. eauto. }
  intros Hk. unfold search. rewrite Hk. cbn [bind].
  set (limit := effectiveLimit st requested).
  set (sem := if enableSemanticSearch (config st) then semanticSearch st q limit else []).
  assert (Hres : forall r, In r (JS.slice0 (sortByScore sem) limit) -> In r sem).
  { intros r H. apply (prefix_In _ _ _ (slice0_prefix _ _)) in H.
    now apply (proj1 (sortByScore_In _ _)) in H. }
  assert (Hnone : enableSemanticSearch (config st) = false
                  \/ isReady (embeddingService st) = false
                  \/ semanticSearch st q limit = [] ->
                  JS.slice0 (sortByScore sem) limit = []).
  { intros H. assert (E : sem = []).
    { unfold sem. destruct H as [->|[H|H]]; auto;
        destruct (enableSemanticSearch (config st)); auto.
      unfold semanticSearch. now rewrite H. }
    rewrite E. simpl. unfold JS.slice0.
    destruct (limit <? 0)%Z; now rewrite firstn_nil. }
  eexists. split; [reflexivity|]. cbn [query totalResults results].
  repeat split.
  - apply Hres in H. unfold sem in H.
    destruct (enableSemanticSearch (config st)); [reflexivity | destruct H].
  - apply Hres in H. unfold sem in H.
    destruct (enableSemanticSearch (config st)); [exact H | destruct H].
  - now apply Hnone.
  - now rewrite Hnone.
Qed.

End BlankQuery.

Lemma C2_blank_query_witness :
  exists resp,
    Search.search (host := Examples.demoHost) Examples.indexedOnlyVector "  " None
    = Ok resp
    /\ results resp = [].
Proof.
  destruct (proj2 (proj2 (C2_blank_query_keyword_free (host := Examples.demoHost)
                     Examples.indexedOnlyVector "  " None eq_refl)) eq_refl)
    as (resp & E & _ & _ & _ & Z).
  exists resp. split; [exact E|].
  apply Z. right. right. reflexivity.
Defined.

(** C2 as stated fails: with [minScore] lowered to 0 by [updateConfig] (and
    the keyword strategy disabled), the empty query is answered with every
    indexed section, at score 0; and the search route answers the empty
    query and the query of two spaces with an error. *)
Lemma C2_blank_query_counterexample :
  JS.trim "" = ""
  /\ (exists resp,
        Search.search (host := Examples.demoHost)
          (Search.updateConfig Examples.indexed Examples.onlyVectorNoThreshold) "" None
        = Ok resp
        /\ totalResults resp = 2
        /\ Examples.ids_of resp = ["section-0"; "section-1"])
  /\ Routes.searchHandler (host := Examples.demoHost) Examples.indexed
       (Routes.Text "") Routes.Absent
     = Throw (ValidationError QueryRequired)
  /\ Routes.searchHandler (host := Examples.demoHost) Examples.indexed
       (Routes.Text "  ") Routes.Absent
     = Throw (ValidationError QueryEmpty).
Proof.
  split; [reflexivity|]. split; [eexists; repeat split|]. split; reflexivity.
Qed.

(** ** Vectors of different dimensions *)

Section DimensionMismatch.
Import Search.
Context {host : Host}.

Lemma cosineSimilarity_mismatch a b :
  List.length a <> List.length b ->
  cosineSimilarity a b = Throw (DimensionError "Vector dimensions must match").
Proof.
  intros H. unfold cosineSimilarity.
  destruct (Nat.eqb_spec (List.length a) (List.length b)); [contradiction | reflexivity].
Qed.

(** A loop stops with an exception at the latest at the element on which its
    body throws whatever has been accumulated. *)
Lemma for_each_throws {A S : Type} (body : S -> A -> result S) (l : list A) (x : A) :
  In x l -> (forall acc, exists e, body acc x = Throw e) ->
  forall acc, exists e, for_each body l acc = Throw e.
Proof.
  intros Hin Hx. induction l as [|y l IH]; [destruct Hin|]. intros acc. simpl.
  destruct (body acc y) as [acc'|e] eqn:E; simpl; [|eauto].
  destruct Hin as [->|Hin]; [|auto].
  destruct (Hx acc) as (e & He). congruence.
Qed.

Lemma semanticSearch_mismatch st q limit queryEmbedding s e :
  generateEmbedding (embeddingService st) q = Ok queryEmbedding ->
  In s (sections st) -> embedding s = Some e ->
  List.length queryEmbedding <> List.length e ->
  semanticSearch st q limit = [].
Proof.
  intros Hq Hs He Hlen. unfold semanticSearch.
  destruct (negb (isReady (embeddingService st))); auto.
  unfold semanticTry. rewrite Hq. simpl bind.
  destruct (for_each_throws (semanticStep st q queryEmbedding) (sections st) s Hs) with (acc := @nil SearchResult)
    as (err & ->); auto.
  intros acc. unfold semanticStep. rewrite He.
  rewrite cosineSimilarity_mismatch by auto. simpl. eauto.
Qed.

(** C3, as the code has it. When the vector of the query and the vector of
    an indexed section differ in dimension, [cosineSimilarity] throws
    "Vector dimensions must match"; [semanticSearch] catches the exception
    and returns no candidate, so that [search] answers exactly as it does
    with the vector strategy switched off. *)
Theorem C3_dimension_mismatch_is_caught
  (st : SearchService) (q : string) (requested : option Z)
  (queryEmbedding : list Q) (s : DocumentSection) (e : list Q) :
  generateEmbedding (embeddingService st) q = Ok queryEmbedding ->
  In s (sections st) -> embedding s = Some e ->
  List.length queryEmbedding <> List.length e ->
  cosineSimilarity queryEmbedding e
  = Throw (DimensionError "Vector dimensions must match")
  /\ semanticSearch st q (effectiveLimit st requested) = []
  /\ search st q requested
     = search (updateConfig st (mkPartial None None (Some false) None)) q requested.
Proof.
  intros Hq Hs He Hlen. split; [now apply cosineSimilarity_mismatch|].
  pose proof (semanticSearch_mismatch st q (effectiveLimit st requested) _ _ _ Hq Hs He Hlen)
    as Hsem.
  split; [exact Hsem|].
  unfold search. rewrite Hsem. simpl.
  now destruct (enableSemanticSearch (config st)), (enableKeywordSearch (config st)).
Qed.

End DimensionMismatch.

Lemma C3_dimension_mismatch_witness :
  Search.semanticSearch (host := Examples.demoHost) Examples.mismatched "brand" 10 = [].
Proof.
  refine (proj1 (proj2 (C3_dimension_mismatch_is_caught (host := Examples.demoHost)
            Examples.mismatched "brand" None [0%Q; 1%Q]
            (mkSection "section-0" "brands" "Brands" "brands brands" 1 0 1
                       (Some [1%Q; 0%Q; 0%Q]))
            [1%Q; 0%Q; 0%Q] _ _ _ _))).
  - reflexivity.
  - simpl. left. reflexivity.
  - reflexivity.
  - simpl. discriminate.
Defined.

(** C3 as stated fails: the section is indexed with three coordinates, the
    query is embedded with two, and [search], here with the vector strategy
    alone, returns an empty list of results instead of raising. *)
Lemma C3_dimension_mismatch_counterexample :
  generateEmbedding (Search.embeddingService Examples.mismatchedOnlyVector) "brand"
  = Ok [0%Q; 1%Q]
  /\ map embedding (Search.sections Examples.mismatchedOnlyVector)
     = [Some [1%Q; 0%Q; 0%Q]]
  /\ Search.search (host := Examples.demoHost) Examples.mismatchedOnlyVector
       "brand" None
     = Ok (mkResponse "brand" [] 0).
Proof. repeat split. Qed.

(** ** Sections of a document *)

Module MarkdownFacts.
Import Markdown.

Lemma append_nil_r s : (s ++ "")%string = s.
Proof. induction s; simpl; congruence. Qed.

Lemma leading_marks s :
  s = (JS.repeat "#" (countLeading (Ascii.eqb "#") s)
       ++ JS.drop (countLeading (Ascii.eqb "#") s) s)%string.
Proof.
  induction s as [|c s IH]; auto.
  change (countLeading (Ascii.eqb "#") (String c s))
    with (if Ascii.eqb "#" c then S (countLeading (Ascii.eqb "#") s) else 0).
  destruct (Ascii.eqb_spec "#"%char c) as [E|N].
  - rewrite <- E. simpl. f_equal. exact IH.
  - reflexivity.
Qed.

Lemma lastChar_leading p s c :
  JS.drop (countLeading p s) s = EmptyString -> lastChar s = Some c -> p c = true.
Proof.
  induction s as [|d s IH]; [discriminate|]. simpl.
  destruct (p d) eqn:E; simpl; [|discriminate].
  destruct s as [|d' s]; intros H1 H2.
  - now inversion H2; subst.
  - now apply IH.
Qed.

(** *** Words *)

Lemma consWord_app w ws l : consWord w (ws ++ l) = consWord w ws ++ l.
Proof. now destruct w. Qed.

Lemma words_cons c s :
  JS.isWhiteSpace c = true -> words (String c s) = words s.
Proof.
  intros H. unfold words. cbn [scanWords].
  destruct (scanWords s) as [w ws]. now rewrite H.
Qed.

(** Whitespace between two texts keeps their words apart. *)
Lemma scanWords_app a c b :
  JS.isWhiteSpace c = true ->
  scanWords (a ++ String c b)
  = let '(w, ws) := scanWords a in (w, ws ++ words b).
Proof.
  intros H. induction a as [|d a IH].
  - change (("" ++ String c b)%string) with (String c b).
    cbn [scanWords]. unfold words. destruct (scanWords b) as [w ws].
    now rewrite H.
  - change ((String d a ++ String c b)%string) with (String d (a ++ String c b)).
    cbn [scanWords]. rewrite IH. destruct (scanWords a) as [w ws].
    destruct (JS.isWhiteSpace d); [|reflexivity]. now rewrite consWord_app.
Qed.

Lemma words_app a c b :
  JS.isWhiteSpace c = true -> words (a ++ String c b) = words a ++ words b.
Proof.
  intros H. unfold words at 1 2. rewrite scanWords_app by exact H.
  destruct (scanWords a) as [w ws]. apply consWord_app.
Qed.

Lemma words_trimStart s : words (JS.trimStart s) = words s.
Proof.
  induction s as [|c s IH]; auto. cbn [JS.trimStart].
  destruct (JS.isWhiteSpace c) eqn:E; auto. now rewrite words_cons.
Qed.

Lemma scanWords_trimEnd s : scanWords (JS.trimEnd s) = scanWords s.
Proof.
  induction s as [|c s IH]; auto. cbn [JS.trimEnd scanWords].
  rewrite <- IH. destruct (JS.trimEnd s) as [|d t].
  - cbn [scanWords consWord]. destruct (JS.isWhiteSpace c) eqn:E; auto.
    cbn [scanWords]. now rewrite E.
  - reflexivity.
Qed.

Lemma words_trim s : words (JS.trim s) = words s.
Proof.
  unfold JS.trim. unfold words at 1. rewrite scanWords_trimEnd.
  apply words_trimStart.
Qed.

Lemma words_join l : words (JS.join newline l) = flat_map words l.
Proof.
  induction l as [|x l IH]; auto. destruct l as [|y l].
  - simpl. now rewrite app_nil_r.
  - change (JS.join newline (x :: y :: l))
      with ((x ++ String LF (JS.join newline (y :: l)))%string).
    rewrite words_app by reflexivity. now rewrite IH.
Qed.

Lemma words_join_blank l :
  words (JS.join (newline ++ newline) l) = flat_map words l.
Proof.
  induction l as [|x l IH]; auto. destruct l as [|y l].
  - simpl. now rewrite app_nil_r.
  - change (JS.join (newline ++ newline) (x :: y :: l))
      with ((x ++ String LF (String LF (JS.join (newline ++ newline) (y :: l))))%string).
    rewrite words_app, words_cons by reflexivity. now rewrite IH.
Qed.

Lemma words_drop_leading s :
  words (JS.drop (countLeading JS.isWhiteSpace s) s) = words s.
Proof.
  induction s as [|c s IH]; auto. cbn [countLeading].
  destruct (JS.isWhiteSpace c) eqn:E; [|reflexivity].
  cbn [JS.drop]. now rewrite words_cons.
Qed.

(** The words of a heading line: its marks, then the words of its text. *)
Lemma words_heading line k text :
  headingMatch line = Some (k, text) ->
  words line = words (JS.repeat "#" k) ++ words (JS.trim text).
Proof.
  unfold headingMatch.
  set (n := countLeading (Ascii.eqb "#") line).
  set (rest := JS.drop n line).
  destruct ((1 <=? n) && (n <=? 6)); [|discriminate]. cbn [andb].
  destruct (Nat.leb_spec 1 (countLeading JS.isWhiteSpace rest)) as [Hw|]; [|discriminate].
  assert (L : words line
              = words (JS.repeat "#" n)
                ++ words (JS.drop (countLeading JS.isWhiteSpace rest) rest)).
  { rewrite (leading_marks line) at 1. fold n. fold rest.
    rewrite words_drop_leading.
    destruct rest as [|c r]; [simpl in Hw; lia|].
    cbn [countLeading] in Hw. destruct (JS.isWhiteSpace c) eqn:E; [|lia].
    rewrite words_app by exact E. now rewrite words_cons. }
  rewrite words_trim.
  destruct (JS.drop (countLeading JS.isWhiteSpace rest) rest) as [|c t] eqn:T.
  - destruct (lastChar rest) as [c|] eqn:Lc; [|discriminate].
    destruct ((2 <=? _) && _); [|discriminate].
    intros H. inversion H; subst. rewrite L.
    now rewrite (words_cons c "" (lastChar_leading _ _ _ T Lc)).
  - destruct (anyChar _ _); [discriminate|].
    intros H. inversion H; subst. exact L.
Qed.

Lemma words_generate l :
  words (generateMarkdownFromSections l) = flat_map sectionWords l.
Proof.
  unfold generateMarkdownFromSections. rewrite words_join_blank.
  rewrite flat_map_concat_map, map_map, <- flat_map_concat_map.
  apply flat_map_ext. intros s. unfold headingLine, sectionWords.
  change ((newline ++ newline) ++ content s)%string
    with (String LF (String LF (content s))).
  rewrite words_app, words_cons by reflexivity.
  change (" " ++ title s)%string with (String " " (title s)).
  now rewrite words_app, <- app_assoc by reflexivity.
Qed.

Lemma words_pushCurrent st last :
  flat_map sectionWords (pushCurrent st last)
  = flat_map sectionWords (sections st) ++ pendingWords st.
Proof.
  unfold pushCurrent, pendingWords. destruct (currentSection st) as [o|].
  - rewrite flat_map_app. f_equal. cbn [flat_map]. rewrite app_nil_r.
    unfold sectionWords, closeSection. cbn [level title content].
    now rewrite words_trim, words_join.
  - now rewrite app_nil_r.
Qed.

Lemma chunks_from lines :
  fromFirstHeading lines
  = flat_map (fun c => chunkLine c :: chunkBody c) (chunks lines).
Proof.
  assert (B : forall l, bodyLines l ++ fromFirstHeading l = l).
  { induction l as [|x l IH]; auto. simpl.
    destruct (headingMatch x); [reflexivity|]. simpl. now rewrite IH. }
  induction lines as [|line rest IH]; auto. simpl.
  destruct (headingMatch line) as [[k text]|]; [|exact IH].
  cbn [flat_map chunkLine chunkBody]. rewrite <- IH. simpl. f_equal.
  symmetry. apply B.
Qed.

Lemma core_pushCurrent st last :
  map coreOf (pushCurrent st last) = map coreOf (sections st) ++ pendingCore st [].
Proof.
  unfold pushCurrent, pendingCore. destruct (currentSection st) as [o|].
  - rewrite map_app, app_nil_r. reflexivity.
  - now rewrite app_nil_r.
Qed.

Section WithHost.
Context {host : Host}.

(** The words of the sections, at any point of the loop. *)
Lemma words_loop lines : forall i st last,
  flat_map sectionWords (pushCurrent (loop lines i st) last)
  = flat_map sectionWords (sections st)
    ++ match currentSection st with
       | Some _ => pendingWords st ++ flat_map words lines
       | None => flat_map words (fromFirstHeading lines)
       end.
Proof.
  induction lines as [|line rest IH]; intros i st last.
  - cbn [loop]. rewrite words_pushCurrent. unfold pendingWords.
    destruct (currentSection st); simpl; now rewrite ?app_nil_r.
  - cbn [loop]. rewrite IH. unfold step. cbn [fromFirstHeading].
    destruct (headingMatch line) as [[k text]|] eqn:H.
    + cbn [sections currentSection]. rewrite words_pushCurrent, <- app_assoc.
      f_equal. unfold pendingWords at 2.
      cbn [currentSection o_level o_title sectionContent flat_map].
      rewrite app_nil_r.
      pose proof (words_heading _ _ _ H) as E.
      unfold pendingWords.
      destruct (currentSection st); cbn [app flat_map]; now rewrite E.
    + destruct (currentSection st) as [o|] eqn:C; cbn [sections currentSection];
        rewrite ?C; auto.
      f_equal. unfold pendingWords. cbn [currentSection sectionContent]. rewrite C.
      rewrite flat_map_app. cbn [flat_map]. rewrite app_nil_r.
      now rewrite <- !app_assoc.
Qed.

(** Level, title and body of the sections, at any point of the loop. *)
Lemma core_loop lines : forall i st last,
  map coreOf (pushCurrent (loop lines i st) last)
  = map coreOf (sections st)
    ++ pendingCore st (bodyLines lines)
    ++ map coreOfChunk (chunks lines).
Proof.
  induction lines as [|line rest IH]; intros i st last.
  - cbn [loop bodyLines chunks map]. rewrite app_nil_r. apply core_pushCurrent.
  - cbn [loop bodyLines chunks]. rewrite IH. unfold step.
    destruct (headingMatch line) as [[k text]|] eqn:H.
    + cbn [sections]. rewrite core_pushCurrent, <- app_assoc. reflexivity.
    + destruct (currentSection st) as [o|] eqn:C; cbn [sections]; f_equal.
      * unfold pendingCore. cbn [currentSection sectionContent]. rewrite C.
        now rewrite <- app_assoc.
      * unfold pendingCore. now rewrite C.
Qed.

(** C4, as the code has it.  For every document, the heading lines and the
    bodies of the extracted sections, concatenated in order, have the words
    of the document from its first heading line on, in their order: the
    two texts differ only in the length of the runs of whitespace between
    words and in the whitespace at their ends.  Within a section nothing but
    whitespace at an end is lost: the document from its first heading line
    on is its heading lines, each with the lines up to the next one, and a
    section has the marks of its heading line as level, the trimmed text of
    the heading as title and, as body, the lines that follow joined by line
    feeds and trimmed.  The text before the first heading belongs to no
    section, and a document without a heading line has no section. *)
Theorem C4_sections_rebuild_from_first_heading (text : string) :
  let lines := JS.split LF text in
  words (generateMarkdownFromSections (extractSections text))
  = words (JS.join newline (fromFirstHeading lines))
  /\ fromFirstHeading lines
     = flat_map (fun c => chunkLine c :: chunkBody c) (chunks lines)
  /\ map (fun s => (level s, title s, content s)) (extractSections text)
     = map (fun c => (chunkMarks c, JS.trim (chunkText c),
                      JS.trim (JS.join newline (chunkBody c))))
           (chunks lines)
  /\ Forall (fun c => headingMatch (chunkLine c) = Some (chunkMarks c, chunkText c)
                      /\ Forall (fun line => headingMatch line = None) (chunkBody c))
            (chunks lines)
  /\ (fromFirstHeading lines = [] -> extractSections text = []).
Proof.
  intros lines.
  assert (Hcore : map coreOf (extractSections text) = map coreOfChunk (chunks lines)).
  { unfold extractSections. fold lines. now rewrite core_loop. }
  split; [|split; [|split; [|split]]].
  - rewrite words_generate. unfold extractSections. fold lines.
    rewrite words_loop. cbn [sections currentSection flat_map app].
    now rewrite words_join.
  - apply chunks_from.
  - exact Hcore.
  - clear Hcore. induction lines as [|line rest IH]; [constructor|].
    cbn [chunks]. destruct (headingMatch line) as [[k t]|] eqn:H; [|exact IH].
    constructor; [|exact IH]. cbn [chunkLine chunkMarks chunkText chunkBody].
    split; [exact H|]. clear. induction rest as [|x rest IH]; [constructor|].
    cbn [bodyLines]. destruct (headingMatch x) eqn:E; constructor; auto.
  - intros E. rewrite chunks_from in E.
    destruct (chunks lines) as [|c l]; [|discriminate E].
    destruct (extractSections text); [reflexivity | discriminate Hcore].
Qed.

End WithHost.

End MarkdownFacts.

(** C4 as stated fails: the line before the first heading is in no section,
    so that the rebuilt text lacks its word; a document without a heading
    has no section at all; and where the document starts with its heading,
    the blank line put after the heading is not at an end of the text, where
    trimming would remove it. *)
Lemma C4_sections_rebuild_counterexample :
  JS.trim (Examples.rebuild Examples.withPreamble) = "# A"
  /\ JS.trim (Examples.rebuild Examples.withPreamble) <> JS.trim Examples.withPreamble
  /\ words (Examples.rebuild Examples.withPreamble) = ["#"; "A"]
  /\ words Examples.withPreamble = ["intro"; "#"; "A"]
  /\ Markdown.extractSections (host := Examples.demoHost) "no heading here" = []
  /\ JS.trim (Examples.rebuild Examples.headingFirst) <> JS.trim Examples.headingFirst
  /\ words (Examples.rebuild Examples.headingFirst) = words Examples.headingFirst.
Proof. repeat split; discriminate. Qed.

(** ** Keyword scoring *)

Section KeywordScore.
Import Search SortFacts CandidateFacts.
Context {host : Host}.

Lemma termStep_total s terms :
  (forall term, In term terms -> exists regex, RegExp term "g" = Ok regex) ->
  forall acc, exists acc',
    for_each (termStep (JS.toLowerCase (title s)) (JS.toLowerCase (content s)))
             terms acc = Ok acc'.
Proof.
  induction terms as [|term terms IH]; intros Hre [total matched];
    cbn [for_each]; eauto.
  destruct (Hre term (or_introl eq_refl)) as (regex & E).
  unfold termStep at 1. rewrite E. cbn [bind]. apply IH.
  intros t Ht. apply Hre. now right.
Qed.

Lemma findMatches_total q text :
  (forall term, In term (queryTerms q) ->
     exists regex, RegExp ("\b" ++ term ++ "\b") "gi" = Ok regex) ->
  exists found, findMatches q text = Ok found.
Proof.
  unfold findMatches. generalize (@nil string).
  induction (queryTerms q) as [|term terms IH]; intros acc Hre;
    cbn [for_each bind]; eauto.
  destruct (Hre term (or_introl eq_refl)) as (regex & E). rewrite E. cbn [bind].
  apply IH. intros t Ht. apply Hre. now right.
Qed.

Lemma keywordStep_total q s :
  (forall term, In term (queryTerms q) -> exists regex, RegExp term "g" = Ok regex) ->
  (forall term, In term (queryTerms q) ->
     exists regex, RegExp ("\b" ++ term ++ "\b") "gi" = Ok regex) ->
  forall acc, exists acc', keywordStep q (queryTerms q) acc s = Ok acc'.
Proof.
  intros H1 H2 acc. unfold keywordStep.
  destruct (termStep_total s _ H1 (0, [])) as ([total matched] & ->). cbn [bind].
  destruct (0 <? total); eauto.
  destruct (findMatches_total q (content s) H2) as (m & ->). cbn [bind]. eauto.
Qed.

Lemma normalizedScore_reported raw n :
  normalizedScore raw n = reportedScore raw n.
Proof.
  unfold normalizedScore, reportedScore, Math_min.
  replace (inject_Z (Z.of_nat (n * 5))) with (inject_Z (Z.of_nat n) * 5)%Q.
  2:{ unfold inject_Z, Qmult. cbn [Qnum Qden]. now rewrite Nat2Z.inj_mul. }
  set (x := (inject_Z (Z.of_nat raw) / (inject_Z (Z.of_nat n) * 5))%Q).
  unfold Qmin, GenericMinMax.gmin.
  destruct (Qle_bool x 1) eqn:E.
  - apply Qle_bool_iff in E. apply (proj1 (Qle_alt _ _)) in E.
    destruct (x ?= 1)%Q; [reflexivity | reflexivity | congruence].
  - destruct (x ?= 1)%Q eqn:C; auto; exfalso;
      assert (Qle_bool x 1 = true)
        by (apply Qle_bool_iff, (proj2 (Qle_alt _ _)); congruence);
      congruence.
Qed.

Lemma reportedScore_range raw n :
  0 < raw -> 0 < n -> (0 < reportedScore raw n /\ reportedScore raw n <= 1)%Q.
Proof.
  intros Hraw Hn. unfold reportedScore. split.
  - apply Q.min_glb_lt; [|reflexivity].
    apply Qlt_shift_div_l.
    + unfold Qlt, inject_Z, Qmult. simpl. lia.
    + rewrite Qmult_0_l. unfold Qlt, inject_Z. simpl. lia.
  - apply Q.le_min_r.
Qed.

End KeywordScore.

(** C5, on the code.  The keyword strategy makes each term a regular
    expression as it stands, [new RegExp(term, 'g')], and counts matches of
    that expression, where the scoring rule counts occurrences of the term.
    The term "c++" occurs once in the body of the section "Logos" of
    [Examples.indexedLogos], which by the rule has the raw score 1 and the
    score 1/5; the code throws a [SyntaxError] and produces no candidate.
    The term "\blogo" occurs in no section, so that by the rule no section is
    a candidate; the code counts one match in the title and one in the body
    of "Logos" and reports that section with the score 4/5. *)
Theorem C5_terms_are_matched_as_regular_expressions :
  Search.queryTerms "c++" = ["c++"]
  /\ map (rawScore ["c++"]) (Search.sections Examples.indexedLogos) = [0; 0; 1]
  /\ Qred (reportedScore 1 1) = (1 # 5)%Q
  /\ Search.keywordSearch (host := Examples.demoHost) Examples.indexedLogos "c++" 10
     = Throw (SyntaxError "c++")
  /\ Search.queryTerms "\blogo" = ["\blogo"]
  /\ map (rawScore ["\blogo"]) (Search.sections Examples.indexedLogos) = [0; 0; 0]
  /\ exists keywordArray,
      Search.keywordSearch (host := Examples.demoHost) Examples.indexedLogos
        "\blogo" 10
      = Ok (PromiseOf keywordArray)
      /\ map (fun r => (title (section r), Qred (score r))) keywordArray
         = [("Logos", (4 # 5)%Q)].
Proof.
  repeat split. eexists. split; reflexivity.
Qed.

(** ** The limit *)

Section Limit.
Import Search SortFacts CandidateFacts Routes.
Context {host : Host}.

Lemma search_length st q n resp :
  (1 <= n)%Z -> search st q (Some n) = Ok resp ->
  List.length (results resp) <= Z.to_nat n
  /\ totalResults resp = List.length (results resp).
Proof.
  intros Hn H. unfold search in H. apply bind_Ok in H as (found & _ & H).
  inversion H; subst; clear H. simpl. split; [|reflexivity].
  unfold effectiveLimit. destruct (Z.eqb_spec n 0); [lia|].
  apply slice0_length. lia.
Qed.

(** With the keyword strategy disabled [search] returns: the vector
    candidates, sorted and cut to the limit. *)
Lemma search_without_keyword st q requested :
  enableKeywordSearch (config st) = false ->
  search st q requested
  = Ok (let found :=
          JS.slice0
            (sortByScore (if enableSemanticSearch (config st)
                          then semanticSearch st q (effectiveLimit st requested)
                          else []))
            (effectiveLimit st requested) in
        mkResponse q found (List.length found)).
Proof. intros H. unfold search. now rewrite H. Qed.

(** With the keyword strategy enabled [search] never returns: either
    [keywordSearch] throws, or the promise it returns reaches the loop of
    [mergeResults], which throws a [TypeError]. *)
Lemma search_with_keyword st q requested :
  enableKeywordSearch (config st) = true ->
  (forall keywordResults,
      keywordSearch st q (effectiveLimit st requested) = Ok keywordResults ->
      search st q requested = Throw (TypeError "keywordResults is not iterable"))
  /\ forall resp, search st q requested <> Ok resp.
Proof.
  intros H. unfold search. rewrite H.
  destruct (keywordSearch st q (effectiveLimit st requested)) as [kw|e] eqn:E.
  - apply keywordSearch_candidates in E as (found & _ & _ & ->). cbn [bind mergeResults].
    split; [reflexivity | discriminate].
  - cbn [bind]. split; [discriminate | discriminate].
Qed.

(** [parseInt] reads the numeral of an integer as that integer. *)
Lemma digits_uint d : forall a,
  JS.digits (NilEmpty.string_of_uint d) (Some (Z.of_nat a))
  = Some (Z.of_nat (Nat.of_uint_acc d a)).
Proof.
  induction d as [|d IH|d IH|d IH|d IH|d IH|d IH|d IH|d IH|d IH|d IH];
    intros a; [reflexivity|..];
    cbn [NilEmpty.string_of_uint JS.digits Nat.of_uint_acc];
    rewrite <- IH, Nat.tail_mul_spec; cbn [JS.isDigit];
    match goal with
    | |- (if ?b then _ else _) = _ => change b with true; cbv iota
    end;
    f_equal; f_equal;
    match goal with
    | |- context [Z.of_nat (?x - 48)] =>
        let v := eval vm_compute in (x - 48) in change (x - 48) with v
    end;
    lia.
Qed.

Lemma to_uint_digit k : Nat.to_uint k <> Decimal.Nil.
Proof.
  rewrite <- (DecimalNat.Unsigned.of_to k), DecimalNat.Unsigned.to_of.
  apply DecimalFacts.unorm_nonnil.
Qed.

Lemma digits_natToString k : JS.digits (JS.natToString k) None = Some (Z.of_nat k).
Proof.
  unfold JS.natToString, NilZero.string_of_uint.
  pose proof (to_uint_digit k) as N.
  rewrite <- (DecimalNat.Unsigned.of_to k) at 2. unfold Nat.of_uint.
  destruct (Nat.to_uint k) as [|d|d|d|d|d|d|d|d|d|d]; [congruence|..];
    cbn [NilEmpty.string_of_uint JS.digits Nat.of_uint_acc]; cbn [JS.isDigit];
    match goal with
    | |- (if ?b then _ else _) = _ => change b with true; cbv iota
    end;
    match goal with
    | |- JS.digits _ (Some ?z) = Some (Z.of_nat (Nat.of_uint_acc _ ?a)) =>
        change z with (Z.of_nat a)
    end;
    apply digits_uint.
Qed.

Lemma natToString_head k :
  exists c s, JS.natToString k = String c s /\ JS.isDigit c = true.
Proof.
  unfold JS.natToString, NilZero.string_of_uint.
  pose proof (to_uint_digit k) as N.
  destruct (Nat.to_uint k); [congruence|..]; simpl; eauto.
Qed.

Lemma parseInt_digits c s :
  JS.isDigit c = true -> JS.parseInt (String c s) = JS.digits (String c s) None.
Proof. each_char c. Qed.

Lemma parseInt_numeral n : JS.parseInt (numeral n) = Some n.
Proof.
  unfold numeral. destruct (Z.ltb_spec n 0).
  - change (JS.parseInt (String "-" (JS.natToString (Z.to_nat (- n)))))
      with (option_map Z.opp (JS.digits (JS.natToString (Z.to_nat (- n))) None)).
    rewrite digits_natToString. simpl. f_equal. lia.
  - destruct (natToString_head (Z.to_nat n)) as (c & s & E & Hc).
    rewrite E, parseInt_digits, <- E, digits_natToString by exact Hc.
    f_equal. lia.
Qed.

Lemma parseLimit_numeral n : parseLimit (Text (numeral n)) = Some (Some n).
Proof.
  unfold parseLimit. rewrite parseInt_numeral.
  unfold numeral. destruct (n <? 0)%Z; [reflexivity|].
  destruct (natToString_head (Z.to_nat n)) as (c & s & -> & _). reflexivity.
Qed.

(** The route, for a query that it lets through. *)
Lemma searchHandler_valid st text limit :
  validQuery text ->
  searchHandler st (Text text) limit
  = match parseLimit limit with
    | None => search st (JS.trim text) None
    | Some None => Throw (ValidationError LimitOutOfRange)
    | Some (Some n) =>
        if (n <? 1)%Z || (100 <? n)%Z
        then Throw (ValidationError LimitOutOfRange)
        else search st (JS.trim text) (Some n)
    end.
Proof.
  intros [Hb Hl]. unfold searchHandler.
  destruct text as [|c text]; [now contradiction Hb|].
  destruct (Nat.eqb_spec (String.length (JS.trim (String c text))) 0) as [E|_].
  { destruct (JS.trim (String c text)); [congruence | discriminate]. }
  destruct (Nat.ltb_spec 500 (String.length (String c text))); [lia|].
  reflexivity.
Qed.

(** C6, as the code has it.  For a query that it lets through, the search
    route rejects with a [ValidationError], without calling [search], a
    limit that is the numeral of an integer outside [1, 100] or that is no
    number at all, and calls [search] with the integer of a numeral of
    [1, 100], or without limit when none is given.  [search] itself
    validates nothing: called with a limit of at least 1, what it returns
    has at most that many results, and it does return with the keyword
    strategy disabled; a limit of 0 is taken for no limit. *)
Theorem C6_limit_checked_then_enforced
  (st : SearchService) (text : string) (n : Z) :
  validQuery text ->
  ((n < 1 \/ 100 < n)%Z ->
   searchHandler st (Text text) (Text (numeral n))
   = Throw (ValidationError LimitOutOfRange))
  /\ ((1 <= n <= 100)%Z ->
      searchHandler st (Text text) (Text (numeral n))
      = search st (JS.trim text) (Some n))
  /\ (forall s, s <> EmptyString -> JS.parseInt s = None ->
        searchHandler st (Text text) (Text s)
        = Throw (ValidationError LimitOutOfRange))
  /\ searchHandler st (Text text) Absent = search st (JS.trim text) None
  /\ ((1 <= n)%Z ->
      forall resp, search st text (Some n) = Ok resp ->
        List.length (results resp) <= Z.to_nat n
        /\ totalResults resp = List.length (results resp))
  /\ ((1 <= n)%Z -> enableKeywordSearch (config st) = false ->
      exists resp, search st text (Some n) = Ok resp
                   /\ List.length (results resp) <= Z.to_nat n)
  /\ search st text (Some 0%Z) = search st text None.
Proof.
  intros Hq. split; [|split; [|split; [|split; [|split; [|split]]]]].
  - intros Hn. rewrite searchHandler_valid, parseLimit_numeral by exact Hq.
    destruct (Z.ltb_spec n 1), (Z.ltb_spec 100 n); try reflexivity; lia.
  - intros Hn. rewrite searchHandler_valid, parseLimit_numeral by exact Hq.
    destruct (Z.ltb_spec n 1), (Z.ltb_spec 100 n); try reflexivity; lia.
  - intros s Hs Hp. rewrite searchHandler_valid by exact Hq.
    unfold parseLimit. destruct s; [congruence|]. now rewrite Hp.
  - now rewrite searchHandler_valid by exact Hq.
  - intros Hn resp H. now apply search_length in H.
  - intros Hn Hk. eexists. split; [now apply search_without_keyword|].
    pose proof (search_without_keyword st text (Some n) Hk) as H.
    now apply search_length in H.
  - reflexivity.
Qed.

End Limit.

(** Over [Examples.palette] the query "brands" has three results; with the
    limit "2" the route answers with two of them, and it rejects the limit
    "101". *)
Lemma C6_limit_witness :
  validQuery "brands"
  /\ Routes.searchHandler (host := Examples.demoHost) Examples.palette
       (Routes.Text "brands") (Routes.Text "101")
     = Throw (ValidationError LimitOutOfRange)
  /\ Routes.searchHandler (host := Examples.demoHost) Examples.palette
       (Routes.Text "brands") (Routes.Text "2")
     = Search.search (host := Examples.demoHost) Examples.palette "brands" (Some 2%Z)
  /\ (exists resp,
        Search.search (host := Examples.demoHost) Examples.palette "brands" (Some 2%Z)
        = Ok resp
        /\ List.length (results resp) <= 2)
  /\ (exists resp,
        Search.search (host := Examples.demoHost) Examples.palette "brands" None
        = Ok resp
        /\ List.length (results resp) = 3).
Proof.
  assert (Hq : validQuery "brands") by (split; [discriminate | simpl; lia]).
  split; [exact Hq|]. split; [|split; [|split]].
  - apply (proj1 (C6_limit_checked_then_enforced (host := Examples.demoHost)
                    Examples.palette "brands" 101 Hq)).
    right. lia.
  - apply (proj1 (proj2 (C6_limit_checked_then_enforced (host := Examples.demoHost)
                           Examples.palette "brands" 2 Hq))).
    lia.
  - apply (proj1 (proj2 (proj2 (proj2 (proj2 (proj2
             (C6_limit_checked_then_enforced (host := Examples.demoHost)
                Examples.palette "brands" 2 Hq))))))).
    + lia.
    + reflexivity.
  - eexists. split; reflexivity.
Defined.

(** C6 as stated fails.  [search] rejects no limit: over
    [Examples.palette], where the query "brands" has three results, a limit
    of 1000 is used as it is, a limit of 0 is replaced by the configured
    maximum and a limit of -1 makes each cut drop the last candidate, which
    leaves one result.  And the
    route takes the limit for what [parseInt] reads at its start: "100.9"
    passes as 100, "1e3" as 1 and "5abc" as 5. *)
Lemma C6_limit_counterexample :
  (exists resp,
     Search.search (host := Examples.demoHost) Examples.palette "brands" (Some 1000%Z)
     = Ok resp /\ totalResults resp = 3)
  /\ (exists resp,
        Search.search (host := Examples.demoHost) Examples.palette "brands" (Some 0%Z)
        = Ok resp /\ totalResults resp = 3)
  /\ (exists resp,
        Search.search (host := Examples.demoHost) Examples.palette "brands" (Some (-1)%Z)
        = Ok resp /\ totalResults resp = 1)
  /\ (exists resp,
        Routes.searchHandler (host := Examples.demoHost) Examples.palette
          (Routes.Text "brands") (Routes.Text "100.9")
        = Ok resp
        /\ Search.search (host := Examples.demoHost) Examples.palette "brands"
             (Some 100%Z) = Ok resp)
  /\ (exists resp,
        Routes.searchHandler (host := Examples.demoHost) Examples.palette
          (Routes.Text "brands") (Routes.Text "1e3")
        = Ok resp
        /\ Search.search (host := Examples.demoHost) Examples.palette "brands"
             (Some 1%Z) = Ok resp
        /\ totalResults resp = 1)
  /\ (exists resp,
        Routes.searchHandler (host := Examples.demoHost) Examples.palette
          (Routes.Text "brands") (Routes.Text "5abc")
        = Ok resp
        /\ Search.search (host := Examples.demoHost) Examples.palette "brands"
             (Some 5%Z) = Ok resp).
Proof.
  repeat split; eexists; repeat split; reflexivity.
Qed.

(** ** Plain terms as regular expressions *)

Module PlainTermFacts.
Import StringFacts.

Lemma parseSimple_cons c p :
  Regex.isSyntaxChar c = false ->
  Regex.parseSimple (String c p) = option_map (cons (Regex.Chr c)) (Regex.parseSimple p).
Proof. each_char c. Qed.

Lemma parseSimple_app t rest :
  allChars (fun c => negb (Regex.isSyntaxChar c)) t = true ->
  Regex.parseSimple (t ++ rest)
  = option_map (app (literal t)) (Regex.parseSimple rest).
Proof.
  induction t as [|c t IH]; intros H.
  - simpl. now destruct (Regex.parseSimple rest).
  - cbn [allChars] in H. apply andb_true_iff in H as [Hc Ht].
    apply negb_true_iff in Hc.
    change ((String c t ++ rest)%string) with (String c (t ++ rest)).
    rewrite parseSimple_cons, IH by auto.
    now destruct (Regex.parseSimple rest).
Qed.

Lemma allChars_impl (p r : ascii -> bool) s :
  (forall c, p c = true -> r c = true) -> allChars p s = true -> allChars r s = true.
Proof.
  intros H. induction s as [|c s IH]; simpl; auto.
  intros E. apply andb_true_iff in E as [E1 E2]. rewrite H, IH; auto.
Qed.

Lemma plain_lower s : allChars plainChar s = true -> allChars plainChar (JS.toLowerCase s) = true.
Proof.
  induction s as [|c s IH]; simpl; auto. intros H.
  apply andb_true_iff in H as [Hc Hs]. rewrite IH by auto.
  unfold plainChar in *. apply andb_true_iff in Hc as [H1 H2].
  apply negb_true_iff in H1, H2.
  now rewrite lowerChar_not_whitespace, lowerChar_not_syntax.
Qed.

Lemma splitWs_plain s : allChars plainChar s = true -> JS.splitWs false s = [s].
Proof.
  induction s as [|c s IH]; simpl; auto. intros H.
  apply andb_true_iff in H as [Hc Hs]. unfold plainChar in Hc.
  apply andb_true_iff in Hc as [H1 _]. apply negb_true_iff in H1.
  now rewrite H1, IH.
Qed.

Lemma queryTerms_plain term :
  plainTerm term -> Search.queryTerms term = [JS.toLowerCase term].
Proof.
  intros [Hlen Hplain]. unfold Search.queryTerms, JS.splitWhitespace.
  rewrite splitWs_plain by now apply plain_lower. simpl.
  rewrite toLowerCase_length. apply Nat.ltb_lt in Hlen. now rewrite Hlen.
Qed.

Lemma not_syntax s :
  allChars plainChar s = true ->
  allChars (fun c => negb (Regex.isSyntaxChar c)) s = true.
Proof.
  apply allChars_impl. intros c H. unfold plainChar in H.
  now apply andb_true_iff in H as [_ H].
Qed.

Section WithHost.
Context {host : Host}.

Lemma RegExp_plain t flags :
  allChars plainChar t = true ->
  Search.RegExp t flags
  = Ok (Regex.simpleMatcher (Regex.ignoreCase flags) (literal t)).
Proof.
  intros H. unfold Search.RegExp.
  rewrite <- (MarkdownFacts.append_nil_r t) at 1.
  rewrite parseSimple_app by now apply not_syntax.
  simpl. now rewrite app_nil_r.
Qed.

Lemma RegExp_bounded t flags :
  allChars plainChar t = true ->
  exists regex, Search.RegExp ("\b" ++ t ++ "\b") flags = Ok regex.
Proof.
  intros H. unfold Search.RegExp.
  change (Regex.parseSimple ("\b" ++ t ++ "\b"))
    with (option_map (cons Regex.WordB) (Regex.parseSimple (t ++ "\b"))).
  rewrite parseSimple_app by now apply not_syntax. simpl. eauto.
Qed.

End WithHost.

Lemma matchItems_literal p before rest :
  Regex.matchItems false (literal p) before (p ++ rest) = Some p.
Proof.
  revert before. induction p as [|c p IH]; intros before; simpl; auto.
  unfold Regex.charMatches. rewrite Ascii.eqb_refl.
  unfold literal in IH. now rewrite IH.
Qed.

(** A literal pattern that occurs in a text is matched at least once. *)
Lemma matchAll_occurs p a b : forall before,
  p <> EmptyString ->
  Regex.matchAll false (literal p) before (a ++ p ++ b) 0 <> [].
Proof.
  induction a as [|d a IH]; intros before Hp.
  - destruct p as [|c p]; [congruence|].
    change (("" ++ String c p ++ b)%string) with (String c (p ++ b)).
    cbn [Regex.matchAll].
    change (String c (p ++ b)) with ((String c p ++ b)%string).
    rewrite matchItems_literal. discriminate.
  - change ((String d a ++ p ++ b)%string) with (String d (a ++ p ++ b)).
    cbn [Regex.matchAll].
    destruct (Regex.matchItems false (literal p) before (String d (a ++ p ++ b)));
      [discriminate | now apply IH].
Qed.

Lemma occurrences_positive p s :
  p <> EmptyString -> occursIn p s ->
  0 < List.length (Regex.simpleMatcher false (literal p) s).
Proof.
  intros Hp (a & b & ->). unfold Regex.simpleMatcher.
  pose proof (matchAll_occurs p a b None Hp) as H.
  destruct (Regex.matchAll false (literal p) None (a ++ p ++ b) 0);
    [congruence | simpl; lia].
Qed.

End PlainTermFacts.

(** ** Rebuilding the index *)

Section Rebuild.
Import Search SortFacts CandidateFacts PlainTermFacts.
Context {host : Host}.

Lemma map_all_In {A B : Type} (f : A -> result B) (l : list A) (r : list B) (x : A) :
  map_all f l = Ok r -> In x l -> exists y, In y r /\ f x = Ok y.
Proof.
  revert r. induction l as [|a l IH]; intros r H Hin; [destruct Hin|].
  simpl in H. apply bind_Ok in H as (y & Hy & H).
  apply bind_Ok in H as (ys & Hys & H). inversion H; subst.
  destruct Hin as [->|Hin].
  - exists y. simpl. auto.
  - destruct (IH ys Hys Hin) as (y' & Hy' & E). exists y'. simpl. auto.
Qed.

Lemma initialize_fulfilled st newSections :
  snd (initialize st newSections) = Ok tt ->
  exists es indexed,
    fst (initialize st newSections) = mkService es indexed (config st)
    /\ map_all (embedSection es) newSections = Ok indexed.
Proof.
  unfold initialize.
  destruct (embedding_initialize (embeddingService st)) as [es|e]; [|discriminate].
  destruct (map_all (embedSection es) newSections) as [indexed|e] eqn:E;
    [|discriminate].
  intros _. exists es, indexed. auto.
Qed.

Lemma embedSection_text es s s' :
  embedSection es s = Ok s' -> title s' = title s /\ content s' = content s.
Proof.
  unfold embedSection. intros H. apply bind_Ok in H as (e & _ & H).
  inversion H; subst. auto.
Qed.

Lemma sorted_slice_nonempty (l : list SearchResult) (n : Z) :
  (1 <= n)%Z -> l <> [] -> JS.slice0 (sortByScore l) n <> [].
Proof.
  intros Hn Hl H.
  assert (L : 1 <= List.length (JS.slice0 (sortByScore l) n)).
  { apply slice0_nonempty; auto. intros E.
    apply (f_equal (@List.length _)) in E. rewrite sortByScore_length in E.
    destruct l; [congruence | discriminate]. }
  rewrite H in L. simpl in L. lia.
Qed.

(** The keyword loop over an index one of whose sections holds the term. *)
Lemma keyword_loop_finds term (l : list DocumentSection) (s : DocumentSection) :
  plainTerm term -> In s l ->
  occursIn (JS.toLowerCase term) (JS.toLowerCase (title s))
  \/ occursIn (JS.toLowerCase term) (JS.toLowerCase (content s)) ->
  exists found,
    for_each (keywordStep term (queryTerms term)) l [] = Ok found /\ found <> [].
Proof.
  intros Hterm Hin Hocc.
  pose proof (queryTerms_plain term Hterm) as Hq.
  destruct Hterm as [Hlen Hplain].
  pose proof (plain_lower term Hplain) as Hlow.
  assert (Hne : JS.toLowerCase term <> EmptyString).
  { intros E. apply (f_equal String.length) in E.
    rewrite StringFacts.toLowerCase_length in E. simpl in E. lia. }
  assert (H1 : forall t, In t (queryTerms term) -> exists regex, RegExp t "g" = Ok regex).
  { rewrite Hq. intros t [<-|[]]. rewrite RegExp_plain by auto. eauto. }
  assert (H2 : forall t, In t (queryTerms term) ->
                 exists regex, RegExp ("\b" ++ t ++ "\b") "gi" = Ok regex).
  { rewrite Hq. intros t [<-|[]]. now apply RegExp_bounded. }
  assert (Hstep : forall acc y, exists e,
             keywordStep term (queryTerms term) acc y = Ok (acc ++ e)).
  { intros acc y. destruct (keywordStep_total term y H1 H2 acc) as (acc' & E).
    destruct (keywordStep_pushes _ _ _ _ _ E) as (e & -> & _). eauto. }
  assert (Hs : forall acc, exists r,
             keywordStep term (queryTerms term) acc s = Ok (acc ++ [r])).
  { intros acc. unfold keywordStep. rewrite Hq. cbn [for_each].
    unfold termStep. rewrite RegExp_plain by auto. cbn [bind].
    change (Regex.ignoreCase "g") with false.
    set (inTitle := List.length (Regex.simpleMatcher false _ (JS.toLowerCase (title s)))).
    set (inBody := List.length (Regex.simpleMatcher false _ (JS.toLowerCase (content s)))).
    assert (Hpos : 0 < 0 + (inTitle * 3 + inBody)).
    { destruct Hocc as [Ho|Ho]; apply (occurrences_positive _ _ Hne) in Ho;
        fold inTitle in Ho || fold inBody in Ho; lia. }
    apply Nat.ltb_lt in Hpos. rewrite Hpos.
    destruct (findMatches_total term (content s) H2) as (m & ->). cbn [bind]. eauto. }
  assert (G : forall l acc, In s l \/ acc <> [] ->
             exists found,
               for_each (keywordStep term (queryTerms term)) l acc = Ok found
               /\ found <> []).
  { clear Hin. induction l0 as [|y l0 IH]; intros acc [Hin|Hacc].
    - destruct Hin.
    - simpl. eauto.
    - cbn [for_each]. destruct Hin as [->|Hin].
      + destruct (Hs acc) as (r & ->). cbn [bind]. apply IH. right.
        destruct acc; discriminate.
      + destruct (Hstep acc y) as (e & ->). cbn [bind]. apply IH. now left.
    - cbn [for_each]. destruct (Hstep acc y) as (e & ->). cbn [bind]. apply IH.
      right. destruct acc; [congruence | discriminate]. }
  apply G. now left.
Qed.

Lemma map_all_embedSection es : forall l indexed,
  map_all (embedSection es) l = Ok indexed ->
  map (fun s => (id s, title s, content s)) indexed
  = map (fun s => (id s, title s, content s)) l.
Proof.
  induction l as [|s l IH]; intros indexed H.
  - inversion H. reflexivity.
  - cbn [map_all] in H. apply bind_Ok in H as (s' & Hs & H).
    apply bind_Ok in H as (rest & Hrest & H). inversion H; subst.
    unfold embedSection in Hs. apply bind_Ok in Hs as (e & _ & Hs).
    inversion Hs; subst. simpl. f_equal. now apply IH.
Qed.

(** C7, on the code.  Once the rebuild that [updateSections] started has
    completed without error, the index holds the new sections, and the
    keyword strategy does find a term of more than two characters, free of
    whitespace and of regular-expression syntax characters, that occurs
    (letter case aside) in the title or the body of one of them: the promise
    that [keywordSearch] returns holds a candidate.  But with the keyword
    strategy enabled, as it is by default, [search] hands that promise to
    [mergeResults] without awaiting it and throws a [TypeError]: it returns
    no result for the term. *)
Theorem C7_new_terms_indexed_but_search_throws
  (st : SearchService) (newSections : list DocumentSection) (term : string)
  (requested : option Z) (s : DocumentSection) :
  enableKeywordSearch (config st) = true ->
  snd (initialize st newSections) = Ok tt ->
  plainTerm term ->
  In s newSections ->
  occursIn (JS.toLowerCase term) (JS.toLowerCase (title s))
  \/ occursIn (JS.toLowerCase term) (JS.toLowerCase (content s)) ->
  let rebuilt := settle (fst (updateSections st newSections))
                        (snd (updateSections st newSections)) in
  let limit := effectiveLimit rebuilt requested in
  map (fun s => (id s, title s, content s)) (sections rebuilt)
  = map (fun s => (id s, title s, content s)) newSections
  /\ (exists keywordArray,
        keywordSearch rebuilt term limit = Ok (PromiseOf keywordArray)
        /\ ((1 <= limit)%Z -> 1 <= List.length keywordArray))
  /\ search rebuilt term requested
     = Throw (TypeError "keywordResults is not iterable").
Proof.
  intros Hk Hinit Hterm Hin Hocc rebuilt limit.
  unfold limit, rebuilt, updateSections, settle. simpl fst. simpl snd. simpl rebuild.
  destruct (initialize_fulfilled st newSections Hinit) as (es & indexed & -> & Hall).
  cbn [sections]. split; [exact (map_all_embedSection es _ _ Hall)|].
  destruct (map_all_In _ _ _ s Hall Hin) as (s' & Hin' & Hs').
  apply embedSection_text in Hs' as [Ht Hc].
  destruct (keyword_loop_finds term indexed s' Hterm Hin') as (found & Hloop & Hfound).
  { now rewrite Ht, Hc. }
  set (rebuilt' := mkService es indexed (config st)).
  assert (E : forall n, keywordSearch rebuilt' term n
                        = Ok (PromiseOf (JS.slice0 (sortByScore found) n))).
  { intros n. unfold keywordSearch, rebuilt'. cbn [sections]. now rewrite Hloop. }
  split.
  - eexists. split; [apply E|]. intros Hl.
    match goal with
    | |- 1 <= List.length ?l => assert (N : l <> []); [|destruct l; [congruence | simpl; lia]]
    end.
    now apply sorted_slice_nonempty.
  - unfold search. cbn [config rebuilt']. rewrite Hk, E. reflexivity.
Qed.

End Rebuild.

(** The run of the repository's test: a service with the default
    configuration, [initialize] with the three sections of the test, then
    [updateSections] with these and the section "Logos", and once the
    rebuild has completed [search('logo')]. *)
Lemma C7_new_terms_witness :
  Search.config Examples.tested = Search.defaultConfig
  /\ (exists keywordArray,
        Search.keywordSearch (host := Examples.demoHost)
          (Search.settle (host := Examples.demoHost)
             (fst (Search.updateSections Examples.tested Examples.testNewSections))
             (snd (Search.updateSections Examples.tested Examples.testNewSections)))
          "logo" 10
        = Ok (PromiseOf keywordArray)
        /\ 1 <= List.length keywordArray)
  /\ Search.search (host := Examples.demoHost)
       (Search.settle (host := Examples.demoHost)
          (fst (Search.updateSections Examples.tested Examples.testNewSections))
          (snd (Search.updateSections Examples.tested Examples.testNewSections)))
       "logo" None
     = Throw (TypeError "keywordResults is not iterable").
Proof.
  split; [reflexivity|].
  destruct (C7_new_terms_indexed_but_search_throws (host := Examples.demoHost)
              Examples.tested Examples.testNewSections "logo" None Examples.testLogos)
    as (_ & (kw & E & Hl) & Ht).
  - reflexivity.
  - reflexivity.
  - split; [simpl; lia | reflexivity].
  - simpl. auto.
  - left. exists "", "s". reflexivity.
  - split; [|exact Ht]. exists kw. split; [exact E|]. apply Hl.
    vm_compute. discriminate.
Defined.

(** ** Order of the results *)

Section Order.
Import Search SortFacts MergeFacts CandidateFacts.
Context {host : Host}.












End Order.



(** ** Terms that are not regular expressions *)

Section Metacharacters.
Import Search.
Context {host : Host}.

Lemma keywordSearch_throws st q term limit :
  sections st <> [] ->
  queryTerms q = [term] ->
  RegExp term "g" = Throw (SyntaxError term) ->
  keywordSearch st q limit = Throw (SyntaxError term).
Proof.
  intros Hs Hq Hre. unfold keywordSearch. rewrite Hq.
  destruct (sections st) as [|s l]; [congruence|].
  cbn [for_each]. unfold keywordStep at 1. cbn [for_each].
  unfold termStep. now rewrite Hre.
Qed.

(** C9. The queries "c++" and "(((" are neither empty nor blank, and on
    every non-empty index with the keyword strategy enabled [search] throws a
    [SyntaxError] for them instead of returning results: the term is made a
    regular expression as it is, by the keyword scoring and by [findMatches]
    alike. *)
Theorem C9_unescaped_terms_throw (st : SearchService) (requested : option Z) :
  sections st <> [] ->
  enableKeywordSearch (config st) = true ->
  (~ blank "c++" /\ ~ blank "(((")
  /\ search st "c++" requested = Throw (SyntaxError "c++")
  /\ search st "(((" requested = Throw (SyntaxError "(((")
  /\ (forall text, findMatches "c++" text = Throw (SyntaxError "\bc++\b"))
  /\ (forall text, findMatches "(((" text = Throw (SyntaxError "\b(((\b")).
Proof.
  intros Hs Hk. split; [split; discriminate|].
  split; [|split; [|split; reflexivity]].
  - unfold search. rewrite Hk.
    rewrite (keywordSearch_throws st "c++" "c++"); auto.
  - unfold search. rewrite Hk.
    rewrite (keywordSearch_throws st "(((" "((("); auto.
Qed.

End Metacharacters.

Lemma C9_unescaped_terms_witness :
  Search.search (host := Examples.demoHost) Examples.indexed "c++" None
  = Throw (SyntaxError "c++").
Proof.
  refine (proj1 (proj2 (C9_unescaped_terms_throw (host := Examples.demoHost)
                          Examples.indexed None _ _))).
  - discriminate.
  - reflexivity.
Defined.

(** ** Configuration *)

Module ConfigFacts.
Import ConfigStore.

Lemma read_bound h r c : read h r = Some c -> r < List.length h.
Proof. intros H. apply nth_error_Some. unfold read in H. congruence. Qed.

Lemma read_write_other h r r' c : r <> r' -> read (write h r c) r' = read h r'.
Proof.
  unfold read. revert r r'. induction h as [|x h IH]; intros r r' N; simpl; auto.
  destruct r as [|r], r' as [|r']; simpl; auto; try congruence.
Qed.

Lemma read_assign_other h r r' a : r <> r' -> read (assign h r a) r' = read h r'.
Proof.
  intros N. unfold assign. destruct (read h r); auto. now apply read_write_other.
Qed.

Lemma read_assignments h r r' l :
  r <> r' -> read (fold_left (fun h a => assign h r a) l h) r' = read h r'.
Proof.
  intros N. revert h. induction l as [|a l IH]; intros h; simpl; auto.
  rewrite IH. now apply read_assign_other.
Qed.

End ConfigFacts.

Section Configuration.
Import ConfigFacts.

(** C10. [updateConfig] leaves every field that the partial configuration
    does not hold as it was (and sets the others), together with the index
    and the embedding service; [getConfig] returns the configuration in a new
    object, so that no sequence of assignments to the fields of that object
    changes the configuration the service reads; nor does [updateConfig]
    write to the object the service held before. *)
Theorem C10_config_frame_and_copy
  (st : Search.SearchService) (partial : PartialSearchConfig)
  (h : ConfigStore.Store) (svc : ConfigStore.Service) (c : SearchConfig) :
  ConfigStore.read h (ConfigStore.configRef svc) = Some c ->
  let c' := Search.config (Search.updateConfig st partial) in
  (maxResults c' = Search.pick (maxResults (Search.config st)) (p_maxResults partial)
   /\ minScore c' = Search.pick (minScore (Search.config st)) (p_minScore partial)
   /\ enableSemanticSearch c'
      = Search.pick (enableSemanticSearch (Search.config st)) (p_enableSemanticSearch partial)
   /\ enableKeywordSearch c'
      = Search.pick (enableKeywordSearch (Search.config st)) (p_enableKeywordSearch partial))
  /\ (p_maxResults partial = None -> maxResults c' = maxResults (Search.config st))
  /\ (p_minScore partial = None -> minScore c' = minScore (Search.config st))
  /\ (p_enableSemanticSearch partial = None ->
      enableSemanticSearch c' = enableSemanticSearch (Search.config st))
  /\ (p_enableKeywordSearch partial = None ->
      enableKeywordSearch c' = enableKeywordSearch (Search.config st))
  /\ Search.sections (Search.updateConfig st partial) = Search.sections st
  /\ Search.embeddingService (Search.updateConfig st partial) = Search.embeddingService st
  /\ Search.getConfig st = Search.config st
  /\ (exists h' r,
        ConfigStore.getConfig h svc = (h', Some r)
        /\ r <> ConfigStore.configRef svc
        /\ ConfigStore.read h' r = Some c
        /\ forall assignments,
            ConfigStore.read
              (fold_left (fun h a => ConfigStore.assign h r a) assignments h')
              (ConfigStore.configRef svc)
            = Some c)
  /\ ConfigStore.read (fst (ConfigStore.updateConfig h svc partial))
                      (ConfigStore.configRef svc) = Some c.
Proof.
  intros Hread c'. unfold c'. simpl.
  repeat split; try (intros ->; reflexivity).
  - now destruct st as [es l [a b d e]].
  - unfold ConfigStore.getConfig. rewrite Hread.
    pose proof (read_bound _ _ _ Hread) as Hb.
    eexists. eexists. split; [reflexivity|].
    assert (N : List.length h <> ConfigStore.configRef svc) by lia.
    split; [exact N|]. split.
    + unfold ConfigStore.read. rewrite nth_error_app2 by lia.
      rewrite Nat.sub_diag. simpl. now destruct c.
    + intros l. rewrite read_assignments by exact N.
      unfold ConfigStore.read. rewrite nth_error_app1 by lia. exact Hread.
  - unfold ConfigStore.updateConfig. rewrite Hread.
    pose proof (read_bound _ _ _ Hread) as Hb. simpl.
    unfold ConfigStore.read. rewrite nth_error_app1 by lia. exact Hread.
Qed.

End Configuration.

Lemma C10_config_witness :
  exists h' r,
    ConfigStore.getConfig [Search.defaultConfig] (ConfigStore.mkService 0)
    = (h', Some r)
    /\ r <> 0.
Proof.
  destruct (C10_config_frame_and_copy (Search.create Examples.parityService)
              Examples.onlyKeyword [Search.defaultConfig] (ConfigStore.mkService 0)
              Search.defaultConfig eq_refl)
    as (_ & _ & _ & _ & _ & _ & _ & _ & (h' & r & E & N & _) & _).
  exists h', r. split; [exact E | exact N].
Defined.

(** * Further properties: the engine, the documents and the routes *)

(** ** Further properties of the search engine *)

Module VectorFacts.

Lemma Qmult_swap (x y : Q) : (x * y)%Q = (y * x)%Q.
Proof.
  unfold Qmult. now rewrite Z.mul_comm, Pos.mul_comm.
Qed.

Lemma sums_swap a : forall b d na nb,
  sums b a (d, nb, na)
  = let '(d', na', nb') := sums a b (d, na, nb) in (d', nb', na').
Proof.
  unfold sums. induction a as [|x a IH]; intros [|y b] d na nb; simpl; auto.
  rewrite IH. now rewrite (Qmult_swap y x).
Qed.

End VectorFacts.

Section Vectors.
Import Search VectorFacts.
Context {host : Host}.

(** X1. [cosineSimilarity] does not depend on the order of its two
    vectors: the same number, or the same exception. *)
Theorem X1_cosine_similarity_symmetric (a b : list Q) :
  cosineSimilarity a b = cosineSimilarity b a.
Proof.
  unfold cosineSimilarity. rewrite (Nat.eqb_sym (List.length b)).
  destruct (List.length a =? List.length b); simpl; auto.
  change (fold_left _ (combine b a) _) with (sums b a (0, 0, 0)%Q).
  change (fold_left _ (combine a b) _) with (sums a b (0, 0, 0)%Q).
  rewrite (sums_swap b a). destruct (sums b a (0, 0, 0)%Q) as [[d nb] na].
  now rewrite (Qmult_swap (Math_sqrt nb)).
Qed.

End Vectors.

(** ** Keyword scores of literal terms *)

Module KeywordFacts.
Import Search PlainTermFacts.

Lemma matchItems_prefix t : forall before s,
  Regex.matchItems false (literal t) before s
  = if String.prefix t s then Some t else None.
Proof.
  induction t as [|c t IH]; intros before s.
  - now destruct s.
  - change (literal (String c t)) with (Regex.Chr c :: literal t).
    destruct s as [|d s]; [reflexivity|].
    cbn [Regex.matchItems String.prefix]. unfold Regex.charMatches.
    destruct (ascii_dec c d) as [->|N].
    + rewrite Ascii.eqb_refl, IH. now destruct (String.prefix t s).
    + apply Ascii.eqb_neq in N. now rewrite N.
Qed.

(** The matches of a literal pattern are the occurrences of the term. *)
Lemma matchAll_count t :
  t <> EmptyString ->
  forall s before skip,
    List.length (Regex.matchAll false (literal t) before s skip)
    = occurrencesFrom t s skip.
Proof.
  intros Ht. induction s as [|d s IH]; intros before skip.
  - destruct skip; [|reflexivity]. cbn [Regex.matchAll occurrencesFrom].
    rewrite matchItems_prefix. destruct t; [congruence | reflexivity].
  - destruct skip as [|k]; cbn [Regex.matchAll occurrencesFrom]; [|apply IH].
    rewrite matchItems_prefix.
    destruct (String.prefix t (String d s)); cbn [List.length]; now rewrite IH.
Qed.

Section WithHost.
Context {host : Host}.

Lemma RegExp_literal t flags :
  literalTerm t ->
  RegExp t flags = Ok (Regex.simpleMatcher (Regex.ignoreCase flags) (literal t)).
Proof.
  intros H. unfold RegExp.
  rewrite <- (MarkdownFacts.append_nil_r t) at 1.
  rewrite parseSimple_app by exact H. simpl. now rewrite app_nil_r.
Qed.

Lemma RegExp_word t flags :
  literalTerm t -> exists regex, RegExp ("\b" ++ t ++ "\b") flags = Ok regex.
Proof.
  intros H. unfold RegExp.
  change (Regex.parseSimple ("\b" ++ t ++ "\b"))
    with (option_map (cons Regex.WordB) (Regex.parseSimple (t ++ "\b"))).
  rewrite parseSimple_app by exact H. simpl. eauto.
Qed.

(** The loop over the terms adds the raw score of the section. *)
Lemma termStep_counts s terms :
  Forall (fun t => literalTerm t /\ t <> EmptyString) terms ->
  forall total matched, exists matched',
    for_each (termStep (JS.toLowerCase (title s)) (JS.toLowerCase (content s)))
             terms (total, matched)
    = Ok (total + rawScore terms s, matched').
Proof.
  induction 1 as [|t terms [Hl Ht] _ IH]; intros total matched.
  - exists matched. cbn [for_each]. unfold rawScore. simpl. now rewrite Nat.add_0_r.
  - cbn [for_each]. unfold termStep at 1.
    rewrite RegExp_literal by exact Hl. cbn [bind].
    unfold Regex.simpleMatcher. rewrite !matchAll_count by exact Ht.
    fold (occurrences t (JS.toLowerCase (title s))).
    fold (occurrences t (JS.toLowerCase (content s))).
    match goal with
    | |- exists _, for_each _ _ (?total', ?m) = _ =>
        destruct (IH total' m) as (matched' & ->)
    end.
    exists matched'. f_equal. f_equal.
    unfold rawScore, termScore, list_sum. cbn [map fold_right]. lia.
Qed.

Lemma literal_terms q :
  Forall literalTerm (queryTerms q) ->
  Forall (fun t => literalTerm t /\ t <> EmptyString) (queryTerms q).
Proof.
  intros H. rewrite Forall_forall in *. intros t Ht. split; [now apply H|].
  unfold queryTerms in Ht. apply filter_In in Ht as [_ Ht].
  apply Nat.ltb_lt in Ht. intros ->. simpl in Ht. lia.
Qed.

(** What the loop over the sections pushes for one section. *)
Lemma keywordStep_candidate q s acc :
  Forall literalTerm (queryTerms q) ->
  exists m,
    keywordStep q (queryTerms q) acc s
    = Ok (acc ++ if 0 <? rawScore (queryTerms q) s
                 then [mkResult s (normalizedScore (rawScore (queryTerms q) s)
                                                   (List.length (queryTerms q))) m]
                 else []).
Proof.
  intros H. unfold keywordStep.
  destruct (termStep_counts s _ (literal_terms q H) 0 []) as (matched & ->).
  cbn [bind Nat.add].
  destruct (0 <? rawScore (queryTerms q) s).
  - destruct (findMatches_total q (content s)) as (m & ->).
    + intros t Ht. apply RegExp_word. rewrite Forall_forall in H. now apply H.
    + exists m. reflexivity.
  - exists []. now rewrite app_nil_r.
Qed.

Lemma keyword_loop q : 
  Forall literalTerm (queryTerms q) ->
  forall l acc, exists candidates,
    for_each (keywordStep q (queryTerms q)) l acc = Ok (acc ++ candidates)
    /\ map section candidates = filter (fun s => 0 <? rawScore (queryTerms q) s) l
    /\ Forall (fun r => score r
                        = normalizedScore (rawScore (queryTerms q) (section r))
                                          (List.length (queryTerms q)))
              candidates.
Proof.
  intros H. induction l as [|s l IH]; intros acc.
  - exists []. cbn [for_each]. rewrite app_nil_r. repeat split. constructor.
  - cbn [for_each]. destruct (keywordStep_candidate q s acc H) as (m & ->).
    cbn [bind]. 
    match goal with
    | |- exists _, for_each _ _ (acc ++ ?e) = _ /\ _ =>
        destruct (IH (acc ++ e)) as (rest & -> & Hs & Hf); exists (e ++ rest)
    end.
    rewrite <- app_assoc. split; [reflexivity|]. cbn [filter].
    destruct (0 <? rawScore (queryTerms q) s).
    + split; [simpl; now rewrite Hs|]. constructor; [reflexivity | exact Hf].
    + split; [exact Hs | exact Hf].
Qed.

End WithHost.

End KeywordFacts.

Section KeywordScores.
Import Search KeywordFacts.
Context {host : Host}.

(** X2. For a query whose terms hold no character of the syntax of
    regular expressions, the keyword strategy scores as the scoring rule
    says.  Its candidates, before the sort and the cut to the limit, are the
    sections of the index, in their order, whose raw score (the sum over the
    terms of three times the occurrences of the term in the title plus its
    occurrences in the body, letter case aside) is positive; the score of a
    candidate is its raw score divided by (termCount x 5), at most 1, and
    lies in (0, 1]. *)
Theorem X2_keyword_scores_of_literal_terms
  (st : SearchService) (q : string) (limit : Z) :
  let terms := queryTerms q in
  Forall literalTerm terms ->
  exists candidates,
    keywordSearch st q limit
    = Ok (PromiseOf (JS.slice0 (sortByScore candidates) limit))
    /\ map section candidates
       = filter (fun s => 0 <? rawScore terms s) (sections st)
    /\ Forall (fun r =>
                 score r = reportedScore (rawScore terms (section r))
                                         (List.length terms)
                 /\ (0 < score r /\ score r <= 1)%Q)
              candidates.
Proof.
  intros terms H.
  destruct (keyword_loop q H (sections st) []) as (cands & E & Hs & Hf).
  exists cands. unfold keywordSearch. fold terms in E |- *. rewrite E.
  split; [reflexivity|]. split; [exact Hs|].
  rewrite Forall_forall in *. intros r Hr.
  rewrite (Hf r Hr), normalizedScore_reported. split; [reflexivity|].
  assert (Hraw : 0 < rawScore terms (section r)).
  { assert (Hin : In (section r) (map section cands)) by now apply in_map.
    rewrite Hs in Hin. apply filter_In in Hin as [_ Hin].
    now apply Nat.ltb_lt in Hin. }
  apply reportedScore_range; [exact Hraw|].
  unfold terms in *. destruct (queryTerms q); [|simpl; lia].
  unfold rawScore in Hraw. simpl in Hraw. lia.
Qed.

End KeywordScores.

(** The query "brands logo" over [Examples.indexedLogos]. *)
Lemma X2_keyword_scores_witness :
  exists candidates,
    Search.keywordSearch (host := Examples.demoHost) Examples.indexedLogos
      "brands logo" 10
    = Ok (PromiseOf (JS.slice0 (Search.sortByScore candidates) 10))
    /\ map (fun r => (title (section r), Qred (score r))) candidates
       = [("Brands", (1 # 2)%Q); ("Logos", (2 # 5)%Q)].
Proof.
  destruct (X2_keyword_scores_of_literal_terms (host := Examples.demoHost)
              Examples.indexedLogos "brands logo" 10)
    as (candidates & E & Hs & Hf).
  - repeat constructor.
  - exists candidates. split; [exact E|].
    match type of Hs with
    | _ = ?f => let f' := eval vm_compute in f in change f with f' in Hs
    end.
    destruct candidates as [|c1 [|c2 [|c3 l]]]; try discriminate Hs.
    cbn [map] in Hs. injection Hs as H1 H2.
    inversion Hf as [|? ? [S1 _] Hf']; subst.
    inversion Hf' as [|? ? [S2 _] _]; subst.
    cbn [map]. rewrite S1, S2, H1, H2. reflexivity.
Defined.

(** ** Loops with an invariant *)

Lemma for_each_invariant {A S : Type} (body : S -> A -> result S) (I : S -> Prop)
  (l : list A) :
  (forall acc x acc', In x l -> I acc -> body acc x = Ok acc' -> I acc') ->
  forall acc res, I acc -> for_each body l acc = Ok res -> I res.
Proof.
  induction l as [|x l IH]; intros Hbody acc res Hacc H; simpl in H.
  - now inversion H; subst.
  - apply bind_Ok in H as (acc' & Hx & Hrest).
    apply (IH (fun a y a' Hy => Hbody a y a' (or_intror Hy)) acc'); auto.
    apply (Hbody acc x); simpl; auto.
Qed.

Module UniqueFacts.

Lemma dedupe_In seen l x :
  In x (JS.dedupe seen l) <-> In x l /\ ~ In x seen.
Proof.
  revert seen. induction l as [|y l IH]; intros seen; simpl; [tauto|].
  destruct (existsb (String.eqb y) seen) eqn:E.
  - apply MergeFacts.existsb_eqb_In in E. rewrite IH. split.
    + tauto.
    + intros [[->|H] Hn]; tauto.
  - assert (Hy : ~ In y seen).
    { intros H. apply MergeFacts.existsb_eqb_In in H. congruence. }
    simpl. rewrite IH. simpl. split.
    + intros [->|[H Hn]]; [tauto|]. split; [tauto|]. intros Hs. apply Hn. now right.
    + intros [[->|H] Hn]; [tauto|].
      destruct (string_dec y x) as [->|Hne]; [tauto|]. right. split; [exact H|].
      intros [E'|Hs]; [congruence | tauto].
Qed.

Lemma dedupe_NoDup seen l : NoDup (JS.dedupe seen l).
Proof.
  revert seen. induction l as [|y l IH]; intros seen; simpl; [constructor|].
  destruct (existsb (String.eqb y) seen); [apply IH|].
  constructor; [|apply IH]. rewrite dedupe_In. simpl. tauto.
Qed.

Lemma unique_In l x : In x (JS.unique l) <-> In x l.
Proof. unfold JS.unique. rewrite dedupe_In. simpl. tauto. Qed.

Lemma unique_NoDup l : NoDup (JS.unique l).
Proof. apply dedupe_NoDup. Qed.

End UniqueFacts.

Module MatchFacts.
Import StringFacts PlainTermFacts.

Lemma lowerChar_idem c : JS.lowerChar (JS.lowerChar c) = JS.lowerChar c.
Proof. each_char c. Qed.

Lemma toLowerCase_idem s : JS.toLowerCase (JS.toLowerCase s) = JS.toLowerCase s.
Proof. induction s as [|c s IH]; simpl; [|rewrite lowerChar_idem, IH]; auto. Qed.

(** A match of a case-insensitive pattern is the text of the pattern, letter
    case aside. *)
Lemma matchItems_lower items : forall before s m,
  Regex.matchItems true items before s = Some m ->
  JS.toLowerCase m = JS.toLowerCase (textOf items).
Proof.
  induction items as [|[c| |] items IH]; intros before s m H;
    cbn [Regex.matchItems] in H.
  - now inversion H.
  - destruct s as [|d s]; [discriminate|].
    destruct (Regex.charMatches true c d) eqn:E; [|discriminate].
    destruct (Regex.matchItems true items (Some d) s) as [m'|] eqn:E'; [|discriminate].
    inversion H; subst. simpl. rewrite (IH _ _ _ E'). f_equal.
    unfold Regex.charMatches in E. apply Ascii.eqb_eq in E. congruence.
  - destruct (xorb _ _); [eauto | discriminate].
  - destruct (xorb _ _); [discriminate | eauto].
Qed.

Lemma matchAll_In ic items s : forall before skip m,
  In m (Regex.matchAll ic items before s skip) ->
  exists before' s', Regex.matchItems ic items before' s' = Some m.
Proof.
  induction s as [|d s IH]; intros before skip m H; simpl in H.
  - destruct skip; [|destruct H].
    destruct (Regex.matchItems ic items before "") as [m'|] eqn:E; [|destruct H].
    destruct H as [->|[]]. eauto.
  - destruct skip as [|k]; [|eauto].
    destruct (Regex.matchItems ic items before (String d s)) as [m'|] eqn:E; [|eauto].
    destruct H as [->|H]; eauto.
Qed.

Lemma textOf_literal t : textOf (literal t) = t.
Proof. induction t as [|c t IH]; simpl; [|unfold literal in IH; rewrite IH]; auto. Qed.

Lemma textOf_app a b : textOf (a ++ b) = (textOf a ++ textOf b)%string.
Proof.
  induction a as [|[c| |] a IH]; simpl; auto. now rewrite IH.
Qed.

Section WithHost.
Context {host : Host}.

Lemma RegExp_bounded_items t flags :
  allChars plainChar t = true ->
  Search.RegExp ("\b" ++ t ++ "\b") flags
  = Ok (Regex.simpleMatcher (Regex.ignoreCase flags)
          (Regex.WordB :: literal t ++ [Regex.WordB])).
Proof.
  intros H. unfold Search.RegExp.
  change (Regex.parseSimple ("\b" ++ t ++ "\b"))
    with (option_map (cons Regex.WordB) (Regex.parseSimple (t ++ "\b"))).
  rewrite parseSimple_app by now apply not_syntax. reflexivity.
Qed.

End WithHost.

(** The pieces of a string in lower case are in lower case. *)
Lemma splitWs_lower s : forall b t,
  In t (JS.splitWs b (JS.toLowerCase s)) -> JS.toLowerCase t = t.
Proof.
  induction s as [|c s IH]; intros b t H; cbn [JS.toLowerCase JS.splitWs] in H.
  - destruct H as [<-|[]]. reflexivity.
  - destruct (JS.isWhiteSpace (JS.lowerChar c)).
    + destruct b; [eauto|]. destruct H as [<-|H]; [reflexivity | eauto].
    + pose proof (IH false) as IH'.
      destruct (JS.splitWs false (JS.toLowerCase s)) as [|x l].
      * destruct H as [<-|[]]. simpl. now rewrite lowerChar_idem.
      * destruct H as [<-|H].
        -- simpl. rewrite lowerChar_idem. f_equal. apply IH'. now left.
        -- apply IH'. now right.
Qed.

Lemma queryTerms_lower q t : In t (Search.queryTerms q) -> JS.toLowerCase t = t.
Proof.
  unfold Search.queryTerms, JS.splitWhitespace. intros H.
  apply filter_In in H as [H _]. eapply splitWs_lower; eauto.
Qed.

End MatchFacts.

Lemma slice0_nil {A : Type} (n : Z) : JS.slice0 (@nil A) n = [].
Proof. unfold JS.slice0. destruct (n <? 0)%Z; apply firstn_nil. Qed.

Section MoreSearch.
Import Search SortFacts CandidateFacts UniqueFacts MatchFacts.
Context {host : Host}.

(** What [semanticSearch] returns has been sorted and cut. *)
Lemma semanticSearch_sorted_cut st q n :
  exists found, semanticSearch st q n = JS.slice0 (sortByScore found) n.
Proof.
  unfold semanticSearch.
  destruct (negb (isReady (embeddingService st))).
  { exists []. symmetry. apply slice0_nil. }
  destruct (semanticTry st q n) as [sem|e] eqn:E.
  - apply semanticTry_candidates in E as (found & _ & ->). eauto.
  - exists []. symmetry. apply slice0_nil.
Qed.

(** X3. Every candidate of the vector strategy is a section of the index
    that carries a vector; its score is the cosine similarity of that vector
    and the vector of the query, it is at least [minScore], and its matches
    are those [findMatches] reports for the body of the section.  (There are
    candidates only when the embedding service is ready and has produced a
    vector for the query.) *)
Theorem X3_vector_candidates_reach_min_score
  (st : SearchService) (q : string) (limit : Z) (r : SearchResult) :
  In r (semanticSearch st q limit) ->
  isReady (embeddingService st) = true
  /\ In (section r) (sections st)
  /\ exists queryEmbedding e,
       generateEmbedding (embeddingService st) q = Ok queryEmbedding
       /\ embedding (section r) = Some e
       /\ cosineSimilarity queryEmbedding e = Ok (score r)
       /\ (minScore (config st) <= score r)%Q
       /\ findMatches q (content (section r)) = Ok (matches r).
Proof.
  unfold semanticSearch. destruct (isReady (embeddingService st)); [|intros []].
  simpl negb. cbv iota.
  destruct (semanticTry st q limit) as [sem|err] eqn:E; [|intros []].
  intros Hr. split; [reflexivity|].
  unfold semanticTry in E. apply bind_Ok in E as (qe & Hq & E).
  apply bind_Ok in E as (found & Hf & E). inversion E; subst; clear E.
  apply (prefix_In _ _ _ (slice0_prefix _ _)) in Hr.
  apply (proj1 (sortByScore_In _ _)) in Hr.
  assert (All : Forall (fun r =>
            In (section r) (sections st)
            /\ exists e, embedding (section r) = Some e
                 /\ cosineSimilarity qe e = Ok (score r)
                 /\ (minScore (config st) <= score r)%Q
                 /\ findMatches q (content (section r)) = Ok (matches r)) found).
  { revert Hf. apply for_each_invariant; [|constructor].
    intros acc s acc' Hs Hacc Hstep. unfold semanticStep in Hstep.
    destruct (embedding s) as [e|] eqn:He; [|now inversion Hstep; subst].
    apply bind_Ok in Hstep as (sim & Hsim & Hstep).
    destruct (Qle_bool (minScore (config st)) sim) eqn:Hmin;
      [|now inversion Hstep; subst].
    apply bind_Ok in Hstep as (m & Hm & Hstep). inversion Hstep; subst.
    apply Forall_app. split; [exact Hacc|]. constructor; [|constructor].
    simpl. split; [exact Hs|]. exists e. repeat split; auto.
    now apply Qle_bool_iff. }
  rewrite Forall_forall in All. destruct (All r Hr) as (Hin & e & H).
  split; [exact Hin|]. exists qe, e. tauto.
Qed.

(** X4. A query for which [findMatches] throws on every text (one with a
    term that is not a regular expression, such as "c++") gets no candidate
    from the vector strategy, on any index: the exception is raised when the
    first section reaches [minScore] and is caught by [semanticSearch]. *)
Theorem X4_vector_strategy_silent_on_rejected_terms
  (st : SearchService) (q : string) (limit : Z) :
  (forall text, exists e, findMatches q text = Throw e) ->
  semanticSearch st q limit = [].
Proof.
  intros Hbad. unfold semanticSearch.
  destruct (negb (isReady (embeddingService st))); [reflexivity|].
  destruct (semanticTry st q limit) as [sem|err] eqn:E; [|reflexivity].
  unfold semanticTry in E. apply bind_Ok in E as (qe & _ & E).
  apply bind_Ok in E as (found & Hf & E). inversion E; subst; clear E.
  assert (found = []) as ->; [|apply slice0_nil].
  revert Hf. apply (for_each_invariant _ (fun acc => acc = [])); [|reflexivity].
  intros acc s acc' _ -> Hstep. unfold semanticStep in Hstep.
  destruct (embedding s) as [e|]; [|now inversion Hstep].
  apply bind_Ok in Hstep as (sim & _ & Hstep).
  destruct (Qle_bool (minScore (config st)) sim); [|now inversion Hstep].
  apply bind_Ok in Hstep as (m & Hm & _).
  destruct (Hbad (content s)) as (e' & He'). congruence.
Qed.

(** X5. What [findMatches] returns holds no string twice; and when the
    terms of the query are free of regular-expression syntax, every string
    it returns is one of the terms, letter case aside. *)
Theorem X5_findMatches_distinct_and_among_terms
  (q text : string) (found : list string) :
  findMatches q text = Ok found ->
  NoDup found
  /\ (Forall (fun term => allChars plainChar term = true) (queryTerms q) ->
      forall m, In m found -> In (JS.toLowerCase m) (queryTerms q)).
Proof.
  unfold findMatches. intros H. apply bind_Ok in H as (all & Hall & H).
  inversion H; subst; clear H. split; [apply unique_NoDup|].
  intros Hplain m Hm. apply (proj1 (unique_In _ _)) in Hm.
  assert (All : Forall (fun m => In (JS.toLowerCase m) (queryTerms q)) all).
  { revert Hall.
    apply (for_each_invariant _
             (Forall (fun m => In (JS.toLowerCase m) (queryTerms q))));
      [|constructor].
    intros acc term acc' Hterm Hacc Hstep.
    rewrite Forall_forall in Hplain.
    rewrite (RegExp_bounded_items term "gi" (Hplain term Hterm)) in Hstep.
    cbn [bind] in Hstep. inversion Hstep; subst; clear Hstep.
    apply Forall_app. split; [exact Hacc|]. apply Forall_forall. intros x Hx.
    unfold Regex.simpleMatcher in Hx.
    apply matchAll_In in Hx as (before & s & Hx).
    change (Regex.ignoreCase "gi") with true in Hx.
    apply matchItems_lower in Hx. rewrite Hx.
    change (textOf (Regex.WordB :: literal term ++ [Regex.WordB]))
      with (textOf (literal term ++ [Regex.WordB])).
    rewrite textOf_app, textOf_literal. simpl.
    rewrite MarkdownFacts.append_nil_r, (queryTerms_lower q term Hterm).
    exact Hterm. }
  rewrite Forall_forall in All. auto.
Qed.

(** X6. With both strategies disabled [search] answers every query with
    an empty result list. *)
Theorem X6_no_strategy_no_result
  (st : SearchService) (q : string) (requested : option Z) :
  enableSemanticSearch (config st) = false ->
  enableKeywordSearch (config st) = false ->
  search st q requested = Ok (mkResponse q [] 0).
Proof.
  intros Hs Hk. unfold search. rewrite Hs, Hk. cbn [bind].
  change (sortByScore []) with (@nil SearchResult). now rewrite slice0_nil.
Qed.

(** X7. With the keyword strategy enabled, as it is in the configuration the
    service starts with, [search] never answers: [keywordSearch] hands back a
    promise, which is passed on without [await], and the loop of
    [mergeResults] over it throws a [TypeError]; or [keywordSearch] itself
    throws on a term that is not a regular expression. *)
Theorem X7_keyword_strategy_makes_search_throw
  (st : SearchService) (q : string) (requested : option Z) :
  enableKeywordSearch (config st) = true ->
  exists e,
    search st q requested = Throw e
    /\ (e = TypeError "keywordResults is not iterable"
        \/ keywordSearch st q (effectiveLimit st requested) = Throw e).
Proof.
  intros H. unfold search. rewrite H.
  destruct (keywordSearch st q (effectiveLimit st requested)) as [kw|e] eqn:E.
  - apply keywordSearch_candidates in E as (found & _ & _ & ->).
    cbn [bind mergeResults]. eauto.
  - cbn [bind]. eauto.
Qed.

(** X8. A limit of 0 given to [search] is taken as no limit given
    ([maxResults || this.config.maxResults]): the configured maximum
    applies; and when the configured maximum is itself 0, a search without
    a limit returns no result (here with the keyword strategy disabled, so
    that [search] returns). *)
Theorem X8_zero_limit_is_no_limit (st : SearchService) (q : string) :
  search st q (Some 0%Z) = search st q None
  /\ (maxResults (config st) = 0%Z ->
      enableKeywordSearch (config st) = false ->
      search st q None = Ok (mkResponse q [] 0)).
Proof.
  split; [reflexivity|]. intros Hmax Hk.
  unfold search. rewrite Hk. cbn [bind effectiveLimit]. rewrite Hmax.
  reflexivity.
Qed.

(** X9. With the vector strategy alone and a limit that is not negative,
    the sort and the cut at the end of [search] change nothing: the results
    are the candidates of [semanticSearch] as they are. *)
Theorem X9_final_sort_and_cut_are_idle
  (st : SearchService) (q : string) (requested : option Z) :
  enableSemanticSearch (config st) = true ->
  enableKeywordSearch (config st) = false ->
  (0 <= effectiveLimit st requested)%Z ->
  search st q requested
  = Ok (mkResponse q (semanticSearch st q (effectiveLimit st requested))
          (List.length (semanticSearch st q (effectiveLimit st requested)))).
Proof.
  intros Hs Hk Hlimit. unfold search. rewrite Hs, Hk. cbn [bind].
  set (limit := effectiveLimit st requested) in *.
  assert (E : JS.slice0 (sortByScore (semanticSearch st q limit)) limit
              = semanticSearch st q limit); [|now rewrite E].
  destruct (semanticSearch_sorted_cut st q limit) as (found & ->).
  rewrite (sortByScore_sorted_id (JS.slice0 _ _)).
  - unfold JS.slice0. destruct (Z.ltb_spec limit 0); [lia|].
    rewrite firstn_firstn. f_equal. lia.
  - eapply prefix_sorted; [apply slice0_prefix | apply sortByScore_sorted].
Qed.

End MoreSearch.

Lemma X3_vector_candidates_witness :
  isReady (Search.embeddingService Examples.indexedOnlyVector) = true
  /\ In (section Examples.fontsResult) (Search.sections Examples.indexedOnlyVector)
  /\ exists queryEmbedding e,
       generateEmbedding (Search.embeddingService Examples.indexedOnlyVector) "brand"
       = Ok queryEmbedding
       /\ embedding (section Examples.fontsResult) = Some e
       /\ Search.cosineSimilarity (host := Examples.demoHost) queryEmbedding e
          = Ok (score Examples.fontsResult)
       /\ (minScore (Search.config Examples.indexedOnlyVector)
           <= score Examples.fontsResult)%Q
       /\ Search.findMatches (host := Examples.demoHost) "brand"
            (content (section Examples.fontsResult))
          = Ok (matches Examples.fontsResult).
Proof.
  apply (X3_vector_candidates_reach_min_score (host := Examples.demoHost)
           Examples.indexedOnlyVector "brand" 10 Examples.fontsResult).
  vm_compute. left. reflexivity.
Defined.

Lemma X4_vector_strategy_silent_witness :
  Search.semanticSearch (host := Examples.demoHost) Examples.indexedOnlyVector "c++" 10
  = [].
Proof.
  apply (X4_vector_strategy_silent_on_rejected_terms (host := Examples.demoHost)).
  intros text. eexists. reflexivity.
Defined.

Lemma X5_findMatches_witness :
  NoDup ["brands"; "Brands"; "BRANDS"; "fonts"]
  /\ (Forall (fun term => allChars plainChar term = true)
             (Search.queryTerms "Brands fonts") ->
      forall m, In m ["brands"; "Brands"; "BRANDS"; "fonts"] ->
                In (JS.toLowerCase m) (Search.queryTerms "Brands fonts")).
Proof.
  apply (X5_findMatches_distinct_and_among_terms (host := Examples.demoHost)
           "Brands fonts" "brands Brands BRANDS fonts").
  reflexivity.
Defined.

Lemma X6_no_strategy_witness :
  Search.search (host := Examples.demoHost) Examples.indexedNoStrategy "brand" None
  = Ok (mkResponse "brand" [] 0).
Proof.
  apply (X6_no_strategy_no_result (host := Examples.demoHost)); reflexivity.
Defined.

Lemma X7_keyword_strategy_witness :
  exists e,
    Search.search (host := Examples.demoHost) Examples.indexed "brand" None = Throw e
    /\ (e = TypeError "keywordResults is not iterable"
        \/ Search.keywordSearch (host := Examples.demoHost) Examples.indexed "brand"
             (Search.effectiveLimit Examples.indexed None) = Throw e).
Proof.
  apply (X7_keyword_strategy_makes_search_throw (host := Examples.demoHost)).
  reflexivity.
Defined.

Lemma X9_final_sort_witness :
  Search.search (host := Examples.demoHost) Examples.indexedOnlyVector "brand" None
  = Ok (mkResponse "brand"
          (Search.semanticSearch (host := Examples.demoHost)
             Examples.indexedOnlyVector "brand"
             (Search.effectiveLimit Examples.indexedOnlyVector None))
          (List.length
             (Search.semanticSearch (host := Examples.demoHost)
                Examples.indexedOnlyVector "brand"
                (Search.effectiveLimit Examples.indexedOnlyVector None)))).
Proof.
  apply (X9_final_sort_and_cut_are_idle (host := Examples.demoHost)).
  - reflexivity.
  - reflexivity.
  - vm_compute. discriminate.
Defined.

(** ** The index and the configuration *)

Section Index.
Import Search.
Context {host : Host}.

Lemma map_all_throws {A B : Type} (f : A -> result B) (l : list A) (x : A) (e : error) :
  In x l -> f x = Throw e -> exists e', map_all f l = Throw e'.
Proof.
  intros Hin Hx. induction l as [|y l IH]; [destruct Hin|]. simpl.
  destruct (f y) as [b|e1] eqn:E; simpl; [|eauto].
  destruct Hin as [->|Hin]; [congruence|].
  destruct (IH Hin) as (e' & ->). simpl. eauto.
Qed.

(** X10. The index is rebuilt as a whole or not at all: when the embedding
    service rejects the text of one of the new sections, [initialize] is
    rejected and the service keeps the sections and the configuration it
    had; so does the service after an [updateSections] whose rebuild has
    run to that end. *)
Theorem X10_failed_rebuild_keeps_the_index
  (st : SearchService) (newSections : list DocumentSection)
  (es : EmbeddingService) (s : DocumentSection) (e : error) :
  embedding_initialize (embeddingService st) = Ok es ->
  In s newSections ->
  generateEmbedding es (title s ++ " " ++ content s) = Throw e ->
  (exists e', snd (initialize st newSections) = Throw e')
  /\ sections (fst (initialize st newSections)) = sections st
  /\ config (fst (initialize st newSections)) = config st
  /\ sections (settle (fst (updateSections st newSections))
                      (snd (updateSections st newSections)))
     = sections st.
Proof.
  intros Hes Hs He. unfold settle, updateSections. cbn [fst snd rebuild].
  unfold initialize. rewrite Hes.
  destruct (map_all_throws (embedSection es) newSections s e Hs) as (e' & ->).
  { unfold embedSection. now rewrite He. }
  cbn [fst snd sections config]. eauto.
Qed.

(** X11. Two [updateConfig] in a row are one [updateConfig] with the two
    partial configurations laid over each other, the later one on top; in
    particular an [updateConfig] made twice is made once. *)
Theorem X11_updateConfig_composes
  (st : SearchService) (first second : PartialSearchConfig) :
  updateConfig (updateConfig st first) second = updateConfig st (overlay first second)
  /\ updateConfig (updateConfig st first) first = updateConfig st first.
Proof.
  destruct first as [[a|] [b|] [c|] [d|]], second as [[a'|] [b'|] [c'|] [d'|]];
    split; reflexivity.
Qed.

End Index.

Lemma X10_failed_rebuild_witness :
  (exists e', snd (Search.initialize (host := Examples.demoHost)
                     Examples.shortTextIndexed [Examples.fonts; Examples.logos])
              = Throw e')
  /\ Search.sections (fst (Search.initialize (host := Examples.demoHost)
                             Examples.shortTextIndexed [Examples.fonts; Examples.logos]))
     = Search.sections Examples.shortTextIndexed
  /\ Search.config (fst (Search.initialize (host := Examples.demoHost)
                           Examples.shortTextIndexed [Examples.fonts; Examples.logos]))
     = Search.config Examples.shortTextIndexed
  /\ Search.sections
       (Search.settle (host := Examples.demoHost)
          (fst (Search.updateSections Examples.shortTextIndexed
                  [Examples.fonts; Examples.logos]))
          (snd (Search.updateSections Examples.shortTextIndexed
                  [Examples.fonts; Examples.logos])))
     = Search.sections Examples.shortTextIndexed.
Proof.
  apply (X10_failed_rebuild_keeps_the_index (host := Examples.demoHost)
           Examples.shortTextIndexed [Examples.fonts; Examples.logos]
           (mkEmbedding true (generateEmbedding Examples.shortTextService))
           Examples.logos (EmbeddingError "text too long")).
  - reflexivity.
  - simpl. right. left. reflexivity.
  - reflexivity.
Defined.

(** ** Trimming *)

Module TrimFacts.
Import StringFacts.

Lemma trimStart_length s : String.length (JS.trimStart s) <= String.length s.
Proof.
  induction s as [|c s IH]; simpl; auto.
  destruct (JS.isWhiteSpace c); simpl; lia.
Qed.

Lemma trimEnd_length s : String.length (JS.trimEnd s) <= String.length s.
Proof.
  induction s as [|c s IH]; simpl; auto.
  destruct (JS.trimEnd s); [destruct (JS.isWhiteSpace c)|]; simpl in *; lia.
Qed.

Lemma trim_length s : String.length (JS.trim s) <= String.length s.
Proof.
  unfold JS.trim. pose proof (trimEnd_length (JS.trimStart s)).
  pose proof (trimStart_length s). lia.
Qed.

Lemma trimEnd_idem s : JS.trimEnd (JS.trimEnd s) = JS.trimEnd s.
Proof.
  induction s as [|c s IH]; auto. cbn [JS.trimEnd].
  destruct (JS.trimEnd s) as [|d t] eqn:E.
  - destruct (JS.isWhiteSpace c) eqn:Hc; auto. simpl. now rewrite Hc.
  - simpl in *. now rewrite IH.
Qed.

(** [trimEnd] keeps a first character that is not whitespace. *)
Lemma trimEnd_keeps_head c s :
  JS.isWhiteSpace c = false -> exists t, JS.trimEnd (String c s) = String c t.
Proof.
  intros H. cbn [JS.trimEnd]. destruct (JS.trimEnd s); [rewrite H|]; eauto.
Qed.

Lemma trim_idem s : JS.trim (JS.trim s) = JS.trim s.
Proof.
  unfold JS.trim.
  destruct (trimStart_shape s) as [E|(c & t & E & Hc)]; rewrite E; auto.
  destruct (trimEnd_keeps_head c t Hc) as (u & Hu). rewrite Hu at 1.
  cbn [JS.trimStart]. rewrite Hc, <- Hu. apply trimEnd_idem.
Qed.

Lemma trimStart_drop s :
  JS.drop (Markdown.countLeading JS.isWhiteSpace s) s = JS.trimStart s.
Proof.
  induction s as [|c s IH]; auto. simpl.
  destruct (JS.isWhiteSpace c); auto.
Qed.

Lemma trimStart_idem s : JS.trimStart (JS.trimStart s) = JS.trimStart s.
Proof.
  destruct (trimStart_shape s) as [E|(c & t & E & Hc)]; rewrite E; auto.
  simpl. now rewrite Hc.
Qed.

End TrimFacts.

(** ** The search route *)

Section Route.
Import Search Routes TrimFacts.
Context {host : Host}.

Lemma search_query st q requested resp :
  search st q requested = Ok resp -> query resp = q.
Proof.
  unfold search. intros H. apply bind_Ok in H as (found & _ & H).
  now inversion H.
Qed.

(** X12. When the search route answers, [q] was a string that is not
    blank and has at most 500 characters, and the query that was searched
    for, which the answer repeats, is that string trimmed: between 1 and
    500 characters. *)
Theorem X12_route_searches_for_the_trimmed_query
  (st : SearchService) (q limit : QueryValue) (resp : SearchResponse) :
  searchHandler st q limit = Ok resp ->
  exists text,
    q = Text text
    /\ ~ blank text
    /\ String.length text <= 500
    /\ query resp = JS.trim text
    /\ 1 <= String.length (query resp) <= 500.
Proof.
  unfold searchHandler. destruct q as [|[|c t]|other]; try discriminate.
  set (text := String c t).
  destruct (Nat.eqb_spec (String.length (JS.trim text)) 0) as [|Hne];
    [discriminate|].
  destruct (Nat.ltb_spec 500 (String.length text)) as [|Hlen]; [discriminate|].
  intros H.
  assert (Hq : query resp = JS.trim text).
  { destruct (parseLimit limit) as [[n|]|]; try discriminate.
    - destruct ((n <? 1)%Z || (100 <? n)%Z); [discriminate|].
      now apply search_query in H.
    - now apply search_query in H. }
  exists text. repeat split; auto.
  - unfold blank. intros E. now rewrite E in Hne.
  - rewrite Hq. lia.
  - rewrite Hq. pose proof (trim_length text). lia.
Qed.

End Route.

Lemma X12_route_witness :
  exists text,
    Routes.Text " brand " = Routes.Text text
    /\ ~ blank text
    /\ String.length text <= 500
    /\ query (mkResponse "brand" [Examples.fontsResult] 1) = JS.trim text
    /\ 1 <= String.length (query (mkResponse "brand" [Examples.fontsResult] 1)) <= 500.
Proof.
  apply (X12_route_searches_for_the_trimmed_query (host := Examples.demoHost)
           Examples.indexedOnlyVector (Routes.Text " brand ") Routes.Absent).
  reflexivity.
Defined.

(** ** The sections of a document *)

Module SectionFacts.
Import Markdown TrimFacts.

Lemma natToString_inj n m : JS.natToString n = JS.natToString m -> n = m.
Proof.
  unfold JS.natToString. intros H.
  assert (N : forall k, Nat.to_uint k <> Decimal.Nil).
  { intros k. rewrite <- (DecimalNat.Unsigned.of_to k), DecimalNat.Unsigned.to_of.
    apply DecimalFacts.unorm_nonnil. }
  apply DecimalNat.Unsigned.to_uint_inj.
  apply (f_equal NilZero.uint_of_string) in H.
  rewrite !NilZero.usu in H by apply N. now inversion H.
Qed.

Lemma sectionName_inj n m : sectionName n = sectionName m -> n = m.
Proof.
  unfold sectionName. intros H. apply natToString_inj.
  simpl in H. now inversion H.
Qed.

Lemma NoDup_sectionNames n : NoDup (map sectionName (seq 0 n)).
Proof.
  apply Finite.Injective_map_NoDup; [|apply seq_NoDup].
  intros a b. apply sectionName_inj.
Qed.

Lemma headingMatch_level line k text :
  headingMatch line = Some (k, text) -> 1 <= k <= 6.
Proof.
  unfold headingMatch.
  set (n := countLeading (Ascii.eqb "#") line).
  destruct (Nat.leb_spec 1 n), (Nat.leb_spec n 6); try discriminate.
  cbn [andb].
  destruct (1 <=? countLeading JS.isWhiteSpace (JS.drop n line));
    [|discriminate].
  destruct (JS.drop _ (JS.drop n line)).
  - destruct (lastChar _) as [c|]; [|discriminate].
    destruct (andb _ _); [|discriminate]. intros E. inversion E; subst. lia.
  - destruct (anyChar _ _); [discriminate|]. intros E. inversion E; subst. lia.
Qed.

Lemma tiles_app l : forall l' a b c,
  tiles l a b -> tiles l' b c -> tiles (l ++ l') a c.
Proof.
  induction l as [|s l IH]; simpl; intros l' a b c H H'.
  - now subst.
  - destruct H as (H1 & H2 & H3). repeat split; auto. eapply IH; eauto.
Qed.

Lemma tilesTo_snoc l s next :
  tilesTo l next -> startLine s = next -> startLine s <= endLine s ->
  tilesTo (l ++ [s]) (S (endLine s)).
Proof.
  unfold tilesTo. destruct l as [|x l]; simpl; intros H E Hle.
  - auto.
  - destruct H as (H1 & H2 & H3). repeat split; auto.
    eapply tiles_app; [exact H3|]. simpl. auto.
Qed.

Lemma heads_pushCurrent st last : map headOf (pushCurrent st last) = heads st.
Proof.
  unfold pushCurrent, heads. destruct (currentSection st); [|now rewrite app_nil_r].
  now rewrite map_app.
Qed.

Section WithHost.
Context {host : Host}.

Lemma Inv_close i st o last :
  LoopInv i st -> currentSection st = Some o -> o_startLine o <= last ->
  let l := sections st ++ [closeSection o (sectionContent st) last] in
  map id l = map sectionName (seq 0 (List.length l))
  /\ Forall shaped l
  /\ tilesTo l (S last).
Proof.
  intros [Hn Hs Hc] E Hlast. rewrite E in Hc.
  destruct Hc as (Hid & _ & _ & Ht & Hlv & Htitle & Hslug).
  cbv zeta. rewrite length_app, Nat.add_1_r, seq_S, !map_app. simpl.
  repeat split.
  - now rewrite Hn, Hid.
  - apply Forall_app. split; [exact Hs|]. constructor; [|constructor].
    unfold shaped, closeSection. simpl. repeat split; try tauto.
    apply trim_idem.
  - change (S last) with (S (endLine (closeSection o (sectionContent st) last))).
    apply (tilesTo_snoc _ _ (o_startLine o)); simpl; auto.
Qed.

Lemma Inv_step i st line : LoopInv i st -> LoopInv (S i) (step st i line).
Proof.
  intros H. unfold step.
  destruct (headingMatch line) as [[k text]|] eqn:Hm.
  - pose proof (headingMatch_level _ _ _ Hm) as Hk.
    destruct (currentSection st) as [o|] eqn:E.
    + assert (Hi : o_startLine o <= i - 1).
      { destruct H as [_ _ Hc]. rewrite E in Hc. lia. }
      destruct (Inv_close i st o (i - 1) H E Hi) as (Hn & Hs & Ht).
      destruct H as [_ _ Hc]. rewrite E in Hc.
      destruct Hc as (_ & Hidx & Hstart & _).
      constructor; unfold pushCurrent; simpl; rewrite E; auto.
      rewrite length_app, Nat.add_1_r. repeat split; auto; try lia.
      * now rewrite Hidx.
      * replace (S (i - 1)) with i in Ht by lia. exact Ht.
      * apply trim_idem.
    + destruct H as [Hn Hs Hc]. rewrite E in Hc. destruct Hc as (Hnil & Hidx).
      constructor; unfold pushCurrent; simpl; rewrite E; auto.
      rewrite Hnil, Hidx. simpl. repeat split; auto; try lia.
      apply trim_idem.
  - destruct (currentSection st) as [o|] eqn:E.
    + destruct H as [Hn Hs Hc]. rewrite E in Hc.
      constructor; simpl; auto. rewrite ?E. intuition lia.
    + destruct H as [Hn Hs Hc]. constructor; auto.
      rewrite E in *. exact Hc.
Qed.

Lemma Inv_loop lines : forall i st,
  LoopInv i st -> LoopInv (i + List.length lines) (loop lines i st).
Proof.
  induction lines as [|line rest IH]; intros i st H; simpl.
  - now rewrite Nat.add_0_r.
  - rewrite <- Nat.add_succ_comm. apply IH. now apply Inv_step.
Qed.

Lemma Inv_start : LoopInv 0 (mkLoop [] None [] 0).
Proof. constructor; simpl; auto. Qed.

Lemma split_nonempty sep s : JS.split sep s <> [].
Proof.
  induction s as [|c s IH]; simpl; [discriminate|].
  destruct (Ascii.eqb c sep); [discriminate|].
  destruct (JS.split sep s); discriminate.
Qed.

Lemma Inv_extractSections text :
  let l := extractSections text in
  map id l = map sectionName (seq 0 (List.length l))
  /\ Forall shaped l
  /\ tilesTo l (List.length (JS.split LF text)).
Proof.
  unfold extractSections. set (lines := JS.split LF text).
  pose proof (Inv_loop lines 0 _ Inv_start) as H. simpl in H.
  set (st := loop lines 0 _) in *. cbv zeta.
  unfold pushCurrent. destruct (currentSection st) as [o|] eqn:E.
  - assert (Hlen : List.length lines <> 0).
    { pose proof (split_nonempty LF text). fold lines in H0.
      destruct lines; simpl; congruence. }
    assert (Hlast : o_startLine o <= List.length lines - 1).
    { destruct H as [_ _ Hc]. rewrite E in Hc. lia. }
    destruct (Inv_close _ st o _ H E Hlast) as (Hn & Hs & Ht).
    repeat split; auto.
    replace (List.length lines) with (S (List.length lines - 1)) at 2 by lia.
    exact Ht.
  - destruct H as [Hn Hs Hc]. rewrite E in Hc. destruct Hc as (-> & _).
    simpl. auto.
Qed.

Lemma heads_loop lines : forall i st,
  heads (loop lines i st) = heads st ++ headings lines i.
Proof.
  induction lines as [|line rest IH]; intros i st; simpl.
  - now rewrite app_nil_r.
  - rewrite IH. unfold step.
    destruct (headingMatch line) as [[k text]|].
    + unfold heads at 1. simpl. rewrite heads_pushCurrent.
      now rewrite <- app_assoc.
    + destruct (currentSection st) as [o|] eqn:E; auto.
      unfold heads. simpl. now rewrite E.
Qed.

Lemma headings_extractSections text :
  map headOf (extractSections text) = headings (JS.split LF text) 0.
Proof.
  unfold extractSections. now rewrite heads_pushCurrent, heads_loop.
Qed.

End WithHost.

End SectionFacts.

Section Sections.
Import Markdown SectionFacts.
Context {host : Host}.

(** X13. The sections of a document are numbered in their order:
    the identifiers are "section-0", "section-1", and so on, and no two
    sections share one. *)
Theorem X13_section_identifiers_count_up (text : string) :
  map id (extractSections text)
  = map sectionName (seq 0 (List.length (extractSections text)))
  /\ NoDup (map id (extractSections text)).
Proof.
  destruct (Inv_extractSections text) as (Hn & _ & _).
  split; [exact Hn|]. rewrite Hn. apply NoDup_sectionNames.
Qed.

(** X14. There is one section for each heading line of the document (a
    line of the form [/^(#{1,6})\s+(.+)$/]), in the order of the lines: its
    start line is the number of that line, its level the number of marks
    and its title the trimmed text of the heading.  A document without a
    heading line has no section. *)
Theorem X14_one_section_per_heading_line (text : string) :
  map (fun s => (startLine s, level s, title s)) (extractSections text)
  = headings (JS.split LF text) 0
  /\ List.length (extractSections text)
     = List.length (headings (JS.split LF text) 0)
  /\ (headings (JS.split LF text) 0 = [] -> extractSections text = []).
Proof.
  pose proof (headings_extractSections text) as H. unfold headOf in H.
  split; [exact H|]. split.
  - rewrite <- H. now rewrite length_map.
  - intros E. rewrite E in H. now destruct (extractSections text).
Qed.

(** X15. The sections cover the lines of the document from the first
    heading line to the last line, without gap or overlap: each section
    starts at its heading, ends no earlier, the next one starts on the line
    after its end, and the last one ends with the document. *)
Theorem X15_sections_tile_the_lines (text : string) (s : DocumentSection)
  (rest : list DocumentSection) :
  extractSections text = s :: rest ->
  tiles (s :: rest) (startLine s) (List.length (JS.split LF text)).
Proof.
  intros E. destruct (Inv_extractSections text) as (_ & _ & Ht).
  rewrite E in Ht. exact Ht.
Qed.

(** X16. Every section has a level from 1 to 6, a title and a body
    without whitespace at either end, the slug of its title, and no vector
    yet. *)
Theorem X16_sections_are_well_formed (text : string) :
  Forall (fun s => 1 <= level s <= 6
                   /\ JS.trim (title s) = title s
                   /\ JS.trim (content s) = content s
                   /\ slug s = slugify (title s)
                   /\ embedding s = None)
         (extractSections text).
Proof. exact (proj1 (proj2 (Inv_extractSections text))). Qed.

End Sections.

Lemma X15_sections_tile_witness :
  tiles [Examples.sectionA; Examples.sectionB] (startLine Examples.sectionA)
        (List.length (JS.split Markdown.LF Examples.twoSections)).
Proof.
  apply (X15_sections_tile_the_lines (host := Examples.demoHost)).
  reflexivity.
Defined.

(** ** Lines and sections *)

Module LineFacts.
Import Markdown SectionFacts.

Lemma tiles_le l : forall a b, tiles l a b -> a <= b.
Proof.
  induction l as [|s l IH]; simpl; intros a b H; [lia|].
  destruct H as (H1 & H2 & H3). apply IH in H3. lia.
Qed.

Lemma tiles_find l (n : Z) : forall a b,
  tiles l a b ->
  ((Z.of_nat a <= n < Z.of_nat b)%Z ->
   exists found,
     findSectionByLineNumber l n = Some found
     /\ In found l
     /\ (Z.of_nat (startLine found) <= n <= Z.of_nat (endLine found))%Z)
  /\ ((n < Z.of_nat a)%Z \/ (Z.of_nat b <= n)%Z ->
      findSectionByLineNumber l n = None).
Proof.
  unfold findSectionByLineNumber.
  induction l as [|s l IH]; simpl; intros a b H.
  - split; [lia | reflexivity].
  - destruct H as (H1 & H2 & H3). pose proof (tiles_le _ _ _ H3) as Hb.
    destruct (IH _ _ H3) as (IH1 & IH2).
    destruct (Z.leb_spec (Z.of_nat (startLine s)) n) as [L1|L1];
      destruct (Z.leb_spec n (Z.of_nat (endLine s))) as [L2|L2]; cbn [andb].
    + split; [|lia]. intros _. exists s. repeat split; auto.
    + split.
      * intros Hn. destruct IH1 as (found & Hf & Hin & Hr); [lia|].
        exists found. auto.
      * intros Hn. apply IH2. lia.
    + split; [lia|]. intros _. apply IH2. lia.
    + split; [lia|]. intros _. apply IH2. lia.
Qed.

(** A line that ends with a carriage return is no heading line: the text
    of a heading is matched by [.+], which takes no line terminator, up to
    the end of the line. *)
Lemma lastChar_drop n : forall s c t,
  JS.drop n s = String c t -> lastChar (JS.drop n s) = lastChar s.
Proof.
  induction n as [|n IH]; intros [|d s] c t H; simpl in *; auto.
  rewrite (IH _ _ _ H). destruct s; [destruct n; discriminate | reflexivity].
Qed.

Lemma lastChar_anyChar p s c : lastChar s = Some c -> p c = true -> anyChar p s = true.
Proof.
  induction s as [|d s IH]; [discriminate|]. intros H Hp. simpl.
  destruct s as [|d' s].
  - inversion H; subst. now rewrite Hp.
  - rewrite IH; auto. apply orb_true_r.
Qed.

Lemma headingMatch_cr line :
  lastChar line = Some "013"%char -> headingMatch line = None.
Proof.
  intros H. unfold headingMatch.
  set (k := countLeading (Ascii.eqb "#") line).
  destruct ((1 <=? k) && (k <=? 6)
            && (1 <=? countLeading JS.isWhiteSpace (JS.drop k line))) eqn:C; auto.
  apply andb_true_iff in C as [_ Hw]. apply Nat.leb_le in Hw.
  assert (Hrest : lastChar (JS.drop k line) = Some "013"%char).
  { destruct (JS.drop k line) as [|c t] eqn:E; [simpl in Hw; lia|].
    rewrite <- E, (lastChar_drop _ _ _ _ E). exact H. }
  destruct (JS.drop _ (JS.drop k line)) as [|c t] eqn:E.
  - rewrite Hrest. simpl. now rewrite andb_false_r.
  - assert (L : lastChar (String c t) = Some "013"%char).
    { rewrite <- E, (lastChar_drop _ _ _ _ E). exact Hrest. }
    now rewrite (lastChar_anyChar _ _ _ L).
Qed.

Lemma headings_none lines : forall i,
  Forall (fun line => headingMatch line = None) lines -> headings lines i = [].
Proof.
  induction lines as [|line rest IH]; intros i H; simpl; auto.
  inversion H as [|? ? Hl Hr]; subst. rewrite Hl. now apply IH.
Qed.

Lemma split_escape text :
  JS.split LF (escapeMarkdown text) = map escapeMarkdown (JS.split LF text).
Proof.
  induction text as [|c s IH]; auto.
  cbn [escapeMarkdown JS.split].
  destruct (Ascii.eqb_spec c LF) as [->|Hc].
  - simpl. now rewrite IH.
  - pose proof (split_nonempty LF s) as Hne.
    destruct (isSpecial c) eqn:Sp; cbn [JS.split].
    + destruct (Ascii.eqb_spec c LF); [contradiction|]. rewrite IH.
      destruct (JS.split LF s); [congruence|]. simpl. now rewrite Sp.
    + destruct (Ascii.eqb_spec c LF); [contradiction|]. rewrite IH.
      destruct (JS.split LF s); [congruence|]. simpl. now rewrite Sp.
Qed.

Lemma headingMatch_escape line : headingMatch (escapeMarkdown line) = None.
Proof.
  unfold headingMatch.
  assert (E : countLeading (Ascii.eqb "#") (escapeMarkdown line) = 0).
  { destruct line as [|c s]; auto. cbn [escapeMarkdown].
    destruct (isSpecial c) eqn:Sp; cbn [countLeading]; auto.
    destruct (Ascii.eqb_spec "#"%char c) as [<-|]; [discriminate | reflexivity]. }
  now rewrite E.
Qed.

End LineFacts.

Section Lines.
Import Markdown SectionFacts LineFacts.
Context {host : Host}.

(** X17. [findSectionByLineNumber] on the sections of a document: a line
    from the first heading line on belongs to a section, which is found and
    which holds the line; a line before the first heading, a line after the
    last one and a negative number give [null]. *)
Theorem X17_lines_are_found_in_their_section
  (text : string) (s : DocumentSection) (rest : list DocumentSection) (n : Z) :
  extractSections text = s :: rest ->
  ((Z.of_nat (startLine s) <= n < Z.of_nat (List.length (JS.split LF text)))%Z ->
   exists found,
     findSectionByLineNumber (s :: rest) n = Some found
     /\ In found (s :: rest)
     /\ (Z.of_nat (startLine found) <= n <= Z.of_nat (endLine found))%Z)
  /\ ((n < Z.of_nat (startLine s))%Z
      \/ (Z.of_nat (List.length (JS.split LF text)) <= n)%Z ->
      findSectionByLineNumber (s :: rest) n = None).
Proof.
  intros E. apply tiles_find.
  destruct (Inv_extractSections text) as (_ & _ & Ht). rewrite E in Ht. exact Ht.
Qed.

(** X18. A document whose lines all end with a carriage return, as in a
    file with the line ends of DOS, has no section: no line of it is a
    heading line. *)
Theorem X18_no_section_with_carriage_returns (text : string) :
  Forall (fun line => line = EmptyString \/ lastChar line = Some "013"%char)
         (JS.split LF text) ->
  extractSections text = [].
Proof.
  intros H. pose proof (headings_extractSections text) as Hh.
  rewrite headings_none in Hh; [now destruct (extractSections text)|].
  eapply Forall_impl; [|exact H]. intros line [->|Hcr]; [reflexivity|].
  now apply headingMatch_cr.
Qed.

(** X19. A text that went through [escapeMarkdown] has no heading line
    and hence no section. *)
Theorem X19_escaped_text_has_no_section (text : string) :
  extractSections (escapeMarkdown text) = [].
Proof.
  pose proof (headings_extractSections (escapeMarkdown text)) as Hh.
  rewrite split_escape, headings_none in Hh;
    [now destruct (extractSections (escapeMarkdown text))|].
  apply Forall_forall. intros line Hin. apply in_map_iff in Hin as (l & <- & _).
  apply headingMatch_escape.
Qed.

End Lines.

(** X20. [escapeMarkdown] loses nothing: two texts with the same escaped
    form are the same text. *)
Theorem X20_escapeMarkdown_is_injective (a b : string) :
  Markdown.escapeMarkdown a = Markdown.escapeMarkdown b -> a = b.
Proof.
  revert b. induction a as [|c a IH]; intros [|d b] H; auto.
  - simpl in H. destruct (Markdown.isSpecial d); discriminate.
  - simpl in H. destruct (Markdown.isSpecial c); discriminate.
  - simpl in H.
    destruct (Markdown.isSpecial c) eqn:Sc, (Markdown.isSpecial d) eqn:Sd;
      inversion H; subst.
    + f_equal. now apply IH.
    + simpl in Sd. discriminate.
    + simpl in Sc. discriminate.
    + f_equal. now apply IH.
Qed.

Lemma X17_lines_witness :
  ((Z.of_nat (startLine Examples.sectionA) <= 2
    < Z.of_nat (List.length (JS.split Markdown.LF Examples.twoSections)))%Z ->
   exists found,
     Markdown.findSectionByLineNumber [Examples.sectionA; Examples.sectionB] 2
     = Some found
     /\ In found [Examples.sectionA; Examples.sectionB]
     /\ (Z.of_nat (startLine found) <= 2 <= Z.of_nat (endLine found))%Z)
  /\ ((2 < Z.of_nat (startLine Examples.sectionA))%Z
      \/ (Z.of_nat (List.length (JS.split Markdown.LF Examples.twoSections)) <= 2)%Z ->
      Markdown.findSectionByLineNumber [Examples.sectionA; Examples.sectionB] 2 = None).
Proof.
  apply (X17_lines_are_found_in_their_section (host := Examples.demoHost)
           Examples.twoSections).
  reflexivity.
Defined.

Lemma X18_no_section_witness :
  Markdown.extractSections (host := Examples.demoHost) Examples.dosDocument = [].
Proof.
  apply (X18_no_section_with_carriage_returns (host := Examples.demoHost)).
  simpl. repeat (apply Forall_cons; [first [now left | now right]|]).
  apply Forall_nil.
Defined.

Lemma X20_escapeMarkdown_witness : "# a-b" = "# a-b".
Proof.
  apply (X20_escapeMarkdown_is_injective "# a-b" "# a-b"). reflexivity.
Defined.

(** ** The document service *)

Module DocumentFacts.
Import StringFacts TrimFacts.

(** [find] returns the first element that passes the test. *)
Lemma find_first {A : Type} (p : A -> bool) (l : list A) (x : A) :
  find p l = Some x ->
  exists k, nth_error l k = Some x
            /\ forall k' y, k' < k -> nth_error l k' = Some y -> p y = false.
Proof.
  induction l as [|a l IH]; simpl; [discriminate|].
  destruct (p a) eqn:E.
  - intros H. inversion H; subst. exists 0. split; [reflexivity|]. intros; lia.
  - intros H. destruct (IH H) as (k & Hk & Hbefore). exists (S k).
    split; [exact Hk|]. intros [|k'] y Hlt Hy; simpl in Hy.
    + now inversion Hy; subst.
    + apply (Hbefore k'); auto. lia.
Qed.

(** A string without whitespace at its end. *)
Lemma trimEnd_fixed c s :
  JS.trimEnd (String c s) = String c s ->
  (s = EmptyString /\ JS.isWhiteSpace c = false)
  \/ (s <> EmptyString /\ JS.trimEnd s = s).
Proof.
  cbn [JS.trimEnd]. destruct (JS.trimEnd s) as [|d t] eqn:E.
  - destruct (JS.isWhiteSpace c); [discriminate|]. intros H. inversion H. auto.
  - intros H. injection H as <-. right. split; [discriminate | reflexivity].
Qed.

(** The pieces of a string that does not end with whitespace are not
    empty, the first one aside when the string starts with whitespace. *)
Lemma splitWs_pieces s :
  s <> EmptyString -> JS.trimEnd s = s ->
  Forall (fun piece => piece <> EmptyString) (JS.splitWs true s)
  /\ Forall (fun piece => piece <> EmptyString) (tl (JS.splitWs false s)).
Proof.
  induction s as [|c s IH]; [congruence|]. intros _ H.
  cbn [JS.splitWs].
  destruct (trimEnd_fixed c s H) as [(-> & Hc)|(Hs & Ht)].
  - rewrite Hc. simpl. split; repeat constructor; discriminate.
  - destruct (IH Hs Ht) as (IH1 & IH2).
    destruct (JS.isWhiteSpace c).
    + split; [exact IH1 | exact IH1].
    + destruct (JS.splitWs false s) as [|l ls].
      * split; repeat constructor; discriminate.
      * simpl in IH2. split; [constructor; [discriminate | exact IH2] | exact IH2].
Qed.

Lemma filter_all {A : Type} (p : A -> bool) (l : list A) :
  Forall (fun x => p x = true) l -> filter p l = l.
Proof.
  induction 1 as [|x l Hx _ IH]; simpl; [|rewrite Hx, IH]; auto.
Qed.

(** The count of the pieces of a trimmed string and the count of its words
    differ for the empty string only. *)
Lemma pieces_of_trimmed t :
  JS.trim t = t ->
  List.length (JS.splitWhitespace t) = Nat.max 1 (Documents.countWords t).
Proof.
  intros H. unfold Documents.countWords, JS.splitWhitespace.
  destruct t as [|c u]; [reflexivity|].
  assert (Hc : JS.isWhiteSpace c = false).
  { unfold JS.trim in H. destruct (trimStart_shape (String c u)) as [E|(d & v & E & Hd)].
    - rewrite E in H. discriminate.
    - rewrite E in H. destruct (trimEnd_keeps_head d v Hd) as (w & Hw).
      rewrite Hw in H. inversion H; subst. exact Hd. }
  assert (He : JS.trimEnd (String c u) = String c u).
  { rewrite <- H at 1. unfold JS.trim. rewrite trimEnd_idem. exact H. }
  destruct (splitWs_pieces (String c u)) as (_ & Htl); [discriminate | exact He|].
  cbn [JS.splitWs] in *. rewrite Hc in *.
  assert (All : forall l ls, Forall (fun piece => piece <> "") ls ->
            filter (fun word => 0 <? String.length word) (String c l :: ls)
            = String c l :: ls).
  { intros l ls F. apply filter_all. constructor; [reflexivity|].
    eapply Forall_impl; [|exact F]. intros [|a w] Hw; [congruence | reflexivity]. }
  destruct (JS.splitWs false u) as [|l ls].
  - reflexivity.
  - rewrite All by exact Htl. simpl. lia.
Qed.

Lemma startsWith_mark line :
  JS.startsWith "# " line = true -> exists rest, line = String "#" (String " " rest).
Proof.
  unfold JS.startsWith. destruct line as [|c [|d rest]]; cbn [String.prefix].
  - discriminate.
  - destruct (ascii_dec "#" c); discriminate.
  - destruct (ascii_dec "#" c) as [<-|]; [|discriminate].
    destruct (ascii_dec " " d) as [<-|]; [|discriminate]. eauto.
Qed.

End DocumentFacts.

Section DocumentService.
Import Markdown SectionFacts DocumentFacts TrimFacts.
Context {host : Host}.

(** X21. Two sections whose headings have the same title get the same
    slug, and [getSection] returns the first of them for it: the second one
    is returned for no slug. *)
Theorem X21_only_the_first_of_equal_titles_is_reachable
  (baseName : string) (mtime : Z) (bytes : nat) (text : string)
  (i j : nat) (s1 s2 : DocumentSection) :
  nth_error (Documents.getSections
               (Some (Documents.parse baseName mtime bytes text))) i = Some s1 ->
  nth_error (Documents.getSections
               (Some (Documents.parse baseName mtime bytes text))) j = Some s2 ->
  i < j ->
  title s1 = title s2 ->
  slug s1 = slug s2
  /\ forall wanted,
       Documents.getSection (Some (Documents.parse baseName mtime bytes text)) wanted
       <> Some s2.
Proof.
  unfold Documents.getSection. cbn [Documents.getSections Documents.parse
                                     Documents.doc_sections].
  intros H1 H2 Hij Ht.
  destruct (Inv_extractSections text) as (Hn & Hs & _).
  rewrite Forall_forall in Hs.
  assert (Hslug : slug s1 = slug s2).
  { destruct (Hs s1 (nth_error_In _ _ H1)) as (_ & _ & _ & E1 & _).
    destruct (Hs s2 (nth_error_In _ _ H2)) as (_ & _ & _ & E2 & _).
    now rewrite E1, E2, Ht. }
  split; [exact Hslug|]. intros wanted Hfind.
  pose proof (find_some _ _ Hfind) as (_ & Hw). apply String.eqb_eq in Hw.
  apply find_first in Hfind as (k & Hk & Hbefore).
  assert (Hki : k <= i).
  { destruct (Nat.le_gt_cases k i) as [|Hlt]; auto.
    specialize (Hbefore i s1 Hlt H1). apply String.eqb_neq in Hbefore.
    congruence. }
  assert (Hnd : NoDup (map id (extractSections text))).
  { rewrite Hn. apply NoDup_sectionNames. }
  assert (Ek : nth_error (map id (extractSections text)) k = Some (id s2))
    by now rewrite nth_error_map, Hk.
  assert (Ej : nth_error (map id (extractSections text)) j = Some (id s2))
    by now rewrite nth_error_map, H2.
  assert (k = j); [|lia].
  eapply (proj1 (NoDup_nth_error _) Hnd); [|congruence].
  apply nth_error_Some. congruence.
Qed.

(** X22. The word count that [GET /api/doc/sections] gives for a section
    of a document is the number of words of its body, except that it is 1,
    not 0, for a section without a body. *)
Theorem X22_section_word_count_is_never_zero
  (text : string) (s : DocumentSection) :
  In s (extractSections text) ->
  DocRoutes.entry_wordCount (DocRoutes.entryOf s)
  = Nat.max 1 (Documents.countWords (content s)).
Proof.
  intros H. destruct (Inv_extractSections text) as (_ & Hs & _).
  rewrite Forall_forall in Hs. destruct (Hs s H) as (_ & _ & Hc & _).
  unfold DocRoutes.entryOf. cbn [DocRoutes.entry_wordCount].
  now apply pieces_of_trimmed.
Qed.

End DocumentService.

(** X23. Where the title of the document is read from a line that is a
    heading line as well, the two readings agree: the heading has level 1
    and its title is the title of the document. *)
Theorem X23_document_title_is_the_title_of_its_heading
  (line title : string) (k : nat) (text : string) :
  Documents.titleOfLine line = Some title ->
  Markdown.headingMatch line = Some (k, text) ->
  k = 1 /\ JS.trim text = title.
Proof.
  unfold Documents.titleOfLine.
  destruct (JS.startsWith "# " line) eqn:P; [|discriminate].
  apply DocumentFacts.startsWith_mark in P as (rest & ->).
  intros H. inversion H; subst; clear H. cbn [JS.drop].
  unfold Markdown.headingMatch.
  change (Markdown.countLeading (Ascii.eqb "#") (String "#" (String " " rest)))
    with 1.
  change (JS.drop 1 (String "#" (String " " rest))) with (String " " rest).
  change (Markdown.countLeading JS.isWhiteSpace (String " " rest))
    with (S (Markdown.countLeading JS.isWhiteSpace rest)).
  change (JS.drop (S (Markdown.countLeading JS.isWhiteSpace rest)) (String " " rest))
    with (JS.drop (Markdown.countLeading JS.isWhiteSpace rest) rest).
  rewrite TrimFacts.trimStart_drop. cbn [Nat.leb andb].
  destruct (JS.trimStart rest) as [|c u] eqn:E.
  - destruct (Markdown.lastChar (String " " rest)) as [d|] eqn:L; [|discriminate].
    destruct (andb _ _); [|discriminate]. intros H. inversion H; subst.
    split; [reflexivity|]. unfold JS.trim. rewrite E.
    assert (Hd : JS.isWhiteSpace d = true).
    { apply (MarkdownFacts.lastChar_leading JS.isWhiteSpace (String " " rest)); auto.
      change (Markdown.countLeading JS.isWhiteSpace (String " " rest))
        with (S (Markdown.countLeading JS.isWhiteSpace rest)).
      cbn [JS.drop]. now rewrite TrimFacts.trimStart_drop. }
    simpl. now rewrite Hd.
  - destruct (Markdown.anyChar _ _); [discriminate|]. intros H. inversion H; subst.
    split; [reflexivity|]. unfold JS.trim. rewrite <- E.
    now rewrite TrimFacts.trimStart_idem.
Qed.

Lemma X21_equal_titles_witness :
  slug Examples.firstIntroduction = slug Examples.secondIntroduction
  /\ forall wanted,
       Documents.getSection
         (Some (Documents.parse (host := Examples.demoHost) "overview" 0 34
                  Examples.twoIntroductions)) wanted
       <> Some Examples.secondIntroduction.
Proof.
  apply (X21_only_the_first_of_equal_titles_is_reachable (host := Examples.demoHost)
           "overview" 0%Z 34 Examples.twoIntroductions 0 1).
  - reflexivity.
  - reflexivity.
  - lia.
  - reflexivity.
Defined.

Lemma X22_section_word_count_witness :
  DocRoutes.entry_wordCount (DocRoutes.entryOf Examples.sectionB)
  = Nat.max 1 (Documents.countWords (content Examples.sectionB)).
Proof.
  apply (X22_section_word_count_is_never_zero (host := Examples.demoHost)
           Examples.twoSections).
  simpl. right. left. reflexivity.
Defined.

Lemma X23_document_title_witness : 1 = 1 /\ JS.trim "Brand  " = "Brand".
Proof.
  apply (X23_document_title_is_the_title_of_its_heading "#  Brand  " "Brand" 1 "Brand  ");
    reflexivity.
Defined.

(** ** The table of contents *)

Module OutlineFacts.
Import Markdown.

(** *** The nearest shallower section *)

Lemma lastBelow_Some levels : forall i lv j,
  lastBelow levels i lv = Some j ->
  i <= j < i + List.length levels
  /\ nth (j - i) levels 0 < lv
  /\ forall m, j < m < i + List.length levels -> lv <= nth (m - i) levels 0.
Proof.
  induction levels as [|x rest IH]; intros i lv j H; simpl in H; [discriminate|].
  destruct (lastBelow rest (S i) lv) as [j'|] eqn:E.
  - inversion H; subst. destruct (IH _ _ _ E) as (Hj & Hlt & Hafter).
    simpl List.length. split; [lia|]. split.
    + replace (j - i) with (S (j - S i)) by lia. exact Hlt.
    + intros m Hm. replace (m - i) with (S (m - S i)) by lia.
      apply Hafter. lia.
  - destruct (Nat.ltb_spec x lv) as [Hx|Hx]; [|discriminate].
    inversion H; subst. simpl List.length. split; [lia|].
    rewrite Nat.sub_diag. split; [exact Hx|].
    intros m Hm. replace (m - j) with (S (m - S j)) by lia. simpl.
    clear -E Hm. revert j m E Hm.
    induction rest as [|y rest IH]; intros j m E Hm; simpl in *; [lia|].
    destruct (lastBelow rest (S (S j)) lv) eqn:E'; [discriminate|].
    destruct (Nat.ltb_spec y lv); [discriminate|].
    destruct (m - S j) as [|k] eqn:K; [assumption|].
    specialize (IH (S j) m E'). replace (m - S (S j)) with k in IH by lia.
    apply IH. lia.
Qed.

Lemma lastBelow_None levels : forall i lv,
  lastBelow levels i lv = None ->
  forall m, m < List.length levels -> lv <= nth m levels 0.
Proof.
  induction levels as [|x rest IH]; intros i lv H m Hm; simpl in *; [lia|].
  destruct (lastBelow rest (S i) lv) eqn:E; [discriminate|].
  destruct (Nat.ltb_spec x lv); [discriminate|].
  destruct m as [|m]; [assumption|]. apply (IH (S i)); auto. lia.
Qed.

Lemma lastBelow_is_Some levels lv j :
  j < List.length levels -> nth j levels 0 < lv ->
  (forall m, j < m < List.length levels -> lv <= nth m levels 0) ->
  lastBelow levels 0 lv = Some j.
Proof.
  intros Hj Hlt Hafter.
  destruct (lastBelow levels 0 lv) as [j'|] eqn:E.
  - destruct (lastBelow_Some _ _ _ _ E) as (Hj' & Hlt' & Hafter').
    rewrite Nat.sub_0_r in Hlt'. f_equal.
    destruct (Nat.lt_trichotomy j' j) as [L|[L|L]]; auto.
    + specialize (Hafter' j). rewrite Nat.sub_0_r in Hafter'. lia.
    + specialize (Hafter j'). lia.
  - pose proof (lastBelow_None _ _ _ E j Hj). lia.
Qed.

Lemma lastBelow_is_None levels lv :
  (forall m, m < List.length levels -> lv <= nth m levels 0) ->
  lastBelow levels 0 lv = None.
Proof.
  intros H. destruct (lastBelow levels 0 lv) as [j|] eqn:E; auto.
  destruct (lastBelow_Some _ _ _ _ E) as (Hj & Hlt & _).
  rewrite Nat.sub_0_r in Hlt. specialize (H j). lia.
Qed.

Lemma nth_firstn {A : Type} (l : list A) (d : A) : forall c m,
  m < c -> nth m (firstn c l) d = nth m l d.
Proof.
  induction l as [|x l IH]; intros [|c] [|m] H; simpl; auto; try lia.
  apply IH. lia.
Qed.

Lemma parentOf_Some levels c p :
  parentOf levels c = Some p ->
  p < c /\ p < List.length levels
  /\ nth p levels 0 < nth c levels 0
  /\ forall m, p < m < c -> nth c levels 0 <= nth m levels 0.
Proof.
  unfold parentOf. intros H.
  destruct (lastBelow_Some _ _ _ _ H) as (Hp & Hlt & Hafter).
  rewrite Nat.sub_0_r in Hlt. rewrite length_firstn in Hp.
  rewrite nth_firstn in Hlt by lia.
  repeat split; try lia; auto.
  intros m Hm. destruct (Nat.lt_ge_cases m (List.length levels)) as [L|L].
  - specialize (Hafter m). rewrite Nat.sub_0_r, length_firstn in Hafter.
    rewrite nth_firstn in Hafter by lia. apply Hafter. lia.
  - rewrite (nth_overflow levels 0 (n := c)) by lia. lia.
Qed.

Lemma parentOf_None levels c :
  parentOf levels c = None -> c <= List.length levels ->
  forall m, m < c -> nth c levels 0 <= nth m levels 0.
Proof.
  unfold parentOf. intros H Hc m Hm.
  pose proof (lastBelow_None _ _ _ H m) as L.
  rewrite length_firstn, nth_firstn in L by lia. apply L. lia.
Qed.

Lemma parentOf_app levels more c :
  c < List.length levels -> parentOf (levels ++ more) c = parentOf levels c.
Proof.
  intros H. unfold parentOf. rewrite firstn_app, app_nth1 by lia.
  replace (c - List.length levels) with 0 by lia. simpl. now rewrite app_nil_r.
Qed.

Lemma parentOf_last levels lv :
  parentOf (levels ++ [lv]) (List.length levels) = lastBelow levels 0 lv.
Proof.
  unfold parentOf. rewrite firstn_app, Nat.sub_diag, firstn_all, nth_middle.
  simpl. now rewrite app_nil_r.
Qed.

Lemma sameParent_eq a b : sameParent a b = true <-> a = b.
Proof.
  destruct a as [x|], b as [y|]; simpl; try (split; congruence).
  rewrite Nat.eqb_eq. split; congruence.
Qed.

Lemma childrenOf_In levels q c :
  In c (childrenOf levels q) <-> c < List.length levels /\ parentOf levels c = q.
Proof.
  unfold childrenOf. rewrite filter_In, in_seq, sameParent_eq. intuition lia.
Qed.

Lemma childrenOf_snoc levels lv q :
  childrenOf (levels ++ [lv]) q
  = childrenOf levels q
    ++ (if sameParent (lastBelow levels 0 lv) q then [List.length levels] else []).
Proof.
  unfold childrenOf. rewrite length_app, Nat.add_1_r, seq_S, filter_app.
  simpl. rewrite parentOf_last. f_equal.
  apply filter_ext_in. intros c Hc. apply in_seq in Hc.
  now rewrite parentOf_app by lia.
Qed.

Lemma childrenOf_beyond levels n : List.length levels <= n -> childrenOf levels (Some n) = [].
Proof.
  intros H. destruct (childrenOf levels (Some n)) as [|c l] eqn:E; auto.
  assert (Hin : In c (childrenOf levels (Some n))) by (rewrite E; now left).
  apply childrenOf_In in Hin as (Hc & Hp). apply parentOf_Some in Hp. lia.
Qed.

(** *** The store *)

Lemma nth_error_pushChild h : forall p c i,
  nth_error (pushChild h p c) i
  = if i =? p then option_map (addChild c) (nth_error h i) else nth_error h i.
Proof.
  induction h as [|x h IH]; intros [|p] c [|i]; simpl; auto.
  now destruct (i =? p).
Qed.

Lemma length_pushChild h : forall p c, List.length (pushChild h p c) = List.length h.
Proof. induction h as [|x h IH]; intros [|p] c; simpl; auto. Qed.

Lemma nth_level (l : list DocumentSection) i s :
  nth_error l i = Some s -> nth i (map level l) 0 = level s.
Proof.
  intros H. apply nth_error_nth. now rewrite nth_error_map, H.
Qed.

(** What the [while] loop leaves on top of the stack is the nearest
    shallower section. *)
Lemma popDeeper_spec levels h lv :
  (forall i, i < List.length levels ->
     exists it, nth_error h i = Some it /\ item_level it = nth i levels 0) ->
  forall stack,
    chain levels stack ->
    boundOf stack <= List.length levels ->
    (forall m, boundOf stack <= m < List.length levels -> lv <= nth m levels 0) ->
    hd_error (popDeeper h lv stack) = lastBelow levels 0 lv
    /\ chain levels (popDeeper h lv stack)
    /\ boundOf (popDeeper h lv stack) <= List.length levels.
Proof.
  intros Hh stk. induction stk as [|top below IH]; intros Hc Hb Hcov.
  - simpl. split; [|auto]. symmetry. apply lastBelow_is_None.
    intros m Hm. apply Hcov. simpl. lia.
  - simpl in Hb. destruct (Hh top) as (it & Hit & Hlv); [lia|].
    cbn [popDeeper]. rewrite Hit.
    destruct Hc as (Hp & Hc).
    destruct (Nat.leb_spec lv (item_level it)) as [L|L].
    + apply IH; auto.
      * destruct below as [|p below']; simpl; [lia|].
        simpl in Hp. apply parentOf_Some in Hp. lia.
      * intros m Hm.
        destruct (Nat.lt_trichotomy m top) as [Hlt|[->|Hgt]].
        -- assert (nth top levels 0 <= nth m levels 0); [|lia].
           destruct below as [|p below']; simpl in Hp, Hm.
           ++ apply (parentOf_None _ _ Hp); lia.
           ++ apply parentOf_Some in Hp as (_ & _ & _ & Hbetween).
              apply Hbetween. lia.
        -- lia.
        -- apply Hcov. simpl. lia.
    + split; [|split; [split; auto | simpl; lia]].
      simpl. symmetry. apply lastBelow_is_Some; [lia | lia |].
      intros m Hm. apply Hcov. simpl. lia.
Qed.

Lemma chain_app levels more : forall stk,
  chain levels stk -> boundOf stk <= List.length levels ->
  chain (levels ++ more) stk.
Proof.
  induction stk as [|top below IH]; simpl; auto. intros (Hp & Hc) Hb.
  split.
  - now rewrite parentOf_app by lia.
  - apply IH; auto. destruct below as [|p below']; simpl; [lia|].
    simpl in Hp. apply parentOf_Some in Hp. lia.
Qed.

Lemma TocInv_start : TocInv [] (mkToc [] [] []).
Proof.
  constructor; simpl; auto. intros [|i] s H; discriminate.
Qed.

Lemma TocInv_step l st s : TocInv l st -> TocInv (l ++ [s]) (tocStep st s).
Proof.
  intros [Hlen Hitems Htop Hchain Hlast].
  set (levels := map level l) in *. set (n := List.length l) in *.
  assert (Hn : List.length levels = n) by (unfold levels; apply length_map).
  set (new := mkItem (id s) (slug s) (title s) (level s) []).
  set (h := items st ++ [new]).
  assert (Hh : forall i, i < List.length levels ->
             exists it, nth_error h i = Some it /\ item_level it = nth i levels 0).
  { intros i Hi. destruct (nth_error l i) as [x|] eqn:E.
    - eexists. unfold h. rewrite nth_error_app1 by lia.
      rewrite (Hitems i x E). split; [reflexivity|]. simpl.
      symmetry. now apply nth_level.
    - apply nth_error_None in E. lia. }
  assert (Hb : boundOf (stack st) <= List.length levels).
  { destruct (stack st); simpl; lia. }
  assert (Hcov : forall m, boundOf (stack st) <= m < List.length levels ->
                           level s <= nth m levels 0).
  { intros m Hm. destruct (stack st); simpl in *; [subst l; simpl in *|]; lia. }
  destruct (popDeeper_spec levels h (level s) Hh (stack st) Hchain Hb Hcov)
    as (Hhd & Hch & Hbd).
  assert (Hnew : nth_error h n = Some new).
  { unfold h. rewrite nth_error_app2 by lia. rewrite Hlen, Nat.sub_diag. reflexivity. }
  assert (Hold : forall i x, nth_error l i = Some x ->
             i < n /\ nth_error h i
                      = Some (mkItem (id x) (slug x) (title x) (level x)
                                (childrenOf levels (Some i)))).
  { intros i x E. assert (i < n) by (apply nth_error_Some; congruence).
    split; auto. unfold h. rewrite nth_error_app1 by lia. now apply Hitems. }
  unfold tocStep. cbv zeta. fold new. fold h. rewrite Hlen.
  assert (Hmap : map level (l ++ [s]) = levels ++ [level s])
    by now rewrite map_app.
  destruct (popDeeper h (level s) (stack st)) as [|p below] eqn:Pop.
  - simpl in Hhd.
    constructor; cbn [items toc stack]; rewrite ?Hmap.
    + unfold h. rewrite !length_app. simpl. unfold n in *. lia.
    + intros i x E. rewrite childrenOf_snoc, <- Hhd. simpl. rewrite app_nil_r.
      destruct (Nat.lt_ge_cases i n) as [Hi|Hi].
      * rewrite nth_error_app1 in E by lia. now apply Hold.
      * rewrite nth_error_app2 in E by lia. fold n in E.
        destruct (i - n) as [|k] eqn:K; [|destruct k; simpl in E; discriminate].
        inversion E; subst x. replace i with n by lia.
        rewrite childrenOf_beyond by lia. exact Hnew.
    + rewrite childrenOf_snoc, <- Hhd, Hn. simpl. now rewrite Htop.
    + simpl. rewrite <- Hn, parentOf_last, <- Hhd. auto.
    + rewrite length_app. simpl. lia.
  - simpl in Hhd. simpl in Hbd.
    constructor; cbn [items toc stack]; rewrite ?Hmap.
    + rewrite length_pushChild. unfold h. rewrite !length_app. simpl.
      unfold n in *. lia.
    + intros i x E. rewrite childrenOf_snoc, <- Hhd, nth_error_pushChild.
      destruct (Nat.lt_ge_cases i n) as [Hi|Hi].
      * rewrite nth_error_app1 in E by lia.
        destruct (Hold i x E) as (_ & ->). simpl.
        destruct (Nat.eqb_spec i p) as [->|Hne].
        -- rewrite Nat.eqb_refl, Hn. reflexivity.
        -- destruct (Nat.eqb_spec p i); [congruence|]. now rewrite app_nil_r.
      * rewrite nth_error_app2 in E by lia. fold n in E.
        destruct (i - n) as [|k] eqn:K; [|destruct k; simpl in E; discriminate].
        inversion E; subst x. replace i with n by lia.
        destruct (Nat.eqb_spec n p); [lia|].
        rewrite childrenOf_beyond by lia. rewrite Hnew. simpl.
        destruct (Nat.eqb_spec p n); [lia | reflexivity].
    + rewrite childrenOf_snoc, <- Hhd. simpl. now rewrite app_nil_r.
    + split.
      * rewrite <- Hn, parentOf_last, <- Hhd. reflexivity.
      * apply (chain_app levels [level s] (p :: below)); auto.
    + rewrite length_app. simpl. lia.
Qed.

Lemma TocInv_loop l : TocInv l (tocLoop l).
Proof.
  unfold tocLoop. induction l as [|s l IH] using rev_ind.
  - apply TocInv_start.
  - rewrite fold_left_app. simpl. now apply TocInv_step.
Qed.

(** *** The tree that is returned *)

Lemma allSome_map {A B : Type} (f : A -> option B) (P : A -> B -> Prop) (l : list A) :
  (forall x, In x l -> exists y, f x = Some y /\ P x y) ->
  exists ys, allSome (map f l) = Some ys /\ Forall2 P l ys.
Proof.
  induction l as [|x l IH]; intros H; simpl.
  - exists []. auto.
  - destruct (H x (or_introl eq_refl)) as (y & -> & Hy).
    destruct IH as (ys & -> & Hys); [intros; apply H; now right|].
    exists (y :: ys). auto.
Qed.

Lemma readItem_outline l : forall fuel i,
  i < List.length l -> List.length l - i <= fuel ->
  exists t, readItem fuel (items (tocLoop l)) i = Some t /\ outlineOf l i t.
Proof.
  pose proof (TocInv_loop l) as [Hlen Hitems _ _ _].
  induction fuel as [|fuel IH]; intros i Hi Hf; [lia|].
  destruct (nth_error l i) as [s|] eqn:E; [|apply nth_error_None in E; lia].
  cbn [readItem]. rewrite (Hitems i s E). cbn [item_children item_id item_slug
                                                item_title item_level].
  destruct (allSome_map (readItem fuel (items (tocLoop l))) (outlineOf l)
              (childrenOf (map level l) (Some i))) as (under & -> & Hunder).
  { intros c Hc. apply childrenOf_In in Hc as (Hc & Hp).
    rewrite length_map in Hc. apply parentOf_Some in Hp. apply IH; lia. }
  eexists. split; [reflexivity|]. now constructor.
Qed.

Lemma nested_node a b c lv children :
  nested (TocNode a b c lv children)
  <-> Forall (fun child => lv < treeLevel child /\ nested child) children.
Proof.
  simpl. induction children as [|child rest IH].
  - split; auto.
  - rewrite Forall_cons_iff, <- IH. tauto.
Qed.

Lemma outlineOf_nested l : forall fuel i t,
  List.length l - i <= fuel -> outlineOf l i t ->
  nested t /\ treeLevel t = nth i (map level l) 0.
Proof.
  induction fuel as [|fuel IH]; intros i t Hf H.
  - inversion H as [? s under Hs Hu]; subst.
    assert (i < List.length l) by (apply nth_error_Some; congruence). lia.
  - inversion H as [? s under Hs Hu]; subst.
    split; [|simpl; symmetry; now apply nth_level].
    apply nested_node.
    assert (Hin : forall c, In c (childrenOf (map level l) (Some i)) ->
              i < c /\ level s < nth c (map level l) 0).
    { intros c Hc. apply childrenOf_In in Hc as (_ & Hp).
      apply parentOf_Some in Hp as (Hlt & _ & Hlv & _).
      rewrite (nth_level _ _ _ Hs) in Hlv. auto. }
    remember (childrenOf (map level l) (Some i)) as cs eqn:Ecs.
    clear Ecs H Hs.
    induction Hu as [|c child cs under' Hc _ IHu]; constructor.
    + destruct (Hin c (or_introl eq_refl)) as (Hlt & Hlv).
      destruct (IH c child) as (Hn & Ht); [lia | exact Hc|].
      split; [now rewrite Ht | exact Hn].
    + apply IHu. intros c' Hc'. apply Hin. now right.
Qed.

Lemma outline_returned l :
  exists forest,
    extractTableOfContents l = Some forest
    /\ Forall2 (outlineOf l) (childrenOf (map level l) None) forest.
Proof.
  unfold extractTableOfContents. cbv zeta.
  pose proof (TocInv_loop l) as [Hlen _ Htop _ _]. rewrite Htop, Hlen.
  apply allSome_map. intros c Hc. apply childrenOf_In in Hc as (Hc & _).
  rewrite length_map in Hc. apply readItem_outline; lia.
Qed.

End OutlineFacts.

Section Outline.
Import Markdown OutlineFacts.

(** X24. [extractTableOfContents] returns the outline of the document:
    at the top the sections before which there is no section of a smaller
    level, and under each section the sections of which it is the nearest
    section before them with a smaller level, all in the order of the
    document.  In the store, where the tree is built by pushing onto the
    [children] of items that are already part of it, the [i]-th item is
    that of the [i]-th section. *)
Theorem X24_table_of_contents_is_the_outline (l : list DocumentSection) :
  (exists forest,
     extractTableOfContents l = Some forest
     /\ Forall2 (outlineOf l) (childrenOf (map level l) None) forest)
  /\ toc (tocLoop l) = childrenOf (map level l) None
  /\ forall i s,
       nth_error l i = Some s ->
       nth_error (items (tocLoop l)) i
       = Some (mkItem (id s) (slug s) (title s) (level s)
                 (childrenOf (map level l) (Some i))).
Proof.
  split; [apply outline_returned|].
  pose proof (TocInv_loop l) as [_ Hitems Htop _ _]. auto.
Qed.

(** X25. In the table of contents every item has a greater level than
    the item it is a child of. *)
Theorem X25_children_lie_deeper (l : list DocumentSection)
  (forest : list TocTree) :
  extractTableOfContents l = Some forest -> Forall nested forest.
Proof.
  intros H. destruct (outline_returned l) as (forest' & E & Hf).
  rewrite H in E. inversion E; subst forest'.
  clear H E. induction Hf as [|c t cs ts Hc _ IH]; constructor; auto.
  apply (outlineOf_nested l (List.length l) c t); [lia | exact Hc].
Qed.

End Outline.

Lemma X25_children_lie_deeper_witness : Forall nested Examples.outlineAB.
Proof.
  apply (X25_children_lie_deeper [Examples.sectionA; Examples.sectionB]).
  reflexivity.
Defined.

(** ** The error handler *)

Section Errors.
Import ErrorHandler.

(** X26. The answer of the error handler never has the status 0; its
    name is the name of its status; with the status 500, which an error
    without a status code gets, the message of the error is not sent, and
    with any other status it is; an error of the class [ValidationError] is
    answered with 422 and its message. *)
Theorem X26_error_handler_hides_the_message_of_status_500
  (production : bool) (e : Thrown) :
  api_statusCode (errorHandler production e) <> 0%Z
  /\ api_error (errorHandler production e)
     = getErrorName (api_statusCode (errorHandler production e))
  /\ (api_statusCode (errorHandler production e) = 500%Z ->
      api_message (errorHandler production e)
      = if production then "Something went wrong" else "Internal server error")
  /\ (api_statusCode (errorHandler production e) <> 500%Z ->
      api_message (errorHandler production e) = message e
      /\ (statusCode e = Some (api_statusCode (errorHandler production e))
          \/ status e = Some (api_statusCode (errorHandler production e))))
  /\ (statusCode e = None -> status e = None ->
      api_statusCode (errorHandler production e) = 500%Z)
  /\ (forall text,
        errorHandler production (ValidationError text)
        = mkApiError "Unprocessable Entity" text 422).
Proof.
  unfold errorHandler. cbn [api_statusCode api_error api_message].
  set (code := orElse (statusCode e) (orElse (status e) 500%Z)).
  assert (Hcode : code <> 0%Z
                  /\ (code <> 500%Z ->
                      statusCode e = Some code \/ status e = Some code)
                  /\ (statusCode e = None -> status e = None -> code = 500%Z)).
  { unfold code, orElse.
    destruct (statusCode e) as [a|], (status e) as [b|];
      repeat match goal with
             | |- context [(?x =? 0)%Z] => destruct (Z.eqb_spec x 0)
             end; subst; repeat split; auto; try lia; try discriminate;
      intros; try congruence. }
  destruct Hcode as (H0 & Hfrom & Hnone).
  repeat split; auto.
  - intros ->. now destruct production.
  - destruct (Z.eqb_spec code 500); [contradiction|].
    now rewrite andb_false_r.
  - intros text. now destruct production.
Qed.

End Errors.

(** ** Suggestions *)

Module SuggestionFacts.
Import Suggestions UniqueFacts.

Lemma insertSorted_perm x l : Permutation (x :: l) (insertSorted x l).
Proof.
  induction l as [|y l IH]; simpl; auto.
  destruct (String.leb x y); auto.
  rewrite perm_swap. now constructor.
Qed.

Lemma sortStrings_perm l : Permutation l (sortStrings l).
Proof.
  induction l as [|x l IH]; simpl; auto.
  rewrite <- insertSorted_perm. now constructor.
Qed.

Lemma insertSorted_sorted x l : Sorted ascending l -> Sorted ascending (insertSorted x l).
Proof.
  induction 1 as [|y l Hs IH Hd]; simpl.
  - repeat constructor.
  - destruct (String.leb x y) eqn:E.
    + constructor; [now constructor | now constructor].
    + constructor; auto.
      assert (Hyx : ascending y x).
      { destruct (String.leb_total x y) as [L|L]; [congruence | exact L]. }
      destruct l as [|z l]; simpl.
      * now constructor.
      * inversion Hd; subst. destruct (String.leb x z); now constructor.
Qed.

Lemma sortStrings_sorted l : Sorted ascending (sortStrings l).
Proof.
  induction l as [|x l IH]; simpl; [constructor | now apply insertSorted_sorted].
Qed.

Lemma slice0_app_prefix {A : Type} (a b : list A) (n : Z) :
  exists a' b', JS.slice0 (a ++ b) n = a' ++ b' /\ prefix a' a /\ prefix b' b.
Proof.
  destruct (SortFacts.slice0_prefix (a ++ b) n) as (t & E).
  revert E. generalize (JS.slice0 (a ++ b) n) as p. intros p. revert p t.
  induction a as [|x a IH]; intros p t E; simpl in E.
  - exists [], p. repeat split; [now exists [] | now exists t].
  - destruct p as [|y p].
    + exists [], []. repeat split; [now exists (x :: a) | now exists b].
    + simpl in E. inversion E; subst y.
      destruct (IH p t) as (a' & b' & -> & (ta & ->) & Hb); auto.
      exists (x :: a'), b'. repeat split; auto. now exists ta.
Qed.

Lemma splitWs_nonempty s : forall b, JS.splitWs b s <> [].
Proof.
  induction s as [|d s IH]; intros b; simpl; [discriminate|].
  destruct (JS.isWhiteSpace d).
  - destruct b; [apply IH | discriminate].
  - destruct (JS.splitWs false s); discriminate.
Qed.

Lemma splitWs_not_one_empty d s : JS.splitWs false (String d s) <> [EmptyString].
Proof.
  cbn [JS.splitWs]. destruct (JS.isWhiteSpace d).
  - pose proof (splitWs_nonempty s true). destruct (JS.splitWs true s); congruence.
  - destruct (JS.splitWs false s); discriminate.
Qed.

Lemma last_cons {A : Type} (x d : A) (l : list A) : l <> [] -> last (x :: l) d = last l d.
Proof. destruct l; [congruence | reflexivity]. Qed.

(** A text that ends with whitespace ends with an empty piece. *)
Lemma splitWs_last s : forall b c,
  Markdown.lastChar s = Some c -> JS.isWhiteSpace c = true ->
  last (JS.splitWs b s) EmptyString = EmptyString.
Proof.
  induction s as [|d s IH]; intros b c H Hc; [discriminate|].
  destruct s as [|d' s].
  - simpl in H. inversion H; subst. simpl. rewrite Hc. now destruct b.
  - assert (H' : Markdown.lastChar (String d' s) = Some c) by exact H.
    pose proof (IH true c H' Hc) as IHt. pose proof (IH false c H' Hc) as IHf.
    set (rest := String d' s) in *.
    change (JS.splitWs b (String d rest))
      with (if JS.isWhiteSpace d
            then if b then JS.splitWs true rest else EmptyString :: JS.splitWs true rest
            else match JS.splitWs false rest with
                 | [] => [String d EmptyString]
                 | l :: ls => String d l :: ls
                 end).
    destruct (JS.isWhiteSpace d).
    + destruct b; [exact IHt|].
      rewrite last_cons by apply splitWs_nonempty. exact IHt.
    + pose proof (splitWs_not_one_empty d' s) as Hone. fold rest in Hone.
      pose proof (splitWs_nonempty rest false) as Hne.
      destruct (JS.splitWs false rest) as [|x [|y l]].
      * congruence.
      * simpl in IHf. congruence.
      * exact IHf.
Qed.

Lemma lastChar_lower s c :
  Markdown.lastChar s = Some c ->
  Markdown.lastChar (JS.toLowerCase s) = Some (JS.lowerChar c).
Proof.
  induction s as [|d s IH]; [discriminate|]. intros H.
  destruct s as [|d' s]; [now inversion H|]. apply IH in H. exact H.
Qed.

End SuggestionFacts.

Section Suggest.
Import Suggestions SuggestionFacts UniqueFacts.

(** X27. The keywords that [extractKeywords] draws from the sections are
    in ascending order without repetition; they are exactly the runs of
    three and more lower-case letters, among the runs of word characters of
    the lower-cased title and body of a section, that are no stop words. *)
Theorem X27_keywords_are_sorted_words_of_the_sections
  (sections : list DocumentSection) :
  Sorted (fun a b => String.leb a b = true) (extractKeywords sections)
  /\ NoDup (extractKeywords sections)
  /\ forall word,
       In word (extractKeywords sections)
       <-> exists s,
             In s sections
             /\ In word (wordRuns (JS.toLowerCase (title s ++ " " ++ content s)))
             /\ 3 <= String.length word
             /\ forallb isLowerLetter (list_ascii_of_string word) = true
             /\ isStopWord word = false.
Proof.
  unfold extractKeywords. split; [apply sortStrings_sorted|]. split.
  - eapply Permutation_NoDup; [apply sortStrings_perm | apply unique_NoDup].
  - intros word.
    rewrite <- (Permutation_in' eq_refl (sortStrings_perm _)), unique_In, in_flat_map.
    split; intros (s & Hs & H); exists s; (split; [exact Hs|]).
    + unfold keywordsOf, lowerWords in H. rewrite !filter_In in H.
      destruct H as ((Hin & Hw) & Hstop).
      apply andb_true_iff in Hw as (Hlen & Hlow).
      apply Nat.leb_le in Hlen. apply negb_true_iff in Hstop. auto.
    + destruct H as (Hin & Hlen & Hlow & Hstop).
      unfold keywordsOf, lowerWords. rewrite !filter_In.
      rewrite Hlow, Hstop, (proj2 (Nat.leb_le _ _) Hlen). auto.
Qed.

(** X28. What the suggestions route answers for a query: first the
    suggestions for sections whose title or body holds the query, letter
    case aside, each with the title and the slug of its section, then at
    most three keyword suggestions; with a limit that is not negative, no
    more than [limit] in all (5 when none is given); and for a query that
    ends with whitespace no keyword suggestion at all. *)
Theorem X28_suggestions_are_bounded_and_ordered
  (sections : list DocumentSection) (q : string) (limit : option Z)
  (answered : string) (suggestions : list Suggestion) :
  suggestionsHandler sections (Routes.Text q) limit = Suggested answered suggestions ->
  answered = q
  /\ ((0 <= match limit with Some n => n | None => 5 end)%Z ->
      List.length suggestions
      <= Z.to_nat (match limit with Some n => n | None => 5 end))
  /\ (exists forSections forKeywords,
        suggestions = forSections ++ forKeywords
        /\ Forall (fun x => kind x = "section"
                            /\ exists s, In s sections
                                 /\ text x = title s
                                 /\ suggested_slug x = Some (slug s)
                                 /\ (JS.includes (JS.toLowerCase q)
                                                 (JS.toLowerCase (title s))
                                     || JS.includes (JS.toLowerCase q)
                                                    (JS.toLowerCase (content s)))
                                    = true)
                  forSections
        /\ Forall (fun x => kind x = "keyword" /\ suggested_slug x = None) forKeywords
        /\ List.length forKeywords <= 3
        /\ (forall c, Markdown.lastChar q = Some c -> JS.isWhiteSpace c = true ->
              forKeywords = [])).
Proof.
  unfold suggestionsHandler. destruct q as [|c0 q0]; [discriminate|].
  set (q := String c0 q0). set (L := match limit with Some n => n | None => 5%Z end).
  intros H. inversion H; subst answered suggestions; clear H.
  split; [reflexivity|]. split; [apply SortFacts.slice0_length|].
  destruct (slice0_app_prefix (sectionSuggestions sections q L)
              (keywordSuggestions sections q) L)
    as (a & b & -> & Ha & Hb).
  exists a, b. split; [reflexivity|]. split; [|split; [|split]].
  - apply Forall_forall. intros x Hx. apply (prefix_In _ _ _ Ha) in Hx.
    unfold sectionSuggestions in Hx. apply in_map_iff in Hx as (s & <- & Hs).
    apply (prefix_In _ _ _ (SortFacts.slice0_prefix _ _)) in Hs.
    apply filter_In in Hs as (Hs & Hq).
    split; [reflexivity|]. exists s. auto.
  - apply Forall_forall. intros x Hx. apply (prefix_In _ _ _ Hb) in Hx.
    unfold keywordSuggestions in Hx.
    destruct (2 <=? _); [|destruct Hx].
    apply in_map_iff in Hx as (k & <- & _). auto.
  - destruct Hb as (t & Hb). apply (f_equal (@List.length _)) in Hb.
    rewrite length_app in Hb.
    assert (List.length (keywordSuggestions sections q) <= 3); [|lia].
    unfold keywordSuggestions. destruct (2 <=? _); [|simpl; lia].
    rewrite length_map. apply (SortFacts.slice0_length _ 3%Z). lia.
  - intros c Hc Hws.
    assert (E : keywordSuggestions sections q = []).
    { unfold keywordSuggestions, lastWord, JS.splitWhitespace.
      rewrite (splitWs_last (JS.toLowerCase q) false (JS.lowerChar c)).
      - reflexivity.
      - now apply lastChar_lower.
      - now rewrite StringFacts.lowerChar_whitespace. }
    rewrite E in Hb. destruct Hb as (t & Hb). now destruct b.
Qed.

End Suggest.

Lemma X28_suggestions_witness :
  "fo" = "fo"
  /\ ((0 <= 5)%Z -> List.length Examples.suggestionsForFo <= Z.to_nat 5)
  /\ (exists forSections forKeywords,
        Examples.suggestionsForFo = forSections ++ forKeywords
        /\ Forall (fun x => Suggestions.kind x = "section"
                            /\ exists s, In s [Examples.brands; Examples.fonts]
                                 /\ Suggestions.text x = title s
                                 /\ Suggestions.suggested_slug x = Some (slug s)
                                 /\ (JS.includes (JS.toLowerCase "fo")
                                                 (JS.toLowerCase (title s))
                                     || JS.includes (JS.toLowerCase "fo")
                                                    (JS.toLowerCase (content s)))
                                    = true)
                  forSections
        /\ Forall (fun x => Suggestions.kind x = "keyword"
                            /\ Suggestions.suggested_slug x = None) forKeywords
        /\ List.length forKeywords <= 3
        /\ (forall c, Markdown.lastChar "fo" = Some c -> JS.isWhiteSpace c = true ->
              forKeywords = [])).
Proof.
  apply (X28_suggestions_are_bounded_and_ordered [Examples.brands; Examples.fonts]
           "fo" None "fo" Examples.suggestionsForFo).
  reflexivity.
Defined.

(** ** The order of the table of contents *)

Module OrderFacts.
Import Markdown OutlineFacts.

Lemma deeperRun_spec b rest :
  deeperRun b rest <= List.length rest
  /\ (forall k, k < deeperRun b rest -> b < nth k rest 0)
  /\ (deeperRun b rest < List.length rest -> nth (deeperRun b rest) rest 0 <= b).
Proof.
  induction rest as [|x rest (IH1 & IH2 & IH3)]; simpl.
  - repeat split; intros; lia.
  - destruct (Nat.ltb_spec b x); simpl.
    + split; [lia|]. split.
      * intros [|k] Hk; [assumption | apply IH2; lia].
      * intros Hlt. apply IH3. lia.
    + split; [lia|]. split; intros; lia.
Qed.

Lemma nth_skipn_plus {A : Type} (d : A) (l : list A) : forall a k,
  nth k (skipn a l) d = nth (a + k) l d.
Proof.
  induction l as [|x l IH]; intros [|a] k; simpl; auto.
  now destruct k.
Qed.

(** The sections from [S i] to the one before [endOf levels (Some i)] lie
    deeper than section [i]; the one at [endOf], if any, does not. *)
Lemma endOf_spec levels i :
  i < List.length levels ->
  S i <= endOf levels (Some i) <= List.length levels
  /\ (forall m, i < m < endOf levels (Some i) -> nth i levels 0 < nth m levels 0)
  /\ (endOf levels (Some i) < List.length levels ->
      nth (endOf levels (Some i)) levels 0 <= nth i levels 0).
Proof.
  intros Hi. unfold endOf.
  destruct (deeperRun_spec (nth i levels 0) (skipn (S i) levels)) as (H1 & H2 & H3).
  rewrite length_skipn in H1, H3. repeat split; try lia.
  - intros m Hm. specialize (H2 (m - S i)). rewrite nth_skipn_plus in H2.
    replace (S i + (m - S i)) with m in H2 by lia. apply H2. lia.
  - intros Hlt. rewrite nth_skipn_plus in H3. apply H3. lia.
Qed.

Lemma parentOf_is_Some levels c j :
  c < List.length levels -> j < c -> nth j levels 0 < nth c levels 0 ->
  (forall m, j < m < c -> nth c levels 0 <= nth m levels 0) ->
  parentOf levels c = Some j.
Proof.
  intros Hc Hj Hlt Hbetween. unfold parentOf.
  apply lastBelow_is_Some; rewrite ?length_firstn.
  - lia.
  - now rewrite nth_firstn by lia.
  - intros m Hm. rewrite nth_firstn by lia. apply Hbetween. lia.
Qed.

Lemma parentOf_is_None levels c :
  c < List.length levels ->
  (forall m, m < c -> nth c levels 0 <= nth m levels 0) ->
  parentOf levels c = None.
Proof.
  intros Hc Hbefore. unfold parentOf. apply lastBelow_is_None.
  intros m Hm. rewrite length_firstn in Hm. rewrite nth_firstn by lia.
  apply Hbefore. lia.
Qed.

Lemma endOf_bounds levels q :
  known levels q -> startOf q <= endOf levels q <= List.length levels.
Proof.
  destruct q as [i|]; intros H.
  - destruct (endOf_spec levels i H) as (Hb & _). cbn [startOf]. lia.
  - cbn [startOf endOf]. lia.
Qed.

(** Within the range of [q], a section has the parent [q] exactly when no
    section of the range before it has a smaller level. *)
Lemma child_in_range levels q a :
  known levels q -> startOf q <= a < endOf levels q ->
  (parentOf levels a = q
   <-> forall m, startOf q <= m < a -> nth a levels 0 <= nth m levels 0).
Proof.
  intros Hq Ha. pose proof (endOf_bounds levels q Hq) as Hb.
  destruct q as [i|]; cbn [startOf known] in *.
  - destruct (endOf_spec levels i Hq) as (_ & Hin & _). split.
    + intros Hp m Hm. apply parentOf_Some in Hp as (_ & _ & _ & Hbetween).
      apply Hbetween. lia.
    + intros H. apply parentOf_is_Some; try lia.
      * apply Hin. lia.
      * intros m Hm. apply H. lia.
  - cbn [endOf] in *. split.
    + intros Hp m Hm. apply (parentOf_None _ _ Hp); lia.
    + intros H. apply parentOf_is_None; [lia|]. intros m Hm. apply H. lia.
Qed.

(** Outside the range of [q] no section has the parent [q]. *)
Lemma child_out_of_range levels q c :
  known levels q -> c < List.length levels ->
  c < startOf q \/ endOf levels q <= c -> parentOf levels c <> q.
Proof.
  intros Hq Hc Hout Hp. destruct q as [i|]; cbn [startOf known] in *.
  - destruct (endOf_spec levels i Hq) as (Hb & _ & Hend).
    apply parentOf_Some in Hp as (Hlt & _ & Hlv & Hbetween).
    destruct Hout as [|Hout]; [lia|].
    remember (endOf levels (Some i)) as e eqn:Ee.
    assert (He : e < List.length levels) by lia. specialize (Hend He).
    destruct (Nat.eq_dec c e) as [E|Hne]; [rewrite E in *; lia|].
    specialize (Hbetween e). lia.
  - cbn [endOf] in *. lia.
Qed.

Lemma under_split levels q a b c :
  a <= b <= c -> under levels q a c = under levels q a b ++ under levels q b c.
Proof.
  intros H. unfold under. rewrite <- filter_app. f_equal.
  replace (c - a) with ((b - a) + (c - b)) by lia. rewrite seq_app.
  f_equal. f_equal. lia.
Qed.

Lemma under_none levels q a b :
  (forall c, a <= c < b -> parentOf levels c <> q) -> under levels q a b = [].
Proof.
  intros H. unfold under.
  destruct (filter _ _) as [|c l] eqn:E; auto.
  assert (Hin : In c (filter (fun c => sameParent (parentOf levels c) q)
                             (seq a (b - a)))) by (rewrite E; now left).
  apply filter_In in Hin as (Hc & Hp). apply in_seq in Hc.
  apply sameParent_eq in Hp. exfalso. apply (H c); [lia | exact Hp].
Qed.

Lemma under_first levels q a b :
  a < b -> parentOf levels a = q ->
  under levels q a b = a :: under levels q (S a) b.
Proof.
  intros Hab Hp. unfold under.
  replace (b - a) with (S (b - S a)) by lia. simpl.
  now rewrite (proj2 (sameParent_eq _ _) Hp).
Qed.

(** The children of [q] from a child, or the end of the range, on. *)
Lemma under_tiles levels q : known levels q ->
  forall d a,
    endOf levels q - a <= d ->
    startOf q <= a <= endOf levels q ->
    (a = endOf levels q \/ parentOf levels a = q) ->
    tilesFrom levels a (under levels q a (endOf levels q)) (endOf levels q).
Proof.
  intros Hq. pose proof (endOf_bounds levels q Hq) as Hb.
  induction d as [|d IH]; intros a Hd Ha Hchild.
  - assert (a = endOf levels q) as -> by lia.
    unfold under. now rewrite Nat.sub_diag.
  - destruct (Nat.eq_dec a (endOf levels q)) as [->|Hne].
    { unfold under. now rewrite Nat.sub_diag. }
    destruct Hchild as [|Hp]; [contradiction|].
    assert (Hlt : a < endOf levels q) by lia.
    assert (Han : a < List.length levels) by lia.
    destruct (endOf_spec levels a Han) as (Hea & Hin & Hend).
    set (e := endOf levels (Some a)) in *.
    pose proof (proj1 (child_in_range levels q a Hq (conj (proj1 Ha) Hlt)) Hp)
      as Hbefore.
    assert (Hle : e <= endOf levels q).
    { destruct (Nat.le_gt_cases e (endOf levels q)) as [|Hgt]; auto. exfalso.
      destruct q as [i|]; cbn [startOf known] in *; [|cbn [endOf] in *; lia].
      destruct (endOf_spec levels i Hq) as (_ & Hini & Hendi).
      remember (endOf levels (Some i)) as ei eqn:Eei.
      assert (nth ei levels 0 <= nth i levels 0) by (apply Hendi; lia).
      assert (nth a levels 0 < nth ei levels 0) by (apply Hin; lia).
      assert (nth i levels 0 < nth a levels 0) by (apply Hini; lia). lia. }
    rewrite (under_first levels q a _ Hlt Hp).
    rewrite (under_split levels q (S a) e (endOf levels q)) by lia.
    rewrite (under_none levels q (S a) e).
    2:{ intros c Hc Hpc.
        assert (Hrange : startOf q <= c < endOf levels q) by lia.
        pose proof (proj1 (child_in_range levels q c Hq Hrange) Hpc a) as Hca.
        specialize (Hin c). lia. }
    cbn [app tilesFrom]. fold e. split; [reflexivity|]. split; [lia|].
    apply IH; [lia | lia |].
    destruct (Nat.eq_dec e (endOf levels q)) as [|Hne']; [now left | right].
    apply (proj2 (child_in_range levels q e Hq ltac:(lia))).
    intros m Hm. assert (He : nth e levels 0 <= nth a levels 0) by (apply Hend; lia).
    destruct (Nat.lt_trichotomy m a) as [L|[->|L]].
    + specialize (Hbefore m). lia.
    + exact He.
    + specialize (Hin m). lia.
Qed.

(** The children of [q] tile its range. *)
Lemma childrenOf_tiles levels q :
  known levels q ->
  tilesFrom levels (startOf q) (childrenOf levels q) (endOf levels q).
Proof.
  intros Hq. pose proof (endOf_bounds levels q Hq) as Hb.
  assert (E : childrenOf levels q = under levels q (startOf q) (endOf levels q)).
  { assert (E0 : childrenOf levels q = under levels q 0 (List.length levels)).
    { unfold childrenOf, under. now rewrite Nat.sub_0_r. }
    rewrite E0.
    rewrite (under_split levels q 0 (startOf q) (List.length levels)) by lia.
    rewrite (under_split levels q (startOf q) (endOf levels q) (List.length levels))
      by lia.
    rewrite (under_none levels q 0 (startOf q)),
            (under_none levels q (endOf levels q) (List.length levels)).
    - now rewrite app_nil_r.
    - intros c Hc. apply child_out_of_range; auto; lia.
    - intros c Hc. apply child_out_of_range; auto; lia. }
  rewrite E. apply (under_tiles levels q Hq (endOf levels q)); try lia.
  destruct (Nat.eq_dec (startOf q) (endOf levels q)) as [|Hne]; [now left | right].
  assert (Hr : startOf q <= startOf q < endOf levels q) by lia.
  apply (proj2 (child_in_range levels q (startOf q) Hq Hr)). intros m Hm. lia.
Qed.

(** *** Slices of the list of sections *)

Lemma firstn_plus {A : Type} (l : list A) : forall a b,
  firstn (a + b) l = firstn a l ++ firstn b (skipn a l).
Proof.
  induction l as [|x l IH]; intros [|a] b; simpl; auto.
  - now rewrite firstn_nil.
  - now rewrite IH.
Qed.

Lemma sub_split {A : Type} (l : list A) a b c :
  a <= b <= c -> sub l a c = sub l a b ++ sub l b c.
Proof.
  intros H. unfold sub. replace (c - a) with ((b - a) + (c - b)) by lia.
  rewrite firstn_plus. f_equal. rewrite skipn_skipn. do 2 f_equal. lia.
Qed.

Lemma sub_one {A : Type} (l : list A) i x :
  nth_error l i = Some x -> sub l i (S i) = [x].
Proof.
  unfold sub. replace (S i - i) with 1 by lia. revert i.
  induction l as [|y l IH]; intros [|i] H; simpl in *; try discriminate.
  - now inversion H.
  - now apply IH.
Qed.

Lemma sub_all {A : Type} (l : list A) : sub l 0 (List.length l) = l.
Proof. unfold sub. rewrite Nat.sub_0_r. simpl. apply firstn_all. Qed.

Lemma sub_empty {A : Type} (l : list A) a : sub l a a = [].
Proof. unfold sub. now rewrite Nat.sub_diag. Qed.

(** The items of the outline under a section are those of the sections of
    its range, in their order. *)
Lemma outline_items l : forall d i t,
  endOf (map level l) (Some i) - i <= d -> outlineOf l i t ->
  treeItems t = map itemOf (sub l i (endOf (map level l) (Some i))).
Proof.
  set (levels := map level l).
  assert (Forest : forall d cs trees a b,
    (forall c t, In c cs -> outlineOf l c t -> endOf levels (Some c) - c <= d ->
                 treeItems t = map itemOf (sub l c (endOf levels (Some c)))) ->
    b - a <= d -> tilesFrom levels a cs b -> Forall2 (outlineOf l) cs trees ->
    flat_map treeItems trees = map itemOf (sub l a b)).
  { intros d cs trees a b Hitems Hd Ht Hf. revert a Hd Ht.
    induction Hf as [|c t cs trees Hc _ IH]; intros a Hd Ht;
      cbn [tilesFrom] in Ht.
    - subst. now rewrite sub_empty.
    - destruct Ht as (-> & He & Ht). cbn [flat_map].
      rewrite (sub_split l a (endOf levels (Some a)) b) by lia.
      rewrite map_app. f_equal.
      + apply Hitems; [now left | exact Hc | lia].
      + apply IH; [|lia | exact Ht].
        intros c' t' Hin. apply Hitems. now right. }
  induction d as [|d IH]; intros i t Hd H.
  - inversion H as [? s trees Hs Hu]; subst.
    assert (Hi : i < List.length levels).
    { unfold levels. rewrite length_map. apply nth_error_Some. congruence. }
    destruct (endOf_spec levels i Hi) as (Hb & _). lia.
  - inversion H as [? s trees Hs Hu]; subst.
    assert (Hi : i < List.length levels).
    { unfold levels. rewrite length_map. apply nth_error_Some. congruence. }
    destruct (endOf_spec levels i Hi) as (Hb & _).
    pose proof (childrenOf_tiles levels (Some i) Hi) as Ht. cbn [startOf] in Ht.
    cbn [treeItems].
    rewrite (sub_split l i (S i) (endOf levels (Some i))) by lia.
    rewrite (sub_one l i s Hs). cbn [app map]. unfold itemOf at 1. f_equal.
    apply (Forest d (childrenOf levels (Some i)) trees); auto;
      first [lia | intros c t' _ Hc Hdc; now apply IH].
Qed.

Lemma forest_items l forest :
  Forall2 (outlineOf l) (childrenOf (map level l) None) forest ->
  flat_map treeItems forest = map itemOf l.
Proof.
  set (levels := map level l). intros Hf.
  pose proof (childrenOf_tiles levels None I) as Ht. simpl in Ht.
  transitivity (map itemOf (sub l 0 (List.length l))); [|now rewrite sub_all].
  replace (List.length l) with (List.length levels)
    by (unfold levels; apply length_map).
  revert Ht. generalize 0 as a. generalize (List.length levels) as b.
  induction Hf as [|c t cs trees Hc _ IH]; intros b a Ht; cbn [tilesFrom] in Ht.
  - subst. now rewrite sub_empty.
  - destruct Ht as (-> & He & Ht). cbn [flat_map].
    rewrite (sub_split l a (endOf levels (Some a)) b) by lia.
    rewrite map_app. f_equal.
    + now apply (outline_items l (endOf levels (Some a) - a)).
    + now apply IH.
Qed.

End OrderFacts.

(** X29. The table of contents holds every section once and in the order
    of the document: reading its items, each before its children, gives the
    identifier, slug, title and level of the sections as they come. *)
Theorem X29_table_of_contents_keeps_the_order
  (l : list DocumentSection) (forest : list Markdown.TocTree) :
  Markdown.extractTableOfContents l = Some forest ->
  flat_map treeItems forest = map itemOf l.
Proof.
  intros H. destruct (OutlineFacts.outline_returned l) as (forest' & E & Hf).
  rewrite H in E. inversion E; subst forest'.
  now apply OrderFacts.forest_items.
Qed.

Lemma X29_table_of_contents_witness :
  flat_map treeItems Examples.outlineAB
  = map itemOf [Examples.sectionA; Examples.sectionB].
Proof.
  apply (X29_table_of_contents_keeps_the_order [Examples.sectionA; Examples.sectionB]).
  reflexivity.
Defined.

(** ** Front matter *)

Module FrontMatterFacts.
Import Markdown.

Lemma join_cons_char sep c l ls :
  JS.join sep (String c l :: ls) = String c (JS.join sep (l :: ls)).
Proof. destruct ls; reflexivity. Qed.

(** [split] and [join] with the same separator are inverse to each other
    on a string. *)
Lemma join_split sep s : JS.join (String sep EmptyString) (JS.split sep s) = s.
Proof.
  induction s as [|c s IH]; auto. cbn [JS.split].
  pose proof (SectionFacts.split_nonempty sep s) as Hne.
  destruct (Ascii.eqb_spec c sep) as [->|Hc].
  - destruct (JS.split sep s) as [|l ls]; [congruence|].
    change (JS.join (String sep "") ("" :: l :: ls))
      with (String sep (JS.join (String sep "") (l :: ls))).
    now rewrite IH.
  - destruct (JS.split sep s) as [|l ls]; [congruence|].
    now rewrite join_cons_char, IH.
Qed.

Lemma split_app sep a rest :
  without sep a -> JS.split sep (a ++ String sep rest) = a :: JS.split sep rest.
Proof.
  unfold without. induction a as [|c a IH]; intros H; simpl.
  - now rewrite Ascii.eqb_refl.
  - simpl in H. apply andb_true_iff in H as (Hc & Ha).
    apply negb_true_iff in Hc. rewrite Hc, IH by exact Ha. reflexivity.
Qed.

Lemma split_one sep a : without sep a -> JS.split sep a = [a].
Proof.
  unfold without. induction a as [|c a IH]; intros H; simpl; auto.
  simpl in H. apply andb_true_iff in H as (Hc & Ha).
  apply negb_true_iff in Hc. now rewrite Hc, IH.
Qed.

Lemma split_document lines :
  lines <> [] -> Forall oneLine lines ->
  JS.split LF (document lines) = lines.
Proof.
  unfold document. induction lines as [|x lines IH]; [congruence|].
  intros _ H. inversion H as [|? ? Hx Hl]; subst.
  destruct lines as [|y lines].
  - simpl. now apply split_one.
  - change (JS.join newline (x :: y :: lines))
      with ((x ++ String LF (JS.join newline (y :: lines)))%string).
    rewrite split_app by exact Hx. f_equal. apply IH; [discriminate | exact Hl].
Qed.

Lemma metaLoop_stop front : forall rest meta,
  Forall (fun line => line <> "---") front ->
  metaLoop (front ++ "---" :: rest) meta = fold_left metaLine front meta.
Proof.
  induction front as [|line front IH]; intros rest meta H; simpl; auto.
  inversion H as [|? ? Hl Hf]; subst.
  destruct (String.eqb_spec line "---"); [contradiction|]. now apply IH.
Qed.

Lemma metaGet_metaSet k v m : metaGet k (metaSet k v m) = Some v.
Proof.
  induction m as [|[k' v'] m IH]; simpl.
  - now rewrite String.eqb_refl.
  - destruct (String.eqb k k') eqn:E; simpl; now rewrite E.
Qed.

Lemma prefix_app p s : String.prefix p (p ++ s) = true.
Proof.
  induction p as [|c p IH]; simpl; [now destruct s|].
  destruct (ascii_dec c c); [exact IH | congruence].
Qed.

Lemma includes_unfold p s :
  JS.includes p s
  = String.prefix p s
    || match s with EmptyString => false | String _ s' => JS.includes p s' end.
Proof. destruct s; reflexivity. Qed.

Lemma includes_app p a b : JS.includes p (a ++ p ++ b) = true.
Proof.
  induction a as [|c a IH].
  - change (("" ++ p ++ b)%string) with ((p ++ b)%string).
    rewrite includes_unfold, prefix_app. reflexivity.
  - change ((String c a ++ p ++ b)%string) with (String c (a ++ p ++ b)).
    rewrite includes_unfold, IH. apply orb_true_r.
Qed.

End FrontMatterFacts.

Section FrontMatter.
Import Markdown FrontMatterFacts.

(** X30. [extractMetaTags] reads the front matter only: a document
    whose first line is not [---] has no tag; in a document that starts
    with [---], the tags are those of the lines up to the next line [---],
    taken in their order, and the lines after it change nothing.  A line
    [key: value] of the front matter sets the key to all that follows the
    first colon, further colons included, trimmed and without a quote at
    either end. *)
Theorem X30_meta_tags_come_from_the_front_matter :
  (forall text first rest,
     JS.split LF text = first :: rest -> first <> "---" ->
     extractMetaTags text = [])
  /\ (forall front body,
        Forall (fun line => line <> "---") front ->
        Forall oneLine (front ++ body) ->
        extractMetaTags (document ("---" :: front ++ "---" :: body))
        = fold_left metaLine front [])
  /\ (forall meta key value,
        allChars (fun c => negb (Ascii.eqb c ":")) key = true ->
        JS.trim (key ++ ":" ++ value) = (key ++ ":" ++ value)%string ->
        JS.trim key <> "__proto__" ->
        metaGet (JS.trim key) (metaLine meta (key ++ ":" ++ value))
        = Some (stripQuotes (JS.trim value))).
Proof.
  split; [|split].
  - intros text first rest E Hf. unfold extractMetaTags. rewrite E.
    destruct (String.eqb_spec first "---"); [contradiction | reflexivity].
  - intros front body Hfront Hlines. unfold extractMetaTags.
    rewrite split_document.
    + rewrite String.eqb_refl. now apply metaLoop_stop.
    + discriminate.
    + constructor; [reflexivity|]. apply Forall_app in Hlines as (Hf & Hb).
      apply Forall_app. split; [exact Hf|]. constructor; [reflexivity | exact Hb].
  - intros meta key value Hkey Htrim Hproto. unfold metaLine. rewrite Htrim.
    assert (Hne : String.eqb (key ++ ":" ++ value) "" = false).
    { apply String.eqb_neq. destruct key; discriminate. }
    rewrite Hne, (includes_app ":" key value). cbn [negb andb].
    change ((key ++ ":" ++ value)%string) with ((key ++ String ":" value)%string).
    rewrite split_app by exact Hkey.
    change ":" with (String ":"%char EmptyString) at 1.
    rewrite join_split.
    destruct (String.eqb_spec (JS.trim key) "__proto__"); [contradiction|].
    apply metaGet_metaSet.
Qed.

End FrontMatter.

Lemma X30_meta_tags_witness :
  Markdown.extractMetaTags Examples.withFrontMatter = [("title", "Brand: Check")].
Proof.
  transitivity (fold_left Markdown.metaLine
                  [("title: " ++ Examples.quote ++ "Brand: Check" ++ Examples.quote)%string]
                  []); [|reflexivity].
  apply (proj1 (proj2 X30_meta_tags_come_from_the_front_matter)
           [("title: " ++ Examples.quote ++ "Brand: Check" ++ Examples.quote)%string]
           ["# A"; "note: kept out"]).
  - repeat constructor. discriminate.
  - repeat constructor.
Defined.
